(** * tcgen: interception and recording pipeline

    A shallow embedding of the three source files of the repository

      - [src/lib/executor/index.js]  (class [Executor], the invocation normalizer),
      - [src/lib/logger/index.js]    (class [FileLogger], the fixture recorder),
      - [src/lib/tcgen/index.js]     (class [Tcgen], interceptor and instrumenter),

    together with the theorems that settle the claims made about them.

    JavaScript values are an inductive type, abrupt completion (a thrown
    value) is explicit in the result type of everything that can throw, and
    state (the executor's promise and [returnValue], the wrapper's
    [applyArgs], the recorder's files) is passed explicitly. *)

From Stdlib Require Import ZArith String Ascii List Bool Lia.
From stdpp Require Import base option list strings pretty gmap.
Import ListNotations.
Local Open Scope string_scope.
Local Open Scope list_scope.

(* ===================================================================== *)
(** * JavaScript values *)
(* ===================================================================== *)

Module Js.

(** Identities of function objects.  [FUser n] is a function of the host
    program (a member of the unit under test, a callback supplied by a
    caller, an output handler).  The other constructors are the closures the
    library itself creates. *)
Inductive fid : Type :=
| FUser (n : nat)
| FNoop                    (* [() => {}], the default output handler *)
| FBound (target : fid)    (* [target.bind(receiver)]; the receiver is not modelled *)
| FCb (prevCb : fid)       (* [function cb (...args)] of [Executor.execute] *)
| FOnDone.                 (* [(err, ...data) => {...}] of [mainCall] *)

(** Values.  Numbers are the integers and NaN: fractions, the
    infinities and the negative zero are not values of the model.  A
    promise is identified with its eventual settlement; objects are own
    enumerable string-keyed properties in enumeration order; [VErr] is
    an [Error] instance (its [name] and [message] are not enumerable). *)
#[warnings="-register-all"]
Inductive value : Type :=
| VUndefined
| VNull
| VBool (b : bool)
| VNum (n : Z)
| VNaN
| VBigInt (n : Z)
| VStr (s : string)
| VArr (items : list value)
| VObj (props : list (string * value))
| VFun (f : fid)
| VErr (name message : string)
| VPromise (fate : settlement)
with settlement : Type :=
| Pending
| Fulfilled (v : value)
| Rejected (e : value).

(** The result of evaluating something that may throw: a result, or the
    thrown value. *)
Inductive result (A : Type) : Type :=
| Normal (a : A)
| Abrupt (e : value).

Arguments Normal {A} a.
Arguments Abrupt {A} e.

Definition completion : Type := result value.

(** Sequencing: a throw ends the evaluation. *)
Definition bind {A B : Type} (r : result A) (k : A -> result B) : result B :=
  match r with
  | Normal a => k a
  | Abrupt e => Abrupt e
  end.

Notation "'try!' x := r 'in' k" := (bind r (fun x => k))
  (at level 10, x name, r at level 100, k at level 200, only parsing).

Definition typeof (v : value) : string :=
  match v with
  | VUndefined => "undefined"
  | VNull => "object"
  | VBool _ => "boolean"
  | VNum _ | VNaN => "number"
  | VBigInt _ => "bigint"
  | VStr _ => "string"
  | VArr _ | VObj _ | VErr _ _ | VPromise _ => "object"
  | VFun _ => "function"
  end.

(** ToBoolean *)
Definition truthy (v : value) : bool :=
  match v with
  | VUndefined | VNull | VNaN => false
  | VBool b => b
  | VNum n | VBigInt n => negb (n =? 0)%Z
  | VStr s => negb (String.eqb s "")
  | VArr _ | VObj _ | VFun _ | VErr _ _ | VPromise _ => true
  end.

(** [v === false] and [v === 1] *)
Definition is_false (v : value) : bool :=
  match v with VBool false => true | _ => false end.

Definition is_one (v : value) : bool :=
  match v with VNum 1 => true | _ => false end.

(** [v instanceof Promise] *)
Definition is_promise (v : value) : bool :=
  match v with VPromise _ => true | _ => false end.

(** A default parameter value applies exactly when the argument is
    [undefined]. *)
Definition default_param (arg dflt : value) : value :=
  match arg with VUndefined => dflt | _ => arg end.

Definition TypeError (msg : string) : value := VErr "TypeError" msg.

(** [arr[arr.length - 1]] *)
Definition last_elem (arr : list value) : value := List.last arr VUndefined.

(** [arr[arr.length - 1] = v]; on an empty array the assignment creates the
    property ["-1"] and leaves the elements alone. *)
Definition set_last (arr : list value) (v : value) : list value :=
  match arr with
  | [] => []
  | _ => List.removelast arr ++ [v]
  end.

(** [arr[i]] *)
Definition at_index (arr : list value) (i : nat) : value := List.nth i arr VUndefined.

(** [arr.slice(1)] *)
Definition slice1 (arr : list value) : list value := List.tl arr.

End Js.
Import Js.

(* ===================================================================== *)
(** * src/lib/executor/index.js *)
(* ===================================================================== *)

Module Executor.

(** What a function of the host program does when the executor drives it.
    The executor changes one thing only in the arguments it passes on, the
    last one, so the one interaction that matters is a call of the function
    received in last position: [CallBack args k] calls it with [args] and
    goes on as [k] says with the completion of that call. *)
Inductive behaviour : Type :=
| Return (v : value)
| Throw (e : value)
| CallBack (args : list value) (k : completion -> behaviour).

(** [on_call]: the body run by a plain call; [on_new]: the body run by
    [new], [None] when the function is not a constructor; [later]: what the
    function has scheduled for later turns of the event loop (a callback
    fired once I/O is done). *)
Record callable : Type := {
  on_call : list value -> behaviour;
  on_new : option (list value -> behaviour);
  later : list value -> behaviour
}.

Definition noop_callable : callable :=
  {| on_call := fun _ => Return VUndefined;
     on_new := None;
     later := fun _ => Return VUndefined |}.

(** The fields set by the constructor, and [returnValue], which only
    [execute] assigns ([None]: never assigned). *)
Record t : Type := {
  method : value;
  construct : value;
  isAsync : value;
  outputHandler : value;
  returnValue : option value
}.

(** [constructor (method, outputHandler = () => {}, construct = false, isAsync)] *)
Definition new (method outputHandler construct isAsync : value) : t :=
  {| method := method;
     construct := default_param construct (VBool false);
     isAsync := isAsync;
     outputHandler := default_param outputHandler (VFun FNoop);
     returnValue := None |}.

Definition set_returnValue (v : value) (this : t) : t :=
  {| method := method this; construct := construct this; isAsync := isAsync this;
     outputHandler := outputHandler this; returnValue := Some v |}.

(** What the run of one [execute] leaves behind, in order: the calls of the
    output handler and the calls that reached the original callback. *)
Inductive event : Type :=
| Fired (args : list value)
| Forwarded (args : list value).

Section Execute.

(** The world outside the executor and what a plain call of a function does
    to it: host functions used as callbacks or handlers, and the closures of
    other parts of the library. *)
Context {W : Type}.
Variable extern : fid -> list value -> W -> completion * W.

(** The behaviour of a function the executor drives as [this.method]. *)
Variable impl : fid -> callable.

Record st : Type := {
  world : W;
  prm : option settlement;      (* [None]: neither [resolve] nor [reject] called yet *)
  trace : list event
}.

Definition emit (e : event) (s : st) : st :=
  {| world := world s; prm := prm s; trace := trace s ++ [e] |}.

(** [f(...args)] for a function that is not this executor's own [cb]. *)
Fixpoint apply_plain (f : fid) (args : list value) (s : st) : completion * st :=
  match f with
  | FNoop => (Normal VUndefined, s)
  | FBound target => apply_plain target args s
  | _ =>
      let '(c, w) := extern f args (world s) in
      (c, {| world := w; prm := prm s; trace := trace s |})
  end.

Definition call_value (f : value) (args : list value) (s : st) : completion * st :=
  match f with
  | VFun g => apply_plain g args s
  | _ => (Abrupt (TypeError "not a function"), s)
  end.

(** [resolve(x)] and [reject(e)] of [prm]: the first call decides, a
    promise passed to [resolve] is followed. *)
Definition resolved_with (x : value) : settlement :=
  match x with
  | VPromise fate => fate
  | _ => Fulfilled x
  end.

Definition resolve (x : value) (s : st) : st :=
  match prm s with
  | Some _ => s
  | None => {| world := world s; prm := Some (resolved_with x); trace := trace s |}
  end.

Definition reject (e : value) (s : st) : st :=
  match prm s with
  | Some _ => s
  | None => {| world := world s; prm := Some (Rejected e); trace := trace s |}
  end.

Section WithThis.

Variable this : t.

(** [this.outputHandler(...args)] *)
Definition fire (args : list value) (s : st) : completion * st :=
  match outputHandler this with
  | VFun g => apply_plain g args (emit (Fired args) s)
  | _ => (Abrupt (TypeError "this.outputHandler is not a function"), s)
  end.

(** [[
      const resolving = (...args) => {
        this.outputHandler(null, ...args)
        resolve(...args)
      }
    ]] *)
Definition resolving (args : list value) (s : st) : completion * st :=
  match fire (VNull :: args) s with
  | (Abrupt e, s1) => (Abrupt e, s1)
  | (Normal _, s1) => (Normal VUndefined, resolve (at_index args 0) s1)
  end.

(** [[
      const rejecting = (er) => {
        this.outputHandler(er)
        reject(er)
      }
    ]] *)
Definition rejecting (er : value) (s : st) : completion * st :=
  match fire [er] s with
  | (Abrupt e, s1) => (Abrupt e, s1)
  | (Normal _, s1) => (Normal VUndefined, reject er s1)
  end.

(** [[
        payload[payload.length - 1] = function cb (...args) {
          if (args[0]) rejecting(args[0])
          else resolving(...(args.slice(1)))
          return prevCb(...args)
        }
    ]] *)
Definition cb (prevCb : fid) (args : list value) (s : st) : completion * st :=
  match (if truthy (at_index args 0)
         then rejecting (at_index args 0) s
         else resolving (slice1 args) s) with
  | (Abrupt e, s1) => (Abrupt e, s1)
  | (Normal _, s1) => apply_plain prevCb args (emit (Forwarded args) s1)
  end.

(** A call of the function the driven callable received in last position:
    this executor's [cb] when it replaced the argument ([wrapped] holds
    [prevCb]), the caller's own value otherwise. *)
Definition call_last (wrapped : option fid) (original : value)
    (args : list value) (s : st) : completion * st :=
  match wrapped with
  | Some prevCb => cb prevCb args s
  | None => call_value original args s
  end.

Fixpoint run (wrapped : option fid) (original : value) (b : behaviour) (s : st)
    : completion * st :=
  match b with
  | Return v => (Normal v, s)
  | Throw e => (Abrupt e, s)
  | CallBack args k =>
      let '(c, s1) := call_last wrapped original args s in
      run wrapped original (k c) s1
  end.

(** The function object behind a value, through [bind]. *)
Fixpoint body_of (f : fid) : callable :=
  match f with
  | FNoop => noop_callable
  | FBound target => body_of target
  | _ => impl f
  end.

(** Lines 61 to 63: [returnWithCB] is set, and [prevCb] captured, when
    [isAsync] is neither [false] nor [1] and the last argument is a
    function; [Some prevCb] stands for [returnWithCB = true]. *)
Definition returnWithCB (payload : list value) : option fid :=
  if negb (is_false (isAsync this)) && negb (is_one (isAsync this))
  then match last_elem payload with VFun g => Some g | _ => None end
  else None.

(** The argument list after line 64. *)
Definition wrap_payload (payload : list value) : list value :=
  match returnWithCB payload with
  | Some prevCb => set_last payload (VFun (FCb prevCb))
  | None => payload
  end.

(** The [try] block, lines 70 to 81.  Both arms of [if (payload.length)]
    construct [method] with the elements of [payload]:
    [Function.prototype.bind.apply] throws on a [method] that is not
    callable and [new] throws on one that is not a constructor.  On the
    other path the result is stored in [this.returnValue]. *)
Definition try_block (payload : list value) (s : st) : completion * st * t :=
  let wrapped := returnWithCB payload in
  let original := last_elem payload in
  let args := wrap_payload payload in
  if truthy (construct this) then
    match method this with
    | VFun g =>
        match on_new (body_of g) with
        | Some body => (run wrapped original (body args) s, this)
        | None => (Abrupt (TypeError "not a constructor"), s, this)
        end
    | _ => (Abrupt (TypeError "Bind must be called on a function"), s, this)
    end
  else
    match method this with
    | VFun g =>
        match run wrapped original (on_call (body_of g) args) s with
        | (Normal ret, s1) => (Normal ret, s1, set_returnValue ret this)
        | (Abrupt e, s1) => (Abrupt e, s1, this)
        end
    | _ => (Abrupt (TypeError "method is not a function"), s, this)
    end.

(** What the promise executor leaves to later turns: the reaction
    registered on a returned promise, line 87. *)
Definition executor_fn (payload : list value) (s : st)
    : completion * st * t * option settlement :=
  match try_block payload s with
  | (Abrupt er, s1, this1) => (rejecting er s1, this1, None)
  | (Normal ret, s1, this1) =>
      if bool_decide (is_Some (returnWithCB payload))
      then (Normal VUndefined, s1, this1, None)
      else if negb (is_false (isAsync this)) && is_promise ret
      then match ret with
           | VPromise fate => (Normal VUndefined, s1, this1, Some fate)
           | _ => (Normal VUndefined, s1, this1, None)
           end
      else (resolving [ret] s1, this1, None)
  end.

(** [ret.then(resolving.bind(this)).catch(rejecting.bind(this))], once
    [ret] has settled. *)
Definition react (fate : settlement) (s : st) : st :=
  match fate with
  | Pending => s
  | Fulfilled v =>
      match resolving [v] s with
      | (Abrupt e, s1) => snd (rejecting e s1)
      | (Normal _, s1) => s1
      end
  | Rejected e => snd (rejecting e s)
  end.

(** The work the driven function left for later turns; nobody catches what
    it throws. *)
Definition run_later (payload : list value) (s : st) : st :=
  match method this with
  | VFun g =>
      match truthy (construct this), on_new (body_of g) with
      | true, None => s
      | _, _ => snd (run (returnWithCB payload) (last_elem payload)
                         (later (body_of g) (wrap_payload payload)) s)
      end
  | _ => s
  end.

(** [execute (...params)].  [new Promise(fn)] runs [fn] at once and turns a
    throw of [fn] into a rejection; the later turns follow; [prm], as a
    value, is the promise with the settlement it ends with.  The method has
    no [return] statement. *)
Definition execute (params : list value) (s : st) : completion * st * t :=
  let payload := params in
  let '(c, s1, this1, reaction) := executor_fn payload s in
  let s2 := match c with Abrupt e => reject e s1 | Normal _ => s1 end in
  let s3 := match reaction with Some fate => react fate s2 | None => s2 end in
  let s4 := run_later payload s3 in
  let prm_value := VPromise (default Pending (prm s4)) in
  let this2 := if truthy (isAsync this) then set_returnValue prm_value this1 else this1 in
  (Normal VUndefined, s4, this2).

End WithThis.

(** A function that returns normally whatever it is called with. *)
Definition quiet (h : fid) : Prop :=
  forall args (s : st), exists v s', apply_plain h args s = (Normal v, s').

Definition init (w : W) : st := {| world := w; prm := None; trace := [] |}.

(** How often the output handler was called, and how often the original
    callback was reached. *)
Definition fired (s : st) : list (list value) :=
  omap (fun e => match e with Fired a => Some a | _ => None end) (trace s).

Definition forwarded (s : st) : list (list value) :=
  omap (fun e => match e with Forwarded a => Some a | _ => None end) (trace s).

End Execute.

End Executor.

(* ===================================================================== *)
(** * Strings and arrays of strings, as the sources use them *)
(* ===================================================================== *)

Module Str.

Definition quote_char : ascii := "034"%char.

(** Templates are written with apostrophes where the source text has
    double quotes. *)
Fixpoint dq (template : string) : string :=
  match template with
  | EmptyString => EmptyString
  | String c rest => String (if Ascii.eqb c "'" then quote_char else c) (dq rest)
  end.

(** [s.split(sep)].  [skip] counts the characters of a separator just
    found that are still to be passed over; [cur] holds, in reverse, the
    characters of the piece being read. *)
Fixpoint split_from (sep : string) (skip : nat) (cur : list ascii) (s : string)
    : list string :=
  match s with
  | EmptyString => [string_of_list_ascii (rev cur)]
  | String c rest =>
      match skip with
      | S k => split_from sep k cur rest
      | O =>
          if String.prefix sep s
          then string_of_list_ascii (rev cur)
                 :: split_from sep (String.length sep - 1) [] rest
          else split_from sep 0 (c :: cur) rest
      end
  end.

Definition split (sep s : string) : list string :=
  match sep with
  | EmptyString => map (fun c => String c EmptyString) (list_ascii_of_string s)
  | _ => split_from sep 0 [] s
  end.

(** [arr.join(sep)] *)
Definition join (sep : string) (arr : list string) : string := String.concat sep arr.

(** Relative index of [Array.prototype.slice] and [splice]: negative
    indices count from the end, everything is clamped to the array. *)
Definition clamp_index (len i : Z) : nat :=
  Z.to_nat (if (i <? 0)%Z then Z.max (len + i) 0 else Z.min i len).

(** [arr.slice(start, end)] *)
Definition slice {A : Type} (start stop : Z) (arr : list A) : list A :=
  let len := Z.of_nat (length arr) in
  let from := clamp_index len start in
  let to := clamp_index len stop in
  take (to - from) (drop from arr).

(** The array [arr.splice(start, deleteCount)] returns: the elements it
    removes. *)
Definition splice_removed {A : Type} (start deleteCount : Z) (arr : list A) : list A :=
  let len := Z.of_nat (length arr) in
  let from := clamp_index len start in
  let count := Z.to_nat (Z.min (Z.max deleteCount 0) (len - Z.of_nat from)) in
  take count (drop from arr).

(** [s.endsWith(suffix)] *)
Definition endsWith (s suffix : string) : bool :=
  let n := String.length s in
  let m := String.length suffix in
  Nat.leb m n && String.eqb (String.substring (n - m) m s) suffix.

End Str.

(* ===================================================================== *)
(** * JSON.stringify and JSON.parse *)
(* ===================================================================== *)

Module Json.

(** A JSON text, as its syntax tree.  [JSON.stringify] is [serialize]
    followed by the printing of the tree; [JSON.parse] of a printed tree is
    the value [of_json] gives. *)
#[warnings="-register-all"]
Inductive json : Type :=
| JNull
| JBool (b : bool)
| JNum (n : Z)
| JStr (s : string)
| JArr (items : list json)
| JObj (members : list (string * json)).

(** SerializeJSONProperty has three outcomes: a text, [undefined] (nothing
    to print for this value), or a throw. *)
Inductive serialized : Type :=
| Text (j : json)
| Nothing
| Fails (e : value).

(** What the host decides and the library only uses: the program under
    test and Node.
    - [toJSON f holder key]: what SerializeJSONProperty makes of the value
      the call [f.call(holder, key)] of a [toJSON] method returns (its
      text, or nothing), or the throw of that call;
    - [number_text n]: Number::toString for an integer beyond the safe
      integers, where the digits are the shortest that give the number
      back and an exponent is used from 1e21 on;
    - [dirname path]: the directory a path lies in, [path.dirname]. *)
Class Host : Type := {
  toJSON : fid -> value -> string -> serialized;
  number_text : Z -> string;
  dirname : string -> string
}.

(** [value.toJSON], when it is callable.  The method may be inherited: a
    function among the properties is never printed, so it does not matter
    to [JSON.stringify] where the method lives. *)
Definition toJSON_of (props : list (string * value)) : option fid :=
  match List.find (fun p => String.eqb (fst p) "toJSON") props with
  | Some (_, VFun f) => Some f
  | _ => None
  end.

(** SerializeJSONProperty, for the value found under [key]: the key is
    the name of the property, the index of the element, or the empty
    string at the top. *)
Fixpoint serialize `{Host} (key : string) (v : value) : serialized :=
  match v with
  | VUndefined | VFun _ => Nothing
  | VNull | VNaN => Text JNull
  | VBool b => Text (JBool b)
  | VNum n => Text (JNum n)
  | VBigInt _ => Fails (TypeError "Do not know how to serialize a BigInt")
  | VStr s => Text (JStr s)
  | VErr _ _ | VPromise _ => Text (JObj [])
  | VArr items =>
      (* an element with nothing to print is printed as null *)
      match (fix elements (i : nat) (l : list value) : value + list json :=
               match l with
               | [] => inr []
               | x :: l' =>
                   match serialize (pretty i) x with
                   | Fails e => inl e
                   | Nothing => match elements (S i) l' with
                                | inl e => inl e
                                | inr js => inr (JNull :: js)
                                end
                   | Text j => match elements (S i) l' with
                               | inl e => inl e
                               | inr js => inr (j :: js)
                               end
                   end
               end) 0 items with
      | inl e => Fails e
      | inr js => Text (JArr js)
      end
  | VObj props =>
      match toJSON_of props with
      | Some f => toJSON f v key
      | None =>
          (* a property with nothing to print is left out *)
          match (fix members (l : list (string * value)) : value + list (string * json) :=
                   match l with
                   | [] => inr []
                   | (k, x) :: l' =>
                       match serialize k x with
                       | Fails e => inl e
                       | Nothing => members l'
                       | Text j => match members l' with
                                   | inl e => inl e
                                   | inr js => inr ((k, j) :: js)
                                   end
                       end
                   end) props with
          | inl e => Fails e
          | inr js => Text (JObj js)
          end
      end
  end.

Fixpoint of_json (j : json) : value :=
  match j with
  | JNull => VNull
  | JBool b => VBool b
  | JNum n => VNum n
  | JStr s => VStr s
  | JArr items => VArr (map of_json items)
  | JObj members => VObj (map (fun m => (fst m, of_json (snd m))) members)
  end.

(** The values [JSON.parse] returns: [null], booleans, numbers, strings,
    arrays and objects of such. *)
Fixpoint data (v : value) : bool :=
  match v with
  | VNull | VBool _ | VNum _ | VStr _ => true
  | VArr items => forallb data items
  | VObj props => forallb (fun p => data (snd p)) props
  | _ => false
  end.

(** [JSON.stringify(v)]: the text, or [undefined]. *)
Definition stringify `{Host} (v : value) : result (option json) :=
  match serialize "" v with
  | Text j => Normal (Some j)
  | Nothing => Normal None
  | Fails e => Abrupt e
  end.

(** [JSON.parse(text)]; [undefined] is read as the text [undefined], which
    is not JSON. *)
Definition parse (text : option json) : completion :=
  match text with
  | Some j => Normal (of_json j)
  | None => Abrupt (VErr "SyntaxError" "undefined is not valid JSON")
  end.

(** ** Printing *)

Definition hex_digit (n : nat) : ascii :=
  ascii_of_nat (if Nat.ltb n 10 then 48 + n else 87 + n).

(** QuoteJSONString, one character. *)
Definition escape (c : ascii) : string :=
  let n := nat_of_ascii c in
  if Nat.eqb n 34 then "\" +:+ String Str.quote_char ""
  else if Nat.eqb n 92 then "\\"
  else if Nat.eqb n 8 then "\b"
  else if Nat.eqb n 12 then "\f"
  else if Nat.eqb n 10 then "\n"
  else if Nat.eqb n 13 then "\r"
  else if Nat.eqb n 9 then "\t"
  else if Nat.ltb n 32
       then "\u00" +:+ String (hex_digit (n / 16)) (String (hex_digit (n mod 16)) "")
       else String c "".

Fixpoint escape_all (s : string) : string :=
  match s with
  | EmptyString => ""
  | String c rest => escape c +:+ escape_all rest
  end.

Definition quote (s : string) : string :=
  String Str.quote_char (escape_all s) +:+ String Str.quote_char "".

Definition newline : string := String "010"%char "".

(** The safe integers, which are printed digit by digit. *)
Definition safe (n : Z) : bool := (Z.abs n <? 2 ^ 53)%Z.

(** [JSON.stringify(_, null, 2)]: the text of a tree with a gap of two
    spaces; [indent] is the current indentation. *)
Fixpoint print `{Host} (indent : string) (j : json) : string :=
  let inner := indent +:+ "  " in
  let sep := "," +:+ newline +:+ inner in
  match j with
  | JNull => "null"
  | JBool true => "true"
  | JBool false => "false"
  | JNum n => if safe n then pretty n else number_text n
  | JStr s => quote s
  | JArr [] => "[]"
  | JArr items =>
      "[" +:+ newline +:+ inner +:+ Str.join sep (map (print inner) items)
          +:+ newline +:+ indent +:+ "]"
  | JObj [] => "{}"
  | JObj members =>
      "{" +:+ newline +:+ inner
          +:+ Str.join sep (map (fun m => quote (fst m) +:+ ": " +:+ print inner (snd m)) members)
          +:+ newline +:+ indent +:+ "}"
  end.

(** [JSON.stringify(v, null, 2)] *)
Definition stringify_pretty `{Host} (v : value) : result (option string) :=
  try! text := stringify v in Normal (print "" <$> text).

(** ** Recognising a JSON text

    The grammar of RFC 8259 over the characters of a text.  Every
    recogniser returns what is left of the text after the phrase it read. *)

Definition code (c : ascii) : nat := nat_of_ascii c.

Definition at_code (c : ascii) (n : nat) : bool := Nat.eqb (code c) n.

Definition is_ws (c : ascii) : bool := at_code c 32 || at_code c 9 || at_code c 10 || at_code c 13.

Definition is_digit (c : ascii) : bool := Nat.leb 48 (code c) && Nat.leb (code c) 57.

Definition is_hex (c : ascii) : bool :=
  is_digit c || (Nat.leb 65 (code c) && Nat.leb (code c) 70)
             || (Nat.leb 97 (code c) && Nat.leb (code c) 102).

Fixpoint skip_ws (s : list ascii) : list ascii :=
  match s with
  | c :: rest => if is_ws c then skip_ws rest else s
  | [] => []
  end.

Fixpoint skip_digits (s : list ascii) : list ascii :=
  match s with
  | c :: rest => if is_digit c then skip_digits rest else s
  | [] => []
  end.

Definition digits (s : list ascii) : option (list ascii) :=
  match s with
  | c :: rest => if is_digit c then Some (skip_digits rest) else None
  | [] => None
  end.

Definition exponent (s : list ascii) : option (list ascii) :=
  match s with
  | c :: rest =>
      if at_code c 101 || at_code c 69
      then match rest with
           | sign :: rest' => if at_code sign 43 || at_code sign 45 then digits rest' else digits rest
           | [] => None
           end
      else Some s
  | [] => Some s
  end.

Definition fraction (s : list ascii) : option (list ascii) :=
  match s with
  | c :: rest =>
      if at_code c 46
      then match digits rest with Some rest' => exponent rest' | None => None end
      else exponent s
  | [] => Some s
  end.

Definition integer (s : list ascii) : option (list ascii) :=
  match s with
  | c :: rest =>
      if at_code c 48 then fraction rest
      else if is_digit c then fraction (skip_digits rest)
      else None
  | [] => None
  end.

Definition number (s : list ascii) : option (list ascii) :=
  match s with
  | c :: rest => if at_code c 45 then integer rest else integer s
  | [] => None
  end.

(** The characters of a string, after its opening quote. *)
Fixpoint chars (s : list ascii) : option (list ascii) :=
  match s with
  | [] => None
  | c :: rest =>
      if at_code c 34 then Some rest
      else if at_code c 92 then
        match rest with
        | e :: rest' =>
            if at_code e 34 || at_code e 92 || at_code e 47 || at_code e 98 || at_code e 102
               || at_code e 110 || at_code e 114 || at_code e 116
            then chars rest'
            else if at_code e 117 then
              match rest' with
              | h1 :: h2 :: h3 :: h4 :: rest'' =>
                  if is_hex h1 && is_hex h2 && is_hex h3 && is_hex h4
                  then chars rest'' else None
              | _ => None
              end
            else None
        | [] => None
        end
      else if Nat.ltb (code c) 32 then None
      else chars rest
  end.

(** [true], [false], [null] *)
Fixpoint literal (word : list ascii) (s : list ascii) : option (list ascii) :=
  match word, s with
  | [], _ => Some s
  | w :: word', c :: rest => if Ascii.eqb w c then literal word' rest else None
  | _ :: _, [] => None
  end.

Definition letters (word : string) : list ascii := list_ascii_of_string word.

(** [fuel] bounds the nesting and the number of members read. *)
Fixpoint element (fuel : nat) (s : list ascii) : option (list ascii) :=
  match fuel with
  | O => None
  | S fuel' =>
      match s with
      | [] => None
      | c :: rest =>
          if at_code c 123 then
            match skip_ws rest with
            | c' :: rest' => if at_code c' 125 then Some rest' else members fuel' (c' :: rest')
            | [] => None
            end
          else if at_code c 91 then
            match skip_ws rest with
            | c' :: rest' => if at_code c' 93 then Some rest' else elements fuel' (c' :: rest')
            | [] => None
            end
          else if at_code c 34 then chars rest
          else if at_code c 116 then literal (letters "rue") rest
          else if at_code c 102 then literal (letters "alse") rest
          else if at_code c 110 then literal (letters "ull") rest
          else number s
      end
  end

with members (fuel : nat) (s : list ascii) : option (list ascii) :=
  match fuel with
  | O => None
  | S fuel' =>
      match s with
      | c :: rest =>
          if at_code c 34 then
            match chars rest with
            | Some after_key =>
                match skip_ws after_key with
                | colon :: after_colon =>
                    if at_code colon 58 then
                      match element fuel' (skip_ws after_colon) with
                      | Some after_value =>
                          match skip_ws after_value with
                          | d :: rest' =>
                              if at_code d 44 then members fuel' (skip_ws rest')
                              else if at_code d 125 then Some rest'
                              else None
                          | [] => None
                          end
                      | None => None
                      end
                    else None
                | [] => None
                end
            | None => None
            end
          else None
      | [] => None
      end
  end

with elements (fuel : nat) (s : list ascii) : option (list ascii) :=
  match fuel with
  | O => None
  | S fuel' =>
      match element fuel' s with
      | Some after_value =>
          match skip_ws after_value with
          | d :: rest' =>
              if at_code d 44 then elements fuel' (skip_ws rest')
              else if at_code d 93 then Some rest'
              else None
          | [] => None
          end
      | None => None
      end
  end.

(** A text is a JSON document when it is one value between optional
    white space. *)
Definition accepts (fuel : nat) (text : string) : bool :=
  match element fuel (skip_ws (list_ascii_of_string text)) with
  | Some rest => match skip_ws rest with [] => true | _ => false end
  | None => false
  end.

Definition is_document (text : string) : bool :=
  accepts (2 * String.length text + 2) text.

Definition well_formed (text : string) : Prop := exists fuel, accepts fuel text = true.

(** The last character of a text that is not white space. *)
Definition last_visible (s : list ascii) : option ascii :=
  last (filter (fun c => is_ws c = false) s).

(** [rest] is what follows some closing brace of [s]. *)
Definition after_brace (rest s : list ascii) : Prop :=
  exists front c, s = front ++ c :: rest /\ at_code c 125 = true.

End Json.

(* ===================================================================== *)
(** * src/lib/logger/index.js *)
(* ===================================================================== *)

Module Logger.

(** A write stream opened with [flags: 'a']: the file it appends to,
    whether [end] was called, and the error the stream raised, if any
    (the module sets no listener for it). *)
Record stream : Type := {
  target : string;
  ended : bool;
  failed : option value
}.

(** [fileName] and [writer] are [undefined] until [updateWriter] assigns
    them. *)
Record t : Type := {
  logdir : string;
  fileBaseName : string;
  sourcePath : string;
  fileName : option string;
  writer : option stream
}.

Definition with_writer (this : t) (w : stream) : t :=
  {| logdir := logdir this; fileBaseName := fileBaseName this;
     sourcePath := sourcePath this; fileName := fileName this;
     writer := Some w |}.

(** The file system the recorder writes to: the directories, and the
    files by path.  A stream hands its text to the file in later turns of
    the event loop; [files] shows the text at once.  A stream that fails
    drops what it still holds, so for the file of a stream that has
    failed [files] shows what the file holds at most. *)
Record fs : Type := {
  dirs : gset string;
  files : gmap string string
}.

#[global] Instance fs_lookup : Lookup string string fs :=
  fun path disk => files disk !! path.

Definition set_file (path text : string) (disk : fs) : fs :=
  {| dirs := dirs disk; files := <[path := text]> (files disk) |}.

Section Logger.

(** [join] of Node's [path] module. *)
Variable path_join : list string -> string.

Context {host : Json.Host}.

Implicit Types disk : fs.

(** The error of a system call on a path whose directory is no
    directory: a file is in its place, or nothing is. *)
Definition no_directory (path call : string) disk : value :=
  if bool_decide (is_Some (disk !! Json.dirname path))
  then VErr "Error" ("ENOTDIR: not a directory, " +:+ call)
  else VErr "Error" ("ENOENT: no such file or directory, " +:+ call).

(** [mkdirSync(dir)] makes one directory, in a directory that exists. *)
Definition mkdirSync (dir : string) disk : result fs :=
  if bool_decide (dir ∈ dirs disk) || bool_decide (is_Some (disk !! dir))
  then Abrupt (VErr "Error" "EEXIST: file already exists, mkdir")
  else if bool_decide (Json.dirname dir ∈ dirs disk)
  then Normal {| dirs := {[dir]} ∪ dirs disk; files := files disk |}
  else Abrupt (no_directory dir "mkdir" disk).

(** [createWriteStream(path, { flags: 'a' })] returns a stream at once.
    In a directory that exists it creates a missing file and keeps the
    content of an existing one; otherwise the stream raises the error of
    the failed [open]. *)
Definition createWriteStream (path : string) disk : stream * fs :=
  if bool_decide (path ∈ dirs disk)
  then ({| target := path; ended := false;
           failed := Some (VErr "Error" "EISDIR: illegal operation on a directory, open") |},
        disk)
  else if bool_decide (Json.dirname path ∈ dirs disk)
  then ({| target := path; ended := false; failed := None |},
        set_file path (default "" (disk !! path)) disk)
  else ({| target := path; ended := false;
           failed := Some (no_directory path "open" disk) |},
        disk).

(** [w.write(data)]: appended.  A write after [end] is not thrown to the
    caller: the stream raises the error and is destroyed, with the text
    it has not written yet; a stream that has failed takes nothing
    more. *)
Definition write (w : stream) (data : string) disk : stream * fs :=
  match failed w with
  | Some _ => (w, disk)
  | None =>
      if ended w
      then ({| target := target w; ended := true;
               failed := Some (VErr "Error" "write after end") |}, disk)
      else (w, set_file (target w) (default "" (disk !! target w) +:+ data) disk)
  end.

(** [w.end(data)]: a last write, then the end. *)
Definition end_ (w : stream) (data : string) disk : stream * fs :=
  let '(w1, disk1) := write w data disk in
  ({| target := target w1; ended := true; failed := failed w1 |}, disk1).

(** [[
      getFileName () {
        return this.fileBaseName + String(new Date()).split(' ').slice(1, 4).join('_')
      }
    ]]
    [now] is [String(new Date())]. *)
Definition getFileName (this : t) (now : string) : string :=
  fileBaseName this +:+ Str.join "_" (Str.slice 1 4 (Str.split " " now)).

(** [[
      stop (callback = noop) {
        if (this.writer) {
          this.writer.end(']\n')
          callback()
        }
      }
    ]]
    The callback is not modelled. *)
Definition footer : string := "]" +:+ Json.newline.

Definition stop (this : t) disk : t * fs :=
  match writer this with
  | Some w =>
      let '(w', disk') := end_ w footer disk in
      (with_writer this w', disk')
  | None => (this, disk)
  end.

(** The text written when a stream is opened. *)
Definition header (this : t) : string :=
  Str.dq "{'type':'unit','require':'"
    +:+ path_join [sourcePath this; fileBaseName this]
    +:+ Str.dq ",'tests':[".

(** [[
      updateWriter () {
        const fileName = this.getFileName()
        if (fileName !== this.fileName) {
          this.stop()
          this.fileName = fileName
          this.writer = createWriteStream(join(this.logdir, this.fileName), { flags: 'a', encoding: 'utf8' })
          this.writer.write(HEADER)
        }
      }
    ]]
    where HEADER is the template literal of line 49, the text [header]
    spells out with an apostrophe for each double quote of the source. *)
Definition updateWriter (this : t) (now : string) disk : t * fs :=
  let name := getFileName this now in
  if bool_decide (Some name = fileName this) then (this, disk)
  else
    let '(this1, disk1) := stop this disk in
    let '(w, disk2) := createWriteStream (path_join [logdir this1; name]) disk1 in
    let this2 := {| logdir := logdir this1; fileBaseName := fileBaseName this1;
                    sourcePath := sourcePath this1; fileName := Some name;
                    writer := Some w |} in
    let '(w', disk3) := write w (header this2) disk2 in
    (with_writer this2 w', disk3).

(** The stream of [this] is open, on a file that holds the header and
    [body]. *)
Definition open_with (this : t) disk (body : string) : Prop :=
  exists w, writer this = Some w /\ ended w = false /\ failed w = None
    /\ disk !! target w = Some (header this +:+ body).

(** [[
      constructor (logdir, sourcePath = '', fileBaseName = '') {
        this.logdir = logdir
        try {
          mkdirSync(logdir)
        } catch (er) {
          // nothing to do
        }
        this.fileBaseName = fileBaseName
        this.sourcePath = sourcePath
        this.updateWriter()
      }
    ]]
    [None] is an argument that is [undefined]. *)
Definition try_mkdirSync (dir : string) disk : fs :=
  match mkdirSync dir disk with
  | Normal made => made
  | Abrupt _ => disk
  end.

Definition new (logdir : string) (sourcePath fileBaseName : option string)
    (now : string) disk : t * fs :=
  updateWriter {| logdir := logdir; fileBaseName := default "" fileBaseName;
                  sourcePath := default "" sourcePath;
                  fileName := None; writer := None |} now (try_mkdirSync logdir disk).

(** The object [log] prints. *)
Definition record (method construct inInstance inputParams output : value) : value :=
  VObj [("require", inInstance);
        ("request", VObj [("payload", inputParams);
                          ("construct", construct);
                          ("method", method)]);
        ("output", output)].

(** [[
      log (method, construct, inInstance, inputParams, output) {
        this.updateWriter()
        const str = JSON.stringify({ ... }, null, 2)
        this.writer.write(`\n${str}`)
      }
    ]] *)
Definition log (this : t) (method construct inInstance inputParams output : value)
    (now : string) disk : result unit * t * fs :=
  let '(this1, disk1) := updateWriter this now disk in
  match Json.stringify_pretty (record method construct inInstance inputParams output) with
  | Abrupt e => (Abrupt e, this1, disk1)
  | Normal str =>
      let text := Json.newline +:+ default "undefined" str in
      match writer this1 with
      | Some w =>
          let '(w', disk2) := write w text disk1 in
          (Normal (), with_writer this1 w', disk2)
      | None => (Abrupt (TypeError "Cannot read properties of undefined"), this1, disk1)
      end
  end.

End Logger.

(** The instance, as the object other code holds. *)
Definition as_value (this : t) : value :=
  VObj [("logdir", VStr (logdir this));
        ("fileBaseName", VStr (fileBaseName this));
        ("sourcePath", VStr (sourcePath this));
        ("fileName", from_option VStr VUndefined (fileName this));
        ("writer", from_option (fun w => VObj [("path", VStr (target w))]) VUndefined (writer this))].

End Logger.

(* ===================================================================== *)
(** * src/lib/tcgen/index.js *)
(* ===================================================================== *)

Module Tcgen.

Section Host.

Context {host : Json.Host}.

(** ** clonePrimitive *)

(** [[
      static clonePrimitive (input) {
        try {
          return JSON.parse(JSON.stringify(input))
        } catch (e) {
          return null
        }
      }
    ]] *)
Definition clonePrimitive (input : value) : completion :=
  match (try! text := Json.stringify input in Json.parse text) with
  | Normal copy => Normal copy
  | Abrupt _ => Normal VNull
  end.

(** [arr.map(Tcgen.clonePrimitive)] *)
Fixpoint map_clonePrimitive (arr : list value) : result (list value) :=
  match arr with
  | [] => Normal []
  | x :: rest =>
      try! y := clonePrimitive x in
      try! ys := map_clonePrimitive rest in
      Normal (y :: ys)
  end.

(** ** handleFunctionUnderTest *)

(** What the closure [mainCall] holds: the parameters of
    [handleFunctionUnderTest], [isConstructor] with its default applied. *)
Record wrapper : Type := {
  sLogger : value;
  ent : value;
  prop : value;
  isConstructor : value
}.

(** What [mainCall] and its completion closure change: the array
    [applyArgs], one per wrapper and shared by all its calls, and the
    argument lists [sLogger] was called with. *)
Record world : Type := {
  applyArgs : list value;
  logged : list (list value)
}.

Definition push (v : value) (σ : world) : world :=
  {| applyArgs := applyArgs σ ++ [v]; logged := logged σ |}.

(** [[
      static handleFunctionUnderTest (sLogger, ent, prop, isConstructor = false) {
        const applyArgs = [prop, isConstructor, Tcgen.clonePrimitive(ent)]
        return function mainCall (...args) { ... }
      }
    ]] *)
Definition handleFunctionUnderTest (sLogger ent prop isConstructor : value)
    : result (wrapper * world) :=
  let isConstructor := default_param isConstructor (VBool false) in
  try! snapshot := clonePrimitive ent in
  Normal ({| sLogger := sLogger; ent := ent; prop := prop;
             isConstructor := isConstructor |},
          {| applyArgs := [prop; isConstructor; snapshot]; logged := [] |}).

Section MainCall.

(** The functions of the host program: what they do when the executor
    drives them, and how a plain call of one (as a callback, as a logger)
    completes. *)
Variable impl : fid -> Executor.callable.
Variable reply : fid -> list value -> completion.

Variable w : wrapper.

(** [[
      (err, ...data) => {
        if (err) {
          applyArgs.push({ error: Tcgen.clonePrimitive(err) })
        } else {
          applyArgs.push({ output: Tcgen.clonePrimitive(data.length > 1 ? data : data[0]) })
        }
        sLogger.apply(sLogger, applyArgs)
      }
    ]] *)
Definition onDone (args : list value) (σ : world) : completion * world :=
  let err := at_index args 0 in
  let data := slice1 args in
  match (if truthy err
         then try! c := clonePrimitive err in Normal (VObj [("error", c)])
         else try! c := clonePrimitive
                          (if Nat.ltb 1 (length data) then VArr data else at_index data 0) in
              Normal (VObj [("output", c)])) with
  | Abrupt e => (Abrupt e, σ)
  | Normal outcome =>
      let σ1 := push outcome σ in
      match sLogger w with
      | VFun g =>
          (try! _ := reply g (applyArgs σ1) in Normal VUndefined,
           {| applyArgs := applyArgs σ1; logged := logged σ1 ++ [applyArgs σ1] |})
      | _ => (Abrupt (TypeError "sLogger.apply is not a function"), σ1)
      end
  end.

(** A plain call of a function, seen from the executor. *)
Definition extern (f : fid) (args : list value) (σ : world) : completion * world :=
  match f with
  | FOnDone => onDone args σ
  | _ => (reply f args, σ)
  end.

(** The function a plain call ends up in, through [bind]. *)
Fixpoint target_of (f : fid) : fid :=
  match f with
  | FBound target => target_of target
  | _ => f
  end.

(** Whether a value is, or is bound to, the completion closure of
    [mainCall], which no code outside [mainCall] can hold. *)
Definition is_onDone (v : value) : bool :=
  match v with
  | VFun f => match target_of f with FOnDone => true | _ => false end
  | _ => false
  end.

(** [[
      return function mainCall (...args) {
        applyArgs.push(args.map(Tcgen.clonePrimitive))
        const executor = new Executor(ent, prop, (err, ...data) => { ... }, isConstructor)
        executor.execute(...args)
        return executor.returnValue
      }
    ]]
    The result carries the state the executor ends in: its promise and
    the calls it made. *)
Definition mainCall (args : list value) (σ : world)
    : completion * Executor.st (W := world) :=
  match map_clonePrimitive args with
  | Abrupt e => (Abrupt e, Executor.init σ)
  | Normal snapshots =>
      let σ1 := push (VArr snapshots) σ in
      let executor := Executor.new (ent w) (prop w) (VFun FOnDone) (isConstructor w) in
      match Executor.execute extern impl executor args (Executor.init σ1) with
      | (Abrupt e, s, _) => (Abrupt e, s)
      | (Normal _, s, executor') =>
          (Normal (default VUndefined (Executor.returnValue executor')), s)
      end
  end.

End MainCall.

(** ** instrumentClass *)

(** A function object as [instrumentClass] looks at it.
    - [statics]: its own properties, in the order of
      [Object.getOwnPropertyNames], with what a read of each gives;
    - [prototype]: those of the object in its [prototype] property;
      [None] when there is no such object: the function has no
      [prototype], as arrow functions and methods, or, with
      [null_prototype], the property holds [null], which is of type
      object;
    - [statics_getter], [prototype_getter]: what the first own accessor
      whose getter throws throws, when the object has one (a getter that
      works on the state of an instance, read on the prototype);
    - [statics_read_only], [prototype_read_only]: the own properties an
      assignment throws on, the code being strict: data properties that
      are not writable and accessors without a setter.
    An accessor that has a setter is taken as the data property its
    getter shows. *)
Record func : Type := {
  statics : list (string * value);
  prototype : option (list (string * value));
  null_prototype : bool;
  statics_getter : option value;
  prototype_getter : option value;
  statics_read_only : list string;
  prototype_read_only : list string
}.

Inductive loaded : Type :=
| NotFunction (v : value)
| Function (f : func).

(** A property after instrumentation: left alone, or replaced by the
    [mainCall] of a wrapper. *)
Inductive member : Type :=
| Plain (v : value)
| Intercepted (w : wrapper) (σ : world).

Record instrumented : Type := {
  new_statics : list (string * member);
  new_prototype : list (string * member)
}.

Definition ignoredStaticMethods : list string := ["length"; "prototype"; "name"].

(** [f.bind(receiver)] on something that passed [typeof f === 'function'] *)
Definition bound (v : value) : value :=
  match v with
  | VFun f => VFun (FBound f)
  | _ => v
  end.

(** [typeof obj[p]] for every own property name [p], in the [filter]
    before each [forEach]: the reads run the getters. *)
Definition read_all (getter : option value) : result unit :=
  match getter with
  | Some e => Abrupt e
  | None => Normal ()
  end.

(** [obj[prop] = wrapper] *)
Definition assign (read_only : list string) (prop : string) : result unit :=
  if bool_decide (prop ∈ read_only)
  then Abrupt (TypeError "Cannot assign to read only property")
  else Normal ().

(** One step of the [forEach] over the static members, lines 163 to 167 *)
Definition instrument_static (sLogger : value) (read_only : list string)
    (m : string * value) : result (string * member) :=
  let '(prop, v) := m in
  if String.eqb (typeof v) "function" && negb (bool_decide (prop ∈ ignoredStaticMethods))
  then try! r := handleFunctionUnderTest sLogger (bound v) VUndefined VUndefined in
       try! _ := assign read_only prop in
       Normal (prop, Intercepted r.1 r.2)
  else Normal (prop, Plain v).

(** One step of the [forEach] over the members of the prototype, lines
    168 to 173: the call has three arguments. *)
Definition instrument_method (sLogger : value) (read_only : list string)
    (m : string * value) : result (string * member) :=
  let '(prop, v) := m in
  if String.eqb (typeof v) "function"
  then try! r := handleFunctionUnderTest sLogger (bound v)
                   (VBool (String.eqb prop "constructor")) VUndefined in
       try! _ := assign read_only prop in
       Normal (prop, Intercepted r.1 r.2)
  else Normal (prop, Plain v).

Fixpoint for_each {A B : Type} (f : A -> result B) (l : list A) : result (list B) :=
  match l with
  | [] => Normal []
  | x :: rest =>
      try! y := f x in
      try! ys := for_each f rest in
      Normal (y :: ys)
  end.

(** ** The constructor and walkSync *)

(** What is at a path: a file, a directory with its entries in the order
    of [readdirSync], a directory [readdirSync] throws on (one that may
    not be read), or a name [statSync] throws on (a link to nothing, a
    link that leads back to where it is).  [statSync] follows links: a
    link to a file or to a directory is that file or directory, and a
    link to a directory above is a tree that repeats itself down to the
    name [statSync] gives up on. *)
#[warnings="-register-all"]
Inductive node : Type :=
| File
| Dir (entries : list (string * node))
| Unreadable (e : value)
| Dangling (e : value).

Inductive fs_op : Type :=
| Mkdirp (path : value)
| Readdir (path : string).

Record t : Type := {
  mainModuleCodeUpper : string;
  srcdir : string;
  destdir : value;
  filelist : list string
}.

(** [obj.key] *)
Definition get (obj : value) (key : string) : completion :=
  match obj with
  | VUndefined | VNull => Abrupt (TypeError "Cannot read properties of undefined or null")
  | VObj props => Normal (default VUndefined (snd <$> List.find (fun p => String.eqb (fst p) key) props))
  | _ => Normal VUndefined
  end.

(** [assert.strictEqual(typeof v, type, message)] *)
Definition AssertionError (message : string) : value := VErr "AssertionError" message.

Definition assert_typeof (v : value) (type message : string) : result unit :=
  if String.eqb (typeof v) type then Normal () else Abrupt (AssertionError message).

Definition upper (c : ascii) : ascii :=
  let n := nat_of_ascii c in
  if Nat.leb 97 n && Nat.leb n 122 then ascii_of_nat (n - 32) else c.

(** [s.toUpperCase()], on the letters a to z *)
Fixpoint toUpperCase (s : string) : string :=
  match s with
  | EmptyString => EmptyString
  | String c rest => String (upper c) (toUpperCase rest)
  end.

Section Environment.

(** Node's [path.join] and [path.sep], [os.tmpdir()], the [name] of
    package.json, the directory tree at a path, and the error
    [mkdirpSync] throws for a path, if any. *)
Variable path_join : list string -> string.
Variable sep : string.
Variable tmpdir : string.
Variable MODULE_CODE : string.
Variable disk : string -> option node.
Variable mkdirp_error : value -> option value.

(** [join(...segments)] throws when a segment is not a string. *)
Fixpoint strings_of (segments : list value) : option (list string) :=
  match segments with
  | [] => Some []
  | VStr s :: rest => cons s <$> strings_of rest
  | _ :: _ => None
  end.

Definition join (segments : list value) : completion :=
  match strings_of segments with
  | Some l => Normal (VStr (path_join l))
  | None => Abrupt (TypeError "The path argument must be of type string")
  end.

(** [[
      static walkSync (dir, ext = '.js', filelist = []) {
        const files = readdirSync(dir)
        let fls = filelist
        files.forEach((file) => {
          if (file !== '.') {
            if (statSync(join(dir, file)).isDirectory()) {
              fls = this.walkSync(join(dir, file), ext, fls)
            } else if (file.endsWith(ext)) {
              fls.push(join(dir, file))
            }
          }
        })
        return fls
      }
    ]]
    on a directory whose tree is [tree]; [each] is the [forEach].  What
    [readdirSync] and [statSync] throw is not caught. *)
Definition ENOTDIR : value := VErr "Error" "ENOTDIR: not a directory, scandir".
Definition ENOENT : value := VErr "Error" "ENOENT: no such file or directory, scandir".

Fixpoint walk (dir : string) (tree : node) (ext : string) (filelist : list string)
    {struct tree} : result (list string) :=
  match tree with
  | File => Abrupt ENOTDIR
  | Unreadable e | Dangling e => Abrupt e
  | Dir entries =>
      (fix each (files : list (string * node)) (fls : list string)
           : result (list string) :=
         match files with
         | [] => Normal fls
         | (file, child) :: rest =>
             try! fls' :=
               (if String.eqb file "." then Normal fls
                else match child with
                     | Dangling e => Abrupt e
                     | File =>
                         Normal (if Str.endsWith file ext
                                 then fls ++ [path_join [dir; file]]
                                 else fls)
                     | _ => walk (path_join [dir; file]) child ext fls
                     end) in
             each rest fls'
         end) entries filelist
  end.

(** [Tcgen.walkSync(dir)] *)
Definition walkSync (dir : string) : result (list string) :=
  match disk dir with
  | Some tree => walk dir tree ".js" []
  | None => Abrupt ENOENT
  end.

(** [arr[0]] *)
Definition first (arr : list string) : value := from_option VStr VUndefined (head arr).

(** [[
      constructor (config) {
        assert.strictEqual(typeof config, 'object', 'config MUST_BE_OBJECT')
        assert.strictEqual(typeof config.srcdir, 'string', 'srcdir MUST_BE_STRING')
        this.mainModuleCodeUpper = MODULE_CODE_UPPER
        this.srcdir = config.srcdir
        this.destdir = config.destdir || join(tmpdir(), MODULE_CODE, this.srcdir.split(sep).slice(-3, -1)[0])
        assert.strictEqual(typeof this.srcdir, 'string', 'destdir MUST_BE_STRING')
        mkdirpSync(this.destdir)
        this.throwError = Mbjs.prototype.throwError.bind(this)
        this.filelist = Tcgen.walkSync(this.srcdir)
      }
    ]]
    with the operations on the file system it got to, in order.  The
    member [throwError] is left out. *)
Definition new (config : value) : result t * list fs_op :=
  match (try! _ := assert_typeof config "object" "config MUST_BE_OBJECT" in
         try! src := get config "srcdir" in
         try! _ := assert_typeof src "string" "srcdir MUST_BE_STRING" in
         match src with
         | VStr srcdir =>
             try! given := get config "destdir" in
             try! destdir :=
               (if truthy given then Normal given
                else join [VStr tmpdir; VStr MODULE_CODE;
                           first (Str.slice (-3) (-1) (Str.split sep srcdir))]) in
             try! _ := assert_typeof src "string" "destdir MUST_BE_STRING" in
             Normal (srcdir, destdir)
         | _ => Abrupt (AssertionError "srcdir MUST_BE_STRING")
         end) with
  | Abrupt e => (Abrupt e, [])
  | Normal (srcdir, destdir) =>
      match mkdirp_error destdir with
      | Some e => (Abrupt e, [Mkdirp destdir])
      | None =>
          (try! files := walkSync srcdir in
           Normal {| mainModuleCodeUpper := toUpperCase MODULE_CODE;
                     srcdir := srcdir; destdir := destdir; filelist := files |},
           [Mkdirp destdir; Readdir srcdir])
      end
  end.

(** [[
      instrumentClass (filePath, cls) {
        if (typeof cls !== 'function' || !cls || typeof cls.prototype !== 'object') return
        const srcPath = filePath.split(this.srcdir).pop().split(sep)
        const sLogger = new Logger(
          join(this.destdir, ...srcPath),
          srcPath.join(sep), filePath.split(sep).splice(-2, -1)[0]
        )
        Object.getOwnPropertyNames(cls).filter(...).forEach(...)
        Object.getOwnPropertyNames(cls.prototype).filter(...).forEach(...)
      }
    ]]
    [None]: the early [return].  The recorder is made on [files] at the
    date [now].  The members replaced before a throw stay replaced; the
    result does not show them. *)
Definition instrumentClass (this : t) (filePath : string) (cls : loaded)
    (now : string) (files : Logger.fs)
    : result (option (instrumented * Logger.t)) * Logger.fs :=
  match cls with
  | NotFunction _ => (Normal None, files)
  | Function f =>
      if negb (bool_decide (is_Some (prototype f)) || null_prototype f)
      then (Normal None, files)
      else
        let srcPath := Str.split sep (List.last (Str.split (srcdir this) filePath) "") in
        match join (destdir this :: map VStr srcPath) with
        | Abrupt e => (Abrupt e, files)
        | Normal dir =>
            let base := match first (Str.splice_removed (-2) (-1) (Str.split sep filePath)) with
                        | VStr s => Some s
                        | _ => None
                        end in
            let '(logger, files1) :=
              Logger.new path_join (match dir with VStr d => d | _ => "" end)
                         (Some (Str.join sep srcPath)) base now files in
            let sLogger := Logger.as_value logger in
            (try! _ := read_all (statics_getter f) in
             try! ss := for_each (instrument_static sLogger (statics_read_only f))
                                 (statics f) in
             match prototype f with
             | None => Abrupt (TypeError "Cannot convert undefined or null to object")
             | Some proto =>
                 try! _ := read_all (prototype_getter f) in
                 try! ms := for_each (instrument_method sLogger (prototype_read_only f))
                                     proto in
                 Normal (Some ({| new_statics := ss; new_prototype := ms |}, logger))
             end,
             files1)
        end
  end.

End Environment.

End Host.

End Tcgen.

(* ===================================================================== *)
(** * Sample programs *)
(* ===================================================================== *)

Module Cases.
Import Executor.

(** A world without state, in which every plain call returns
    [undefined]. *)
Definition silent (f : fid) (args : list value) (w : unit) : completion * unit :=
  (Normal VUndefined, w).

(** The same, except that function 1 throws. *)
Definition failure : value := VErr "Error" "handler failed".

Definition handler_throws (f : fid) (args : list value) (w : unit) : completion * unit :=
  match f with
  | FUser 1 => (Abrupt failure, w)
  | _ => (Normal VUndefined, w)
  end.

Definition returns_nothing (args : list value) : behaviour := Return VUndefined.

(** [function add (a, b) { return a + b }], on numbers *)
Definition add : callable :=
  {| on_call := fun args =>
       match args with
       | [VNum a; VNum b] => Return (VNum (a + b))
       | _ => Return VNaN
       end;
     on_new := None;
     later := returns_nothing |}.

(** [function Point () {}]: a constructor *)
Definition Point : callable :=
  {| on_call := returns_nothing;
     on_new := Some (fun _ => Return (VObj []));
     later := returns_nothing |}.

(** [function each (fn) { fn(null, 1); fn(null, 2) }] *)
Definition each : callable :=
  {| on_call := fun _ =>
       CallBack [VNull; VNum 1] (fun _ => CallBack [VNull; VNum 2] (fun _ => Return VUndefined));
     on_new := None;
     later := returns_nothing |}.

(** [function idle (fn) {}] *)
Definition idle : callable :=
  {| on_call := returns_nothing; on_new := None; later := returns_nothing |}.



(** An executor made the way the constructor documents it: the method,
    the output handler (function 1), no construction, [isAsync] left
    out. *)
Definition normalizer : Executor.t :=
  Executor.new (VFun (FUser 0)) (VFun (FUser 1)) VUndefined VUndefined.

(** An executor that constructs and has [isAsync] set. *)
Definition constructing : Executor.t :=
  Executor.new (VFun (FUser 0)) VUndefined (VBool true) (VBool true).

(** Plain calls of host functions that return [undefined]. *)
Definition replies (f : fid) (args : list value) : completion := Normal VUndefined.

(** [path.join] and [path.dirname] on POSIX paths without [.] and [..]
    segments; [path.sep] is the slash. *)
Definition posix_join (segments : list string) : string :=
  Str.join "/" (filter (fun segment => segment <> "") segments).

Definition posix_dirname (path : string) : string :=
  match removelast (Str.split "/" path) with
  | [] => "."
  | [""] => "/"
  | front => Str.join "/" front
  end.

(** The host of the samples: function 7 is the [toJSON] of a date,
    function 8 a [toJSON] that throws, every number is a safe integer,
    and the paths are POSIX paths. *)
#[local] Instance host : Json.Host :=
  {| Json.toJSON := fun f holder key =>
       match f with
       | FUser 7 => Json.Text (Json.JStr "2026-11-02T12:10:00.000Z")
       | FUser 8 => Json.Fails (VErr "Error" "no text")
       | _ => Json.Nothing
       end;
     Json.number_text := fun n => "";
     Json.dirname := posix_dirname |}.

Definition monday : string := "Mon Nov 02 2026 12:10:00 GMT+0000 (Coordinated Universal Time)".
Definition tuesday : string := "Tue Nov 03 2026 00:10:00 GMT+0000 (Coordinated Universal Time)".

(** [[
      class Calc {
        constructor () {}
        add (a, b) { return a + b }
        static make () { return new Calc() }
      }
      Calc.prototype.version = 3
    ]]
    with [make] as function 0, the class as function 1 and [add] as
    function 2. *)
Definition Calc : Tcgen.func :=
  {| Tcgen.statics := [("length", VNum 0); ("name", VStr "Calc");
                       ("prototype", VObj []); ("make", VFun (FUser 0))];
     Tcgen.prototype := Some [("constructor", VFun (FUser 1)); ("add", VFun (FUser 2));
                              ("version", VNum 3)];
     Tcgen.null_prototype := false;
     Tcgen.statics_getter := None;
     Tcgen.prototype_getter := None;
     Tcgen.statics_read_only := ["length"; "name"; "prototype"];
     Tcgen.prototype_read_only := [] |}.

Definition calc_impl (f : fid) : callable :=
  match f with
  | FUser 2 => add
  | FUser 1 => Point
  | _ => idle
  end.

Definition project : Tcgen.t :=
  {| Tcgen.mainModuleCodeUpper := "TCGEN";
     Tcgen.srcdir := "/home/u/proj/src";
     Tcgen.destdir := VStr "/tmp/tcgen/u";
     Tcgen.filelist := ["/home/u/proj/src/calc.js"] |}.

(** The wrapper [instrumentClass] puts in place of [add], with a logger
    function in place of the recorder. *)
Definition add_wrapper : Tcgen.wrapper :=
  {| Tcgen.sLogger := VFun (FUser 9);
     Tcgen.ent := VFun (FBound (FUser 2));
     Tcgen.prop := VBool false;
     Tcgen.isConstructor := VBool false |}.

Definition add_world : Tcgen.world :=
  {| Tcgen.applyArgs := [VBool false; VBool false; VNull]; Tcgen.logged := [] |}.


(** A source tree and the file system around it. *)
Definition tree : Tcgen.node :=
  Tcgen.Dir [("a.js", Tcgen.File);
             ("lib", Tcgen.Dir [("b.js", Tcgen.File); ("c.txt", Tcgen.File)])].

Definition disk_at (root : string) (path : string) : option Tcgen.node :=
  if String.eqb path root then Some tree else None.

Definition mkdirp_succeeds (path : value) : option value := None.

(** The file system of the samples: the working directory and the
    directory the constructor of [Tcgen] makes, no files. *)
Definition home : Logger.fs :=
  {| Logger.dirs := {["."; "/tmp/tcgen/u"]}; Logger.files := ∅ |}.

(** A recorder for [lib/calc], made on a Monday in the working
    directory. *)
Definition calc_recorder : Logger.t * Logger.fs :=
  Logger.new posix_join "out" (Some "lib") (Some "calc") monday home.

(** [add(2, 3)] recorded on the Monday, [add(4, 5)] on the Tuesday, then
    [stop]: the files at the end. *)
Definition two_days : Logger.fs :=
  let '(_, logger1, disk1) :=
    Logger.log posix_join calc_recorder.1 (VStr "add") (VBool false) VNull
               (VArr [VNum 2; VNum 3]) (VObj [("output", VNum 5)]) monday calc_recorder.2 in
  let '(_, logger2, disk2) :=
    Logger.log posix_join logger1 (VStr "add") (VBool false) VNull
               (VArr [VNum 4; VNum 5]) (VObj [("output", VNum 9)]) tuesday disk1 in
  (Logger.stop logger2 disk2).2.

(** [Calc] after [instrumentClass]. *)
Definition calc_instrumented
    : result (option (Tcgen.instrumented * Logger.t)) * Logger.fs :=
  Tcgen.instrumentClass posix_join "/" project "/home/u/proj/src/calc.js"
                        (Tcgen.Function Calc) monday home.

Definition new_Calc : Tcgen.instrumented :=
  match calc_instrumented.1 with
  | Normal (Some (unit, _)) => unit
  | _ => {| Tcgen.new_statics := []; Tcgen.new_prototype := [] |}
  end.

Definition Calc_recorder : Logger.t :=
  match calc_instrumented.1 with
  | Normal (Some (_, logger)) => logger
  | _ => calc_recorder.1
  end.

(** The flag a member of the instrumented prototype was wrapped with. *)
Definition flag_of (name : string) (unit : Tcgen.instrumented) : option value :=
  match List.find (fun m => String.eqb m.1 name) (Tcgen.new_prototype unit) with
  | Some (_, Tcgen.Intercepted w _) => Some (Tcgen.isConstructor w)
  | _ => None
  end.

End Cases.

(* ===================================================================== *)
(** * Further definitions: the code around the claims *)
(* ===================================================================== *)

Module Further.

(** ** src/lib/executor/index.js *)

Section Handlers.

Context {W : Type}.
Variable extern : fid -> list value -> W -> completion * W.

(** An output handler that throws [e] whatever it is called with. *)
Definition throws_always (h : fid) (e : value) : Prop :=
  forall args (s : Executor.st (W := W)),
    exists s', Executor.apply_plain extern h args s = (Abrupt e, s').

End Handlers.

(** What the call [this.outputHandler(...)] throws when the handler is not
    a function. *)
Definition not_callable : value :=
  TypeError "this.outputHandler is not a function".

(** A state whose promise a callback has settled already. *)
Definition settled : Executor.st (W := unit) :=
  {| Executor.world := (); Executor.prm := Some (Fulfilled (VNum 1)); Executor.trace := [] |}.

(** An executor whose output handler is [null]: the default applies to
    [undefined] only. *)
Definition unhandled : Executor.t :=
  Executor.new (VFun (FUser 0)) VNull VUndefined VUndefined.

(** An executor given the name of a method, as the doc comment of the
    constructor has it. *)
Definition by_name : Executor.t :=
  Executor.new (VStr "add") (VFun (FUser 1)) VUndefined VUndefined.

(** ** src/lib/logger/index.js *)

Section Recorder.

Variable path_join : list string -> string.

(** The stream of a recorder is the one of its file name:
    [join(this.logdir, this.fileName)], once a file name is set. *)
Definition wired (this : Logger.t) : bool :=
  match Logger.fileName this, Logger.writer this with
  | Some name, Some w =>
      String.eqb (Logger.target w) (path_join [Logger.logdir this; name])
  | Some _, None => false
  | None, _ => true
  end.

End Recorder.

(** Every file of [before] is in [after], with text added at its end, if
    any. *)
Definition appended (before after : Logger.fs) : Prop :=
  forall path old, before !! path = Some old ->
    exists extra, after !! path = Some (old +:+ extra).

(** A word of [String(new Date())]: no space in it. *)
Definition word (s : string) : bool :=
  forallb (fun c => negb (Ascii.eqb c " ")) (list_ascii_of_string s).

(** ** src/lib/tcgen/index.js *)

(** [below path_join ext dir tree p]: [p] is the path of a file below the
    directory [dir], whose tree is [tree]: the name of the file ends with
    [ext], and [p] is made with [join] from [dir], the names of the
    directories on the way down and the name of the file, none of which
    is the name [.] *)
Inductive below (path_join : list string -> string) (ext : string)
    : string -> Tcgen.node -> string -> Prop :=
| below_file dir entries file :
    (file, Tcgen.File) ∈ entries -> file <> "." -> Str.endsWith file ext = true ->
    below path_join ext dir (Tcgen.Dir entries) (path_join [dir; file])
| below_dir dir entries file sub p :
    (file, Tcgen.Dir sub) ∈ entries -> file <> "." ->
    below path_join ext (path_join [dir; file]) (Tcgen.Dir sub) p ->
    below path_join ext dir (Tcgen.Dir entries) p.

(** What one entry of a directory adds to the list of [walkSync]: the
    body of the function given to [forEach]. *)
Definition step (path_join : list string -> string) (dir ext : string)
    (file : string) (child : Tcgen.node) (fls : list string) : result (list string) :=
  if String.eqb file "." then Normal fls
  else match child with
       | Tcgen.Dangling e => Abrupt e
       | Tcgen.File =>
           Normal (if Str.endsWith file ext then fls ++ [path_join [dir; file]] else fls)
       | _ => Tcgen.walk path_join (path_join [dir; file]) child ext fls
       end.

(** A directory [walkSync] gets through: below it, leaving out what is
    reached through an entry named [.], every directory can be read and
    every name can be looked at. *)
Fixpoint readable (tree : Tcgen.node) : bool :=
  match tree with
  | Tcgen.Dir entries =>
      (fix all (files : list (string * Tcgen.node)) : bool :=
         match files with
         | [] => true
         | (file, child) :: rest =>
             (String.eqb file "."
              || match child with
                 | Tcgen.File => true
                 | Tcgen.Dangling _ => false
                 | _ => readable child
                 end)
             && all rest
         end) entries
  | _ => false
  end.

(** A value [JSON.stringify] does not throw on, found under [key]; at
    the top the key is the empty string. *)
Definition printable_as `{Json.Host} (key : string) (v : value) : bool :=
  match Json.serialize key v with
  | Json.Fails _ => false
  | _ => true
  end.

Definition printable `{Json.Host} (v : value) : bool := printable_as "" v.

(** The members [instrumentClass] assigns to: among the static members,
    the functions not named in [ignoredStaticMethods]; among those of the
    prototype, the functions. *)
Definition replaced_static (m : string * value) : bool :=
  String.eqb (typeof m.2) "function"
  && negb (bool_decide (m.1 ∈ Tcgen.ignoredStaticMethods)).

Definition replaced_method (m : string * value) : bool :=
  String.eqb (typeof m.2) "function".

(** None of the members assigned to is read-only. *)
Definition writable (read_only : list string) (replaced : string * value -> bool)
    (members : list (string * value)) : bool :=
  forallb (fun m => negb (replaced m && bool_decide (m.1 ∈ read_only))) members.

(** A function with the prototype [proto] that [instrumentClass] gets
    through: no getter throws, and no member it assigns to is read-only. *)
Definition instrumentable (f : Tcgen.func) (proto : list (string * value)) : bool :=
  match Tcgen.statics_getter f, Tcgen.prototype_getter f with
  | None, None =>
      writable (Tcgen.statics_read_only f) replaced_static (Tcgen.statics f)
      && writable (Tcgen.prototype_read_only f) replaced_method proto
  | _, _ => false
  end.

Section Config.

(** The [name] of the package.json of this package, which is not the
    name of a property objects inherit; and
    [require(resolve(dir, '..', 'package.json'))], the value of the file
    package.json beside [dir] or what [require] throws. *)
Variable MODULE_CODE : string.
Variable require_package : string -> completion.

(** [[
      static getConfigFromPkg (pkgVal) {
        assert.ok(['object', 'string'].includes(typeof pkgVal), 'name MUST_BE_OBJECT_OR_STRING')
        let pkg = pkgVal
        if (typeof pkg === 'string') {
          pkg = require(resolve(pkg, '..', 'package.json'))
        }
        return (pkg.config || {})[MODULE_CODE] || {}
      }
    ]] *)
Definition getConfigFromPkg (pkgVal : value) : completion :=
  if bool_decide (typeof pkgVal ∈ ["object"; "string"]) then
    try! pkg := match pkgVal with
                | VStr dir => require_package dir
                | _ => Normal pkgVal
                end in
    try! config := Tcgen.get pkg "config" in
    try! entry := Tcgen.get (if truthy config then config else VObj []) MODULE_CODE in
    Normal (if truthy entry then entry else VObj [])
  else Abrupt (Tcgen.AssertionError "name MUST_BE_OBJECT_OR_STRING").

End Config.

(** ** Sample programs *)

(** A source tree with a link to nothing in a directory below the
    root. *)
Definition broken_tree : Tcgen.node :=
  Tcgen.Dir [("a.js", Tcgen.File);
             ("lib", Tcgen.Dir [("gone.js", Tcgen.Dangling
                                   (VErr "Error" "ENOENT: no such file or directory, stat"));
                                ("b.js", Tcgen.File)])].

(** [class Shape { get sides () { return this.edges.length } }]: the
    getter is read on the prototype, where [this.edges] is [undefined]. *)
Definition Shape : Tcgen.func :=
  {| Tcgen.statics := [("length", VNum 0); ("name", VStr "Shape"); ("prototype", VObj [])];
     Tcgen.prototype := Some [("constructor", VFun (FUser 1))];
     Tcgen.null_prototype := false;
     Tcgen.statics_getter := None;
     Tcgen.prototype_getter :=
       Some (TypeError "Cannot read properties of undefined (reading 'length')");
     Tcgen.statics_read_only := ["length"; "name"; "prototype"];
     Tcgen.prototype_read_only := ["sides"] |}.

(** [Calc] with its prototype frozen. *)
Definition Frozen : Tcgen.func :=
  {| Tcgen.statics := Tcgen.statics Cases.Calc;
     Tcgen.prototype := Tcgen.prototype Cases.Calc;
     Tcgen.null_prototype := false;
     Tcgen.statics_getter := None;
     Tcgen.prototype_getter := None;
     Tcgen.statics_read_only := ["length"; "name"; "prototype"];
     Tcgen.prototype_read_only := ["constructor"; "add"; "version"] |}.

(** [function Bare () {}] after [Bare.prototype = null]. *)
Definition Bare : Tcgen.func :=
  {| Tcgen.statics := [("length", VNum 0); ("name", VStr "Bare"); ("prototype", VNull)];
     Tcgen.prototype := None;
     Tcgen.null_prototype := true;
     Tcgen.statics_getter := None;
     Tcgen.prototype_getter := None;
     Tcgen.statics_read_only := ["length"; "name"];
     Tcgen.prototype_read_only := [] |}.

(** [Calc] with another body for [add]: [add (a, b) { return a - b }] *)
Definition sub : Executor.callable :=
  {| Executor.on_call := fun args =>
       match args with
       | [VNum a; VNum b] => Executor.Return (VNum (a - b))
       | _ => Executor.Return VNaN
       end;
     Executor.on_new := None;
     Executor.later := Cases.returns_nothing |}.

Definition calc_impl' (f : fid) : Executor.callable :=
  match f with
  | FUser 2 => sub
  | FUser 1 => Cases.Point
  | _ => Cases.idle
  end.

(** The wrapper [instrumentClass] puts in place of [Calc.prototype.add],
    with its [applyArgs]. *)
Definition Calc_add : Tcgen.wrapper * Tcgen.world :=
  match Tcgen.new_prototype Cases.new_Calc !! 1 with
  | Some (_, Tcgen.Intercepted w σ) => (w, σ)
  | _ => (Cases.add_wrapper, Cases.add_world)
  end.

End Further.

(* ===================================================================== *)
(** * Facts about the executor *)
(* ===================================================================== *)

Module ExecutorFacts.
Import Executor.

Section Facts.

Context {W : Type}.
Variable extern : fid -> list value -> W -> completion * W.
Variable impl : fid -> callable.

Local Abbreviation state := (st (W := W)).
Local Abbreviation apply_plain := (apply_plain extern).
Local Abbreviation call_value := (call_value extern).
Local Abbreviation fire := (fire extern).
Local Abbreviation resolving := (resolving extern).
Local Abbreviation rejecting := (rejecting extern).
Local Abbreviation cb := (cb extern).
Local Abbreviation run := (run extern).
Local Abbreviation call_last := (call_last extern).
Local Abbreviation try_block := (try_block extern impl).
Local Abbreviation executor_fn := (executor_fn extern impl).
Local Abbreviation react := (react extern).
Local Abbreviation run_later := (run_later extern impl).
Local Abbreviation execute := (execute extern impl).
Local Abbreviation quiet := (quiet extern).

(** ** Plain calls leave the promise and the trace alone *)

Lemma apply_plain_keeps f args (s : state) :
  prm (apply_plain f args s).2 = prm s /\ trace (apply_plain f args s).2 = trace s.
Proof.
  revert s; induction f as [n| |target IH|prev _|]; intros s; simpl; auto;
    destruct (extern _ args (world s)); auto.
Qed.

Lemma call_value_keeps f args (s : state) :
  prm (call_value f args s).2 = prm s /\ trace (call_value f args s).2 = trace s.
Proof. destruct f; simpl; auto using apply_plain_keeps. Qed.

Lemma fired_emit_Fired a (s : state) : fired (emit (Fired a) s) = fired s ++ [a].
Proof. unfold fired, emit; simpl. by rewrite omap_app. Qed.

Lemma fired_emit_Forwarded a (s : state) : fired (emit (Forwarded a) s) = fired s.
Proof. unfold fired, emit; simpl. rewrite omap_app; simpl. apply app_nil_r. Qed.

Lemma forwarded_emit_Fired a (s : state) : forwarded (emit (Fired a) s) = forwarded s.
Proof. unfold forwarded, emit; simpl. rewrite omap_app; simpl. apply app_nil_r. Qed.

Lemma forwarded_emit_Forwarded a (s : state) :
  forwarded (emit (Forwarded a) s) = forwarded s ++ [a].
Proof. unfold forwarded, emit; simpl. by rewrite omap_app. Qed.



(** ** The output handler, when it is a function *)

Section Handler.

Variable this : t.
Variable h : fid.
Hypothesis handler : outputHandler this = VFun h.

(** A call of the handler is one more [Fired] event, whatever the call
    does. *)
Lemma fire_spec args (s : state) :
  exists c s', fire this args s = (c, s')
    /\ trace s' = trace s ++ [Fired args] /\ prm s' = prm s.
Proof.
  unfold Executor.fire. rewrite handler.
  destruct (apply_plain_keeps h args (emit (Fired args) s)) as [Hp Ht].
  destruct (apply_plain h args (emit (Fired args) s)) as [c s'] eqn:E.
  exists c, s'. simpl in *. auto.
Qed.

Lemma fire_quiet args (s : state) :
  quiet h ->
  exists v s', fire this args s = (Normal v, s')
    /\ trace s' = trace s ++ [Fired args] /\ prm s' = prm s.
Proof.
  intros Hq. unfold Executor.fire. rewrite handler.
  destruct (Hq args (emit (Fired args) s)) as (v & s' & E).
  destruct (apply_plain_keeps h args (emit (Fired args) s)) as [Hp Ht].
  rewrite E in Hp, Ht. exists v, s'. auto.
Qed.

Lemma resolve_trace x (s : state) : trace (resolve x s) = trace s.
Proof. unfold resolve. by destruct (prm s). Qed.

Lemma reject_trace e (s : state) : trace (reject e s) = trace s.
Proof. unfold reject. by destruct (prm s). Qed.

Lemma resolving_spec args (s : state) :
  exists c s', resolving this args s = (c, s') /\ trace s' = trace s ++ [Fired (VNull :: args)].
Proof.
  unfold Executor.resolving.
  destruct (fire_spec (VNull :: args) s) as (c & s1 & -> & Ht & Hp).
  destruct c; eauto. eexists _, _; split; [done|]. by rewrite resolve_trace.
Qed.


Lemma resolving_quiet args (s : state) :
  quiet h ->
  exists s', resolving this args s = (Normal VUndefined, s')
    /\ trace s' = trace s ++ [Fired (VNull :: args)]
    /\ prm s' = prm (resolve (at_index args 0) s).
Proof.
  intros Hq. unfold Executor.resolving.
  destruct (fire_quiet (VNull :: args) s Hq) as (v & s1 & -> & Ht & Hp).
  exists (resolve (at_index args 0) s1). split; [reflexivity|].
  rewrite resolve_trace. split; [exact Ht|].
  unfold resolve. rewrite Hp. destruct (prm s) eqn:E; simpl; congruence.
Qed.

Lemma rejecting_quiet er (s : state) :
  quiet h ->
  exists s', rejecting this er s = (Normal VUndefined, s')
    /\ trace s' = trace s ++ [Fired [er]]
    /\ prm s' = prm (reject er s).
Proof.
  intros Hq. unfold Executor.rejecting.
  destruct (fire_quiet [er] s Hq) as (v & s1 & -> & Ht & Hp).
  exists (reject er s1). split; [reflexivity|].
  rewrite reject_trace. split; [exact Ht|].
  unfold reject. rewrite Hp. destruct (prm s) eqn:E; simpl; congruence.
Qed.

(** The wrapping callback, with a handler that returns: the handler is
    called, then the original callback, whose completion is the
    callback's. *)
Lemma cb_quiet prevCb args (s : state) :
  quiet h ->
  exists s1,
    cb this prevCb args s = apply_plain prevCb args (emit (Forwarded args) s1)
    /\ trace s1 = trace s ++ [Fired (if truthy (at_index args 0)
                                     then [at_index args 0]
                                     else VNull :: slice1 args)]
    /\ prm s1 = prm (if truthy (at_index args 0)
                     then reject (at_index args 0) s
                     else resolve (at_index (slice1 args) 0) s).
Proof.
  intros Hq. unfold Executor.cb. destruct (truthy (at_index args 0)).
  - destruct (rejecting_quiet (at_index args 0) s Hq) as (s1 & -> & Ht & Hp). eauto.
  - destruct (resolving_quiet (slice1 args) s Hq) as (s1 & -> & Ht & Hp). eauto.
Qed.

End Handler.

(** ** Running the driven function *)

(** Without a wrapping callback the run leaves the promise and the trace
    alone. *)
Lemma run_plain_keeps this original b (s : state) :
  prm (run this None original b s).2 = prm s
  /\ trace (run this None original b s).2 = trace s.
Proof.
  revert s; induction b as [v|e|args k IH]; intros s; simpl; auto.
  destruct (call_value_keeps original args s) as [Hp Ht].
  destruct (call_value original args s) as [c s1]; simpl in *.
  destruct (IH c s1) as [Hp' Ht']. split; congruence.
Qed.


(** The state after the [try] block. *)
Lemma try_block_plain this payload (s : state) :
  returnWithCB this payload = None ->
  prm (try_block this payload s).1.2 = prm s
  /\ trace (try_block this payload s).1.2 = trace s.
Proof.
  intros Hcs. unfold Executor.try_block. rewrite Hcs.
  destruct (truthy (construct this)), (method this) as [| | | | | | | | |g| |];
    simpl; auto.
  - destruct (on_new (body_of impl g)); simpl; auto using run_plain_keeps.
  - pose proof (run_plain_keeps this (last_elem payload)
                  (on_call (body_of impl g) (wrap_payload this payload)) s) as H.
    destruct (run _ _ _ _ s) as [[ret|e] s1]; simpl in *; auto.
Qed.


Lemma run_later_plain this payload (s : state) :
  returnWithCB this payload = None ->
  prm (run_later this payload s) = prm s /\ trace (run_later this payload s) = trace s.
Proof.
  intros Hcs. unfold Executor.run_later. rewrite Hcs.
  destruct (method this) as [| | | | | | | | |g| |]; auto.
  destruct (truthy (construct this)), (on_new (body_of impl g));
    auto using run_plain_keeps.
Qed.


(** Once settled, the promise keeps its settlement. *)
Lemma resolve_settled x (s : state) fate :
  prm s = Some fate -> prm (resolve x s) = Some fate.
Proof. unfold resolve. intros H. by rewrite H. Qed.

Lemma reject_settled e (s : state) fate :
  prm s = Some fate -> prm (reject e s) = Some fate.
Proof. unfold reject. intros H. by rewrite H. Qed.

Lemma run_settled this h wrapped original b (s : state) fate :
  outputHandler this = VFun h -> quiet h ->
  prm s = Some fate -> prm (run this wrapped original b s).2 = Some fate.
Proof.
  intros Hh Hq. revert s; induction b as [v|e|args k IH]; intros s Hs; simpl; auto.
  destruct wrapped as [prevCb|]; simpl.
  - destruct (cb_quiet this h Hh prevCb args s Hq) as (s1 & E & _ & Hp). rewrite E.
    destruct (apply_plain_keeps prevCb args (emit (Forwarded args) s1)) as [Hp2 _].
    destruct (apply_plain prevCb args (emit (Forwarded args) s1)) as [c s2]; simpl in *.
    apply IH. rewrite Hp2, Hp.
    destruct (truthy (at_index args 0)); auto using resolve_settled, reject_settled.
  - destruct (call_value_keeps original args s) as [Hp _].
    destruct (call_value original args s) as [c s1]; simpl in *.
    apply IH. congruence.
Qed.

Lemma run_later_settled this h payload (s : state) fate :
  outputHandler this = VFun h -> quiet h ->
  prm s = Some fate -> prm (run_later this payload s) = Some fate.
Proof.
  intros Hh Hq Hs. unfold Executor.run_later.
  destruct (method this) as [| | | | | | | | |g| |]; auto.
  destruct (truthy (construct this)), (on_new (body_of impl g));
    auto; by apply run_settled with h.
Qed.

(** What the [try] block does to [this]. *)
Lemma try_block_this this payload (s : state) :
  (try_block this payload s).2 =
    if truthy (construct this) then this
    else match (try_block this payload s).1.1 with
         | Normal ret => set_returnValue ret this
         | Abrupt _ => this
         end.
Proof.
  unfold Executor.try_block.
  destruct (truthy (construct this)), (method this) as [| | | | | | | | |g| |];
    simpl; auto.
  - by destruct (on_new (body_of impl g)).
  - by destruct (run _ _ _ _ s) as [[ret|e] s1].
Qed.

Lemma executor_fn_this this payload (s : state) :
  (executor_fn this payload s).1.2 = (try_block this payload s).2.
Proof.
  unfold Executor.executor_fn.
  destruct (try_block this payload s) as [[[ret|er] s1] this1]; simpl.
  - destruct (bool_decide _); auto.
    destruct (negb _ && is_promise ret); auto. by destruct ret.
  - by destruct (rejecting this er s1).
Qed.

(** ** The value of [execute] and the field [returnValue] *)

Lemma execute_completion this params (s : state) :
  (execute this params s).1.1 = Normal VUndefined.
Proof.
  unfold Executor.execute.
  by destruct (executor_fn this params s) as [[[c s1] this1] reaction].
Qed.

Lemma execute_this this params (s : state) :
  (execute this params s).2 =
    if truthy (isAsync this)
    then set_returnValue
           (VPromise (default Pending (prm (execute this params s).1.2)))
           (try_block this params s).2
    else (try_block this params s).2.
Proof.
  unfold Executor.execute.
  pose proof (executor_fn_this this params s) as Hthis.
  destruct (executor_fn this params s) as [[[c s1] this1] reaction]; simpl in *.
  subst this1. by destruct (truthy (isAsync this)).
Qed.

(** Claim C9, as amended.  [execute] returns [undefined] whatever the
    flags and the arguments.  [returnValue] ends as the internal promise
    exactly when [isAsync] is truthy, on the constructor path too;
    otherwise it is assigned on the path that does not construct, the
    value the callable returned, and left as it was when the callable threw
    or when the executor constructs: the constructed instance is never
    stored. *)
Theorem execute_returnValue this params (s : state) :
  (execute this params s).1.1 = Normal VUndefined
  /\ returnValue (execute this params s).2 =
       if truthy (isAsync this)
       then Some (VPromise (default Pending (prm (execute this params s).1.2)))
       else if truthy (construct this) then returnValue this
       else match (try_block this params s).1.1 with
            | Normal ret => Some ret
            | Abrupt _ => returnValue this
            end.
Proof.
  split; [apply execute_completion|].
  rewrite execute_this, try_block_this.
  destruct (truthy (isAsync this)); [reflexivity|].
  destruct (truthy (construct this)); [reflexivity|].
  by destruct ((try_block this params s).1.1).
Qed.

(** ** How often the output handler fires *)


(** ** The wrapping callback *)

Lemma last_elem_function payload g :
  last_elem payload = VFun g -> exists front, payload = front ++ [VFun g].
Proof.
  unfold last_elem. intros H.
  destruct payload as [|x rest] using rev_ind; [discriminate|].
  rewrite List.last_last in H. subst. eauto.
Qed.

(** Claim C5, as amended.  When [isAsync] is neither [false] nor [1] and
    the last argument is a function, that argument, and no other, is
    replaced by the wrapping callback.  With an output handler that
    returns normally, a call of the wrapping callback calls the handler
    with the first argument alone when that argument is truthy, rejecting
    the promise with it, and with [null] and the remaining arguments when
    it is falsy, resolving the promise with the first of them; after that
    it calls the original callback with the arguments it got itself, and
    completes as that call does. *)
Theorem callback_wrapper this h payload prevCb :
  outputHandler this = VFun h -> quiet h ->
  is_false (isAsync this) = false -> is_one (isAsync this) = false ->
  last_elem payload = VFun prevCb ->
  returnWithCB this payload = Some prevCb
  /\ last_elem (wrap_payload this payload) = VFun (FCb prevCb)
  /\ removelast (wrap_payload this payload) = removelast payload
  /\ forall args (s : state),
       exists s1,
         call_last this (returnWithCB this payload) (last_elem payload) args s
           = apply_plain prevCb args (emit (Forwarded args) s1)
         /\ trace s1 = trace s ++ [Fired (if truthy (at_index args 0)
                                          then [at_index args 0]
                                          else VNull :: slice1 args)]
         /\ (prm s = None ->
             prm s1 = Some (if truthy (at_index args 0)
                            then Rejected (at_index args 0)
                            else resolved_with (at_index (slice1 args) 0))).
Proof.
  intros Hh Hq Hf H1 Hlast.
  assert (Hcs : returnWithCB this payload = Some prevCb).
  { unfold Executor.returnWithCB. by rewrite Hf, H1, Hlast. }
  destruct (last_elem_function payload prevCb Hlast) as [front ->].
  unfold Executor.wrap_payload. rewrite Hcs. unfold set_last, last_elem.
  destruct (front ++ [VFun prevCb]) eqn:E; [by destruct front|]. rewrite <- E.
  rewrite !removelast_last, List.last_last.
  repeat split; try done.
  intros args s. simpl.
  destruct (cb_quiet this h Hh prevCb args s Hq) as (s1 & Hcb & Ht & Hp).
  exists s1. repeat split; try done.
  intros Hnone. rewrite Hp.
  destruct (truthy (at_index args 0)); unfold reject, resolve; by rewrite Hnone.
Qed.

(** ** Errors *)

Lemma run_extends this h wrapped original b (s : state) :
  outputHandler this = VFun h -> quiet h ->
  exists extra, trace (run this wrapped original b s).2 = trace s ++ extra.
Proof.
  intros Hh Hq. revert s; induction b as [v|e|args k IH]; intros s; simpl;
    try (exists []; by rewrite app_nil_r).
  destruct wrapped as [prevCb|]; simpl.
  - destruct (cb_quiet this h Hh prevCb args s Hq) as (s1 & E & Ht & _). rewrite E.
    destruct (apply_plain_keeps prevCb args (emit (Forwarded args) s1)) as [_ Ht2].
    destruct (apply_plain prevCb args (emit (Forwarded args) s1)) as [c s2]; simpl in *.
    destruct (IH c s2) as [extra ->]. rewrite Ht2, Ht, <- !app_assoc. eauto.
  - destruct (call_value_keeps original args s) as [_ Ht].
    destruct (call_value original args s) as [c s1]; simpl in *.
    destruct (IH c s1) as [extra ->]. rewrite Ht. eauto.
Qed.

Lemma run_later_extends this h payload (s : state) :
  outputHandler this = VFun h -> quiet h ->
  exists extra, trace (run_later this payload s) = trace s ++ extra.
Proof.
  intros Hh Hq. unfold Executor.run_later.
  destruct (method this) as [| | | | | | | | |g| |];
    try (exists []; by rewrite app_nil_r).
  destruct (truthy (construct this)), (on_new (body_of impl g));
    try (exists []; by rewrite app_nil_r); by apply run_extends with h.
Qed.










End Facts.

End ExecutorFacts.

(* ===================================================================== *)
(** * Facts about snapshots *)
(* ===================================================================== *)

Module SnapshotFacts.
Import Json Tcgen.

(** Induction on a syntax tree, with the hypothesis for every element of
    an array and every member of an object. *)
Lemma json_ind' (P : json -> Prop) :
  P JNull -> (forall b, P (JBool b)) -> (forall n, P (JNum n)) -> (forall s, P (JStr s)) ->
  (forall items, Forall P items -> P (JArr items)) ->
  (forall members, Forall (fun m => P m.2) members -> P (JObj members)) ->
  forall j, P j.
Proof.
  intros Hnull Hbool Hnum Hstr Harr Hobj.
  fix IH 1. intros [ |b|n|s|items|members].
  - exact Hnull.
  - apply Hbool.
  - apply Hnum.
  - apply Hstr.
  - apply Harr. induction items as [|j items IHitems]; constructor.
    + apply IH.
    + exact IHitems.
  - apply Hobj. induction members as [|[k j] members IHmembers]; constructor.
    + apply IH.
    + exact IHmembers.
Qed.

Section Facts.

Context {host : Host}.

Lemma toJSON_of_json members :
  toJSON_of (map (fun m => (m.1, of_json m.2)) members) = None.
Proof.
  unfold toJSON_of. induction members as [|[k j] members IH]; [done|].
  simpl. destruct (String.eqb k "toJSON"); [by destruct j|exact IH].
Qed.

(** A value read from a JSON text is printed as that text, wherever it
    is found. *)
Lemma serialize_of_json j : forall key, serialize key (of_json j) = Text j.
Proof.
  induction j as [ |b|n|s|items IH|members IH] using json_ind'; intros key;
    try reflexivity.
  - simpl. generalize 0.
    induction IH as [|j items Hj _ IHitems]; intros i; [reflexivity|].
    simpl. rewrite Hj. specialize (IHitems (S i)).
    match type of IHitems with
    | match ?e with _ => _ end = _ => destruct e as [e'|js]; [discriminate|]
    end.
    by injection IHitems as ->.
  - cbn [of_json serialize]. rewrite toJSON_of_json.
    induction IH as [|[k j] members Hj _ IHmembers]; [reflexivity|].
    simpl in *. rewrite Hj.
    match type of IHmembers with
    | match ?e with _ => _ end = _ => destruct e as [e'|js]; [discriminate|]
    end.
    by injection IHmembers as ->.
Qed.







(** Every snapshot is a value read from a JSON text. *)
Lemma clonePrimitive_spec v :
  clonePrimitive v = Normal match serialize "" v with
                            | Text j => of_json j
                            | _ => VNull
                            end.
Proof. unfold clonePrimitive, stringify. by destruct (serialize "" v). Qed.

Lemma map_clonePrimitive_total args :
  exists snapshots,
    map_clonePrimitive args = Normal snapshots /\ length snapshots = length args.
Proof.
  induction args as [|x args (snapshots & IH & Hlen)]; [by exists []|].
  simpl. rewrite clonePrimitive_spec, IH. simpl. eexists; split; [done|]. simpl. lia.
Qed.

Lemma handleFunctionUnderTest_total sLogger ent prop isConstructor :
  exists w σ, handleFunctionUnderTest sLogger ent prop isConstructor = Normal (w, σ)
    /\ Tcgen.sLogger w = sLogger /\ Tcgen.ent w = ent /\ Tcgen.prop w = prop
    /\ Tcgen.isConstructor w = default_param isConstructor (VBool false).
Proof.
  unfold handleFunctionUnderTest. rewrite clonePrimitive_spec. simpl. eauto 10.
Qed.

End Facts.

End SnapshotFacts.

(* ===================================================================== *)
(** * Facts about the interceptor *)
(* ===================================================================== *)

Module InterceptorFacts.
Import Executor Tcgen SnapshotFacts.

Section Facts.

Context {host : Json.Host}.

Variable impl : fid -> callable.
Variable reply : fid -> list value -> completion.
Variable w : wrapper.

Local Abbreviation state := (Executor.st (W := world)).
Local Abbreviation ext := (Tcgen.extern reply w).

(** ** Calls that do not reach the completion closure leave the world alone *)

Lemma apply_plain_world f args (s : state) :
  is_onDone (VFun f) = false ->
  Executor.world (apply_plain ext f args s).2 = Executor.world s.
Proof.
  revert s; induction f as [n| |target IH|prev _|]; intros s H; simpl in *;
    try done. by apply IH.
Qed.

Lemma call_value_world v args (s : state) :
  is_onDone v = false ->
  Executor.world (call_value ext v args s).2 = Executor.world s.
Proof. destruct v; try done. apply apply_plain_world. Qed.

Lemma resolve_world x (s : state) : Executor.world (resolve x s) = Executor.world s.
Proof. unfold resolve. by destruct (prm s). Qed.

Lemma reject_world e (s : state) : Executor.world (reject e s) = Executor.world s.
Proof. unfold reject. by destruct (prm s). Qed.

Section Handler.

Variable this : Executor.t.
Hypothesis handler : is_onDone (outputHandler this) = false.

Lemma fire_world args (s : state) :
  Executor.world (fire ext this args s).2 = Executor.world s.
Proof.
  unfold fire. destruct (outputHandler this) eqn:E; try done.
  by rewrite apply_plain_world.
Qed.

Lemma resolving_world args (s : state) :
  Executor.world (resolving ext this args s).2 = Executor.world s.
Proof.
  unfold resolving. pose proof (fire_world (VNull :: args) s) as H.
  destruct (fire ext this (VNull :: args) s) as [[v|e] s1]; simpl in *; try done.
  by rewrite resolve_world.
Qed.

Lemma rejecting_world er (s : state) :
  Executor.world (rejecting ext this er s).2 = Executor.world s.
Proof.
  unfold rejecting. pose proof (fire_world [er] s) as H.
  destruct (fire ext this [er] s) as [[v|e] s1]; simpl in *; try done.
  by rewrite reject_world.
Qed.

Lemma cb_world prevCb args (s : state) :
  is_onDone (VFun prevCb) = false ->
  Executor.world (cb ext this prevCb args s).2 = Executor.world s.
Proof.
  intros Hprev. unfold cb.
  assert (H : Executor.world
            (if truthy (at_index args 0)
             then rejecting ext this (at_index args 0) s
             else resolving ext this (slice1 args) s).2 = Executor.world s).
  { destruct (truthy (at_index args 0)); auto using rejecting_world, resolving_world. }
  destruct (if truthy (at_index args 0) then _ else _) as [[v|e] s1]; simpl in *;
    try done.
  by rewrite apply_plain_world.
Qed.

Lemma run_world wrapped original b (s : state) :
  is_onDone original = false ->
  (forall prevCb, wrapped = Some prevCb -> is_onDone (VFun prevCb) = false) ->
  Executor.world (run ext this wrapped original b s).2 = Executor.world s.
Proof.
  intros Horig Hwrapped. revert s; induction b as [v|e|args k IH]; intros s; simpl;
    try done.
  assert (H : Executor.world (call_last ext this wrapped original args s).2
              = Executor.world s).
  { destruct wrapped as [prevCb|]; simpl; auto using cb_world, call_value_world. }
  destruct (call_last ext this wrapped original args s) as [c s1]; simpl in *.
  by rewrite IH.
Qed.

Lemma returnWithCB_last payload prevCb :
  returnWithCB this payload = Some prevCb -> last_elem payload = VFun prevCb.
Proof.
  unfold returnWithCB. destruct (negb _ && negb _); [|done].
  destruct (last_elem payload); try done. by intros [= ->].
Qed.

Lemma execute_world payload (s : state) :
  is_onDone (last_elem payload) = false ->
  Executor.world (execute ext impl this payload s).1.2 = Executor.world s.
Proof.
  intros Hlast.
  assert (Hrun : forall b s0,
    Executor.world (run ext this (returnWithCB this payload) (last_elem payload) b s0).2
    = Executor.world s0).
  { intros b s0. apply run_world; [done|].
    intros prevCb Hcs. apply returnWithCB_last in Hcs. by rewrite <- Hcs. }
  assert (Htry : Executor.world (try_block ext impl this payload s).1.2 = Executor.world s).
  { unfold try_block.
    destruct (truthy (construct this)), (method this) as [| | | | | | | | |g| |];
      simpl; try done.
    - destruct (on_new (body_of impl g)); simpl; auto.
    - specialize (Hrun (on_call (body_of impl g) (wrap_payload this payload)) s).
      by destruct (run _ _ _ _ _ s) as [[ret|e] s1]. }
  assert (Hlater : forall s0, Executor.world (run_later ext impl this payload s0)
                              = Executor.world s0).
  { intros s0. unfold run_later. destruct (method this) as [| | | | | | | | |g| |]; try done.
    destruct (truthy (construct this)), (on_new (body_of impl g)); auto. }
  unfold execute, executor_fn.
  destruct (try_block ext impl this payload s) as [[[ret|er] s1] this1]; simpl in *.
  - destruct (bool_decide _); simpl; [by rewrite Hlater|].
    destruct (negb _ && is_promise ret).
    + destruct ret as [| | | | | | | | | | |[|v|e]]; simpl; rewrite Hlater; try done.
      * pose proof (resolving_world [v] s1) as H.
        destruct (resolving ext this [v] s1) as [[x|e] s2]; simpl in *; try congruence.
        rewrite rejecting_world. congruence.
      * rewrite rejecting_world. congruence.
    + pose proof (resolving_world [ret] s1) as H.
      destruct (resolving ext this [ret] s1) as [[x|e] s2]; simpl in *;
        rewrite Hlater, ?reject_world; congruence.
  - pose proof (rejecting_world er s1) as H.
    destruct (rejecting ext this er s1) as [[x|e] s2]; simpl in *;
      rewrite Hlater, ?reject_world; congruence.
Qed.

End Handler.

(** ** What [mainCall] returns and what it records *)

(** The executor [mainCall] makes. *)
Lemma mainCall_unfold args σ :
  exists snapshots,
    map_clonePrimitive args = Normal snapshots
    /\ mainCall impl reply w args σ =
       let r := execute ext impl
                  (Executor.new (ent w) (prop w) (VFun FOnDone) (isConstructor w))
                  args (init (push (VArr snapshots) σ)) in
       (Normal (default VUndefined (returnValue r.2)), r.1.2).
Proof.
  destruct (map_clonePrimitive_total args) as (snapshots & E & _).
  exists snapshots. split; [done|]. unfold mainCall. rewrite E.
  pose proof (ExecutorFacts.execute_completion ext impl
                (Executor.new (ent w) (prop w) (VFun FOnDone) (isConstructor w))
                args (init (push (VArr snapshots) σ))) as Hc.
  destruct (execute _ _ _ _ _) as [[c s] this']; simpl in *. by subst c.
Qed.

Lemma mainCall_result args σ :
  (mainCall impl reply w args σ).1 =
    Normal (if truthy (isConstructor w)
            then VPromise (default Pending (prm (mainCall impl reply w args σ).2))
            else VUndefined).
Proof.
  destruct (mainCall_unfold args σ) as (snapshots & _ & ->). simpl.
  rewrite ExecutorFacts.execute_this, ExecutorFacts.try_block_this. simpl.
  by destruct (truthy (isConstructor w)).
Qed.

Lemma mainCall_world args σ :
  is_onDone (prop w) = false -> is_onDone (last_elem args) = false ->
  exists snapshots,
    map_clonePrimitive args = Normal snapshots
    /\ Executor.world (mainCall impl reply w args σ).2 = push (VArr snapshots) σ.
Proof.
  intros Hprop Hlast.
  destruct (mainCall_unfold args σ) as (snapshots & E & ->). simpl.
  exists snapshots. split; [done|]. rewrite execute_world; try done.
  simpl. by destruct (prop w).
Qed.

(** Claim C1 (a defect of the code).  Whatever the callable returns, the
    wrapper made with [isConstructor] false returns [undefined]: [mainCall]
    hands its completion closure to the executor in the place of
    [construct], so the executor constructs and never assigns
    [returnValue]. *)
Theorem wrapper_returns_undefined args σ :
  truthy (isConstructor w) = false ->
  (mainCall impl reply w args σ).1 = Normal VUndefined.
Proof. intros H. by rewrite mainCall_result, H. Qed.

(** Claim C2 (a defect of the code).  A call of the wrapper only appends
    the snapshot of its arguments to [applyArgs]: the logger is not
    called, and no outcome is recorded. *)
Theorem wrapper_records_nothing args σ :
  is_onDone (prop w) = false -> is_onDone (last_elem args) = false ->
  logged (Executor.world (mainCall impl reply w args σ).2) = logged σ
  /\ exists snapshots,
       map_clonePrimitive args = Normal snapshots
       /\ applyArgs (Executor.world (mainCall impl reply w args σ).2)
          = applyArgs σ ++ [VArr snapshots].
Proof.
  intros Hprop Hlast.
  destruct (mainCall_world args σ Hprop Hlast) as (snapshots & E & ->).
  split; [done|]. by exists snapshots.
Qed.

End Facts.



End InterceptorFacts.

(* ===================================================================== *)
(** * Facts about the instrumenter *)
(* ===================================================================== *)

Module InstrumenterFacts.
Import Tcgen SnapshotFacts.

Lemma for_each_Forall2 {A B : Type} (f : A -> result B) l l' :
  for_each f l = Normal l' -> Forall2 (fun x y => f x = Normal y) l l'.
Proof.
  revert l'; induction l as [|x l IH]; intros l'; simpl.
  - intros [= <-]. constructor.
  - destruct (f x) as [y|e] eqn:Hx; [|done]. simpl.
    destruct (for_each f l) as [ys|e]; [|done]. simpl.
    intros [= <-]. constructor; auto.
Qed.

Section Facts.

Context {host : Json.Host}.

Lemma instrument_method_spec sLogger read_only name v m :
  instrument_method sLogger read_only (name, v) = Normal m ->
  if String.eqb (typeof v) "function"
  then exists w σ, m = (name, Intercepted w σ)
         /\ prop w = VBool (String.eqb name "constructor")
         /\ isConstructor w = VBool false
  else m = (name, Plain v).
Proof.
  unfold instrument_method. destruct (String.eqb (typeof v) "function").
  - destruct (handleFunctionUnderTest_total sLogger (bound v)
                (VBool (String.eqb name "constructor")) VUndefined)
      as (w & σ & -> & _ & _ & Hprop & Hctor).
    simpl. destruct (assign read_only name); [|done]. simpl. intros [= <-]. eauto.
  - by intros [= <-].
Qed.

(** What [instrumentClass] has done when it returns with a unit. *)
Lemma instrumentClass_returns path_join sep this filePath f now files
    result logger files' :
  instrumentClass path_join sep this filePath (Function f) now files
    = (Normal (Some (result, logger)), files') ->
  exists proto dir,
    prototype f = Some proto
    /\ join path_join
         (destdir this
            :: map VStr (Str.split sep (List.last (Str.split (srcdir this) filePath) "")))
       = Normal (VStr dir)
    /\ Logger.new path_join dir
         (Some (Str.join sep
                  (Str.split sep (List.last (Str.split (srcdir this) filePath) ""))))
         (match first (Str.splice_removed (-2) (-1) (Str.split sep filePath)) with
          | VStr s => Some s
          | _ => None
          end) now files = (logger, files')
    /\ statics_getter f = None /\ prototype_getter f = None
    /\ for_each (instrument_static (Logger.as_value logger) (statics_read_only f))
                (statics f) = Normal (new_statics result)
    /\ for_each (instrument_method (Logger.as_value logger) (prototype_read_only f))
                proto = Normal (new_prototype result).
Proof.
  unfold instrumentClass.
  destruct (negb _); [done|].
  destruct (join _ _) as [dir|e] eqn:Hdir; [|done].
  assert (Hd : exists d, dir = VStr d).
  { unfold join in Hdir. destruct (strings_of _); [|done]. injection Hdir as <-. eauto. }
  destruct Hd as [d ->].
  destruct (Logger.new _ _ _ _ _ _) as [lg files1] eqn:Hnew.
  destruct (statics_getter f); [done|]. cbn [read_all bind].
  destruct (for_each (instrument_static _ _) (statics f)) as [ss|e] eqn:Hss; [|done].
  cbn [bind].
  destruct (prototype f) as [proto|]; [|done].
  destruct (prototype_getter f); [done|]. cbn [read_all bind].
  destruct (for_each (instrument_method _ _) proto) as [ms|e] eqn:Hms; [|done].
  cbn [bind]. intros [= <- <- <-]. exists proto, d. simpl. repeat split; assumption.
Qed.

End Facts.

(** Claim C7 (a defect of the code).  Every function among the own
    properties of the prototype is replaced by a wrapper, and every such
    wrapper, the one of [constructor] included, is made with
    [isConstructor] false: the test [prop === 'constructor'] is passed as
    the third argument of [handleFunctionUnderTest], the member name. *)
Theorem constructor_flag_is_never_set {host : Json.Host}
    path_join sep this filePath f proto now files result logger files' :
  prototype f = Some proto ->
  instrumentClass path_join sep this filePath (Function f) now files
    = (Normal (Some (result, logger)), files') ->
  Forall2 (fun before after =>
             after.1 = before.1
             /\ if String.eqb (typeof before.2) "function"
                then exists w σ, after.2 = Intercepted w σ
                       /\ isConstructor w = VBool false
                       /\ prop w = VBool (String.eqb before.1 "constructor")
                else after.2 = Plain before.2)
          proto (new_prototype result).
Proof.
  intros Hproto Hcls.
  destruct (instrumentClass_returns _ _ _ _ _ _ _ _ _ _ Hcls)
    as (proto' & dir & Hproto' & _ & _ & _ & _ & _ & Hms).
  rewrite Hproto in Hproto'. injection Hproto' as <-.
  apply for_each_Forall2 in Hms.
  eapply Forall2_impl; [exact Hms|].
  intros [name v] m Hm. apply instrument_method_spec in Hm. simpl.
  destruct (String.eqb (typeof v) "function").
  - destruct Hm as (w & σ & -> & Hprop & Hctor). eauto 10.
  - by subst m.
Qed.

End InstrumenterFacts.

(* ===================================================================== *)
(** * Facts about JSON texts *)
(* ===================================================================== *)

Module JsonFacts.
Import Json.

(** ** Every recogniser returns a suffix of its input *)

(** Closes a goal [a `suffix_of` b] from the suffix facts at hand. *)
Ltac chain :=
  first [ assumption
        | reflexivity
        | apply suffix_cons_r; chain
        | match goal with
          | H : _ `suffix_of` ?b |- _ `suffix_of` ?b =>
              etrans; [|exact H]; clear H; chain
          end ].

Lemma skip_ws_suffix s : skip_ws s `suffix_of` s.
Proof.
  induction s as [|c s IH]; simpl; [done|].
  destruct (is_ws c); [by apply suffix_cons_r|done].
Qed.

Lemma skip_digits_suffix s : skip_digits s `suffix_of` s.
Proof.
  induction s as [|c s IH]; simpl; [done|].
  destruct (is_digit c); [by apply suffix_cons_r|done].
Qed.

Lemma digits_suffix s rest : digits s = Some rest -> rest `suffix_of` s.
Proof.
  destruct s as [|c s]; simpl; [done|].
  destruct (is_digit c); [|done]. intros [= <-].
  apply suffix_cons_r, skip_digits_suffix.
Qed.

Lemma exponent_suffix s rest : exponent s = Some rest -> rest `suffix_of` s.
Proof.
  destruct s as [|c s]; simpl; [by intros [= <-]|].
  destruct (at_code c 101 || at_code c 69); [|by intros [= <-]].
  destruct s as [|sign s]; [done|].
  destruct (at_code sign 43 || at_code sign 45); intros H%digits_suffix; chain.
Qed.

Lemma fraction_suffix s rest : fraction s = Some rest -> rest `suffix_of` s.
Proof.
  destruct s as [|c s]; unfold fraction; [by intros [= <-]|].
  destruct (at_code c 46).
  - destruct (digits s) as [s'|] eqn:E; [|done].
    apply digits_suffix in E. intros H%exponent_suffix. chain.
  - apply exponent_suffix.
Qed.

Lemma integer_suffix s rest : integer s = Some rest -> rest `suffix_of` s.
Proof.
  destruct s as [|c s]; simpl; [done|].
  destruct (at_code c 48); [intros H%fraction_suffix; chain|].
  destruct (is_digit c); [|done]. intros H%fraction_suffix.
  pose proof (skip_digits_suffix s). chain.
Qed.

Lemma number_suffix s rest : number s = Some rest -> rest `suffix_of` s.
Proof.
  destruct s as [|c s]; unfold number; [done|].
  destruct (at_code c 45); [intros H%integer_suffix; chain|apply integer_suffix].
Qed.

Lemma chars_suffix s rest : chars s = Some rest -> rest `suffix_of` s.
Proof.
  remember (length s) as n eqn:Hn. revert s rest Hn.
  induction n as [n IH] using lt_wf_ind. intros s rest Hn.
  destruct s as [|c s]; simpl; [done|].
  destruct (at_code c 34); [intros [= <-]; chain|].
  destruct (at_code c 92).
  - destruct s as [|e s]; [done|].
    destruct (_ || _).
    + intros H. apply (IH (length s)) in H; [chain|simpl in Hn; lia|done].
    + destruct (at_code e 117); [|done].
      destruct s as [|h1 [|h2 [|h3 [|h4 s]]]]; try done.
      destruct (_ && _); [|done].
      intros H. apply (IH (length s)) in H; [chain|simpl in Hn; lia|done].
  - destruct (Nat.ltb (code c) 32); [done|].
    intros H. apply (IH (length s)) in H; [chain|simpl in Hn; lia|done].
Qed.

Lemma literal_suffix word s rest : literal word s = Some rest -> rest `suffix_of` s.
Proof.
  revert s; induction word as [|w word IH]; intros s; simpl; [by intros [= <-]|].
  destruct s as [|c s]; [done|].
  destruct (Ascii.eqb w c); [|done]. intros H%IH. chain.
Qed.

Lemma element_suffix fuel :
  (forall s rest, element fuel s = Some rest -> rest `suffix_of` s)
  /\ (forall s rest, members fuel s = Some rest -> rest `suffix_of` s)
  /\ (forall s rest, elements fuel s = Some rest -> rest `suffix_of` s).
Proof.
  induction fuel as [|fuel (IHelement & IHmembers & IHelements)];
    [by repeat split|].
  repeat split; intros s rest; cbn [element members elements].
  - destruct s as [|c s]; [done|].
    destruct (at_code c 123).
    { pose proof (skip_ws_suffix s) as Hws.
      destruct (skip_ws s) as [|c' s']; [done|].
      destruct (at_code c' 125); [intros [= <-]; chain|].
      intros H%IHmembers. chain. }
    destruct (at_code c 91).
    { pose proof (skip_ws_suffix s) as Hws.
      destruct (skip_ws s) as [|c' s']; [done|].
      destruct (at_code c' 93); [intros [= <-]; chain|].
      intros H%IHelements. chain. }
    destruct (at_code c 34); [intros H%chars_suffix; chain|].
    destruct (at_code c 116); [intros H%literal_suffix; chain|].
    destruct (at_code c 102); [intros H%literal_suffix; chain|].
    destruct (at_code c 110); [intros H%literal_suffix; chain|].
    apply number_suffix.
  - destruct s as [|c s]; [done|].
    destruct (at_code c 34); [|done].
    destruct (chars s) as [after_key|] eqn:Hkey; [|done].
    apply chars_suffix in Hkey.
    pose proof (skip_ws_suffix after_key) as Hws1.
    destruct (skip_ws after_key) as [|colon after_colon]; [done|].
    destruct (at_code colon 58); [|done].
    pose proof (skip_ws_suffix after_colon) as Hws2.
    destruct (element fuel (skip_ws after_colon)) as [after_value|] eqn:Hval; [|done].
    apply IHelement in Hval.
    pose proof (skip_ws_suffix after_value) as Hws3.
    destruct (skip_ws after_value) as [|d rest']; [done|].
    assert (Hd : rest' `suffix_of` c :: s) by chain.
    destruct (at_code d 44).
    { intros H%IHmembers. pose proof (skip_ws_suffix rest'). chain. }
    destruct (at_code d 125); [|done]. by intros [= <-].
  - destruct (element fuel s) as [after_value|] eqn:Hval; [|done].
    apply IHelement in Hval.
    pose proof (skip_ws_suffix after_value) as Hws3.
    destruct (skip_ws after_value) as [|d rest']; [done|].
    assert (Hd : rest' `suffix_of` s) by chain.
    destruct (at_code d 44).
    { intros H%IHelements. pose proof (skip_ws_suffix rest'). chain. }
    destruct (at_code d 93); [|done]. by intros [= <-].
Qed.

(** ** A text that starts as an object ends with a closing brace *)

Lemma after_brace_suffix rest s s' :
  after_brace rest s -> s `suffix_of` s' -> after_brace rest s'.
Proof.
  intros (front & c & -> & Hc) [k ->]. exists (k ++ front), c.
  by rewrite <- app_assoc.
Qed.

Lemma members_after_brace fuel s rest :
  members fuel s = Some rest -> after_brace rest s.
Proof.
  revert s; induction fuel as [|fuel IH]; intros s; [done|].
  cbn [members].
  destruct s as [|c s]; [done|].
  destruct (at_code c 34); [|done].
  destruct (chars s) as [after_key|] eqn:Hkey; [|done].
  apply chars_suffix in Hkey.
  pose proof (skip_ws_suffix after_key) as Hws1.
  destruct (skip_ws after_key) as [|colon after_colon]; [done|].
  destruct (at_code colon 58); [|done].
  pose proof (skip_ws_suffix after_colon) as Hws2.
  destruct (element fuel (skip_ws after_colon)) as [after_value|] eqn:Hval; [|done].
  apply (element_suffix fuel) in Hval.
  pose proof (skip_ws_suffix after_value) as Hws3.
  destruct (skip_ws after_value) as [|d rest'] eqn:Hd; [done|].
  assert (Hrest : d :: rest' `suffix_of` c :: s) by chain.
  destruct (at_code d 44).
  - intros H%IH. pose proof (skip_ws_suffix rest').
    apply (after_brace_suffix _ _ _ H). chain.
  - destruct (at_code d 125) eqn:Hbrace; [|done]. intros [= <-].
    apply after_brace_suffix with (d :: rest'); [|done].
    by exists [], d.
Qed.

Lemma object_after_brace fuel c s rest :
  at_code c 123 = true ->
  element fuel (c :: s) = Some rest -> after_brace rest (c :: s).
Proof.
  intros Hc. destruct fuel as [|fuel]; [done|]. cbn [element]. rewrite Hc.
  pose proof (skip_ws_suffix s) as Hws.
  destruct (skip_ws s) as [|c' s']; [done|].
  destruct (at_code c' 125) eqn:Hbrace.
  - intros [= <-]. apply after_brace_suffix with (c' :: s'); [|chain].
    by exists [], c'.
  - intros H%members_after_brace. apply (after_brace_suffix _ _ _ H). chain.
Qed.

Lemma skip_ws_nil s : skip_ws s = [] -> filter (fun c => is_ws c = false) s = [].
Proof.
  induction s as [|c s IH]; simpl; [done|].
  destruct (is_ws c) eqn:E; [|done]. intros H%IH.
  rewrite filter_cons_False; [done|]. by rewrite E.
Qed.

Lemma after_brace_last_visible rest s :
  after_brace rest s -> skip_ws rest = [] ->
  exists c, last_visible s = Some c /\ at_code c 125 = true.
Proof.
  intros (front & c & -> & Hc) Hrest. exists c. split; [|done].
  unfold last_visible. rewrite filter_app, filter_cons_True.
  - rewrite (skip_ws_nil _ Hrest). apply last_snoc.
  - unfold is_ws. unfold at_code in *. apply Nat.eqb_eq in Hc. rewrite Hc. done.
Qed.

Lemma string_app_assoc a b c : (a +:+ b) +:+ c = a +:+ b +:+ c.
Proof.
  induction a as [|x a IH]; [done|].
  change (String x ((a +:+ b) +:+ c) = String x (a +:+ b +:+ c)). by rewrite IH.
Qed.

Lemma list_ascii_app a b :
  list_ascii_of_string (a +:+ b) = list_ascii_of_string a ++ list_ascii_of_string b.
Proof. induction a as [|c a IH]; simpl; [done|]. by rewrite IH. Qed.

(** A text whose first character is an opening brace and whose last
    visible character is not a closing brace is not a JSON document. *)
Lemma unclosed_object_rejected text c s c' :
  list_ascii_of_string text = c :: s -> at_code c 123 = true ->
  last_visible (c :: s) = Some c' -> at_code c' 125 = false ->
  ~ well_formed text.
Proof.
  intros Htext Hc Hlast Hc' [fuel Hacc]. unfold accepts in Hacc.
  rewrite Htext in Hacc.
  assert (Hws : skip_ws (c :: s) = c :: s).
  { simpl. unfold is_ws. unfold at_code in Hc. apply Nat.eqb_eq in Hc.
    unfold at_code. by rewrite Hc. }
  rewrite Hws in Hacc.
  destruct (element fuel (c :: s)) as [rest|] eqn:E; [|done].
  apply object_after_brace in E; [|done].
  destruct (skip_ws rest) eqn:Hrest; [|done].
  destruct (after_brace_last_visible _ _ E Hrest) as (c'' & Hlast' & Hbrace).
  congruence.
Qed.

End JsonFacts.

(* ===================================================================== *)
(** * Facts about the recorder *)
(* ===================================================================== *)

Module LoggerFacts.
Import Json JsonFacts Logger.

Lemma lookup_set_file_eq path text (disk : fs) :
  set_file path text disk !! path = Some text.
Proof. unfold lookup, fs_lookup, set_file. simpl. apply lookup_insert_eq. Qed.

Lemma lookup_set_file_ne path path' text (disk : fs) :
  path <> path' -> set_file path text disk !! path' = disk !! path'.
Proof. intros Hne. unfold lookup, fs_lookup, set_file. simpl. by apply lookup_insert_ne. Qed.

Lemma string_app_nil_r a : a +:+ "" = a.
Proof.
  induction a as [|x a IH]; [done|].
  change (String x (a +:+ "") = String x a). by rewrite IH.
Qed.

Section Facts.

Variable path_join : list string -> string.

Context {host : Host}.

Local Abbreviation header := (Logger.header path_join).
Local Abbreviation updateWriter := (Logger.updateWriter path_join).
Local Abbreviation open_with := (Logger.open_with path_join).
Local Abbreviation log := (Logger.log path_join).

(** The text of a closed stream: an opening brace first, a closing
    bracket last. *)
Lemma closed_text_not_json this body :
  ~ well_formed (header this +:+ body +:+ footer).
Proof.
  set (text := header this +:+ body +:+ footer).
  assert (Hfirst : exists s, list_ascii_of_string text = "{"%char :: s).
  { unfold text, Logger.header. simpl. eauto. }
  destruct Hfirst as [s Hs].
  apply (unclosed_object_rejected text "{"%char s "]"%char); try done.
  rewrite <- Hs. unfold text.
  rewrite !list_ascii_app, app_assoc.
  unfold last_visible. rewrite filter_app.
  change (filter _ (list_ascii_of_string footer)) with ["]"%char].
  apply last_snoc.
Qed.

(** A write to a stream that is open. *)
Lemma write_open w data (disk : fs) :
  ended w = false -> failed w = None ->
  write w data disk
    = (w, set_file (target w) (default "" (disk !! target w) +:+ data) disk).
Proof. intros He Hf. unfold write. by rewrite Hf, He. Qed.

Lemma stop_closes this (disk : fs) body :
  open_with this disk body ->
  exists w, writer this = Some w
    /\ (stop this disk).2 !! target w = Some (header this +:+ body +:+ footer)
    /\ writer (stop this disk).1
       = Some {| target := target w; ended := true; failed := None |}.
Proof.
  intros (w & Hw & Hopen & Hok & Hfile). exists w. split; [done|].
  unfold stop, end_. rewrite Hw, write_open by done. simpl.
  rewrite lookup_set_file_eq, Hfile, Hok. simpl.
  split; [|done]. by rewrite string_app_assoc.
Qed.

(** A record logged on the day of the open stream is appended to its
    file. *)
Lemma log_appends this (disk : fs) body now
    method construct inInstance inputParams output text :
  open_with this disk body ->
  fileName this = Some (getFileName this now) ->
  stringify_pretty (record method construct inInstance inputParams output)
    = Normal (Some text) ->
  exists this' disk',
    log this method construct inInstance inputParams output now disk
      = (Normal (), this', disk')
    /\ open_with this' disk' (body +:+ newline +:+ text).
Proof.
  intros (w & Hw & Hopen & Hok & Hfile) Hname Htext.
  unfold Logger.log, Logger.updateWriter. rewrite Hname.
  rewrite bool_decide_eq_true_2 by done. rewrite Htext, Hw. simpl.
  rewrite write_open by done.
  do 2 eexists; split; [done|]. exists w. repeat split; try done.
  simpl. rewrite lookup_set_file_eq, Hfile. simpl.
  by rewrite string_app_assoc.
Qed.

(** Claim C6 (a defect of the code).  When a stream that is open on the
    header and some records is closed, by [stop] or by the rollover of
    [updateWriter] on another day, its file holds the header, the records
    and the footer, and that text is no JSON document: the header opens an
    object and an array, the footer closes the array only. *)
Theorem closed_stream_is_not_json this (disk : fs) body :
  open_with this disk body ->
  exists path,
    (target <$> writer this) = Some path
    /\ (stop this disk).2 !! path = Some (header this +:+ body +:+ footer)
    /\ (forall now,
          fileName this <> Some (getFileName this now) ->
          path_join [logdir this; getFileName this now] <> path ->
          (updateWriter this now disk).2 !! path
            = Some (header this +:+ body +:+ footer))
    /\ ~ well_formed (header this +:+ body +:+ footer).
Proof.
  intros Hopen. destruct (stop_closes this disk body Hopen) as (w & Hw & Hstop & Hended).
  exists (target w). split; [by rewrite Hw|]. split; [done|].
  split; [|apply closed_text_not_json].
  intros now Hday Hpath. unfold Logger.updateWriter.
  rewrite bool_decide_eq_false_2 by congruence.
  destruct (stop this disk) as [this1 disk1] eqn:Hs. simpl in *.
  assert (Hdir : logdir this1 = logdir this).
  { unfold stop in Hs. rewrite Hw in Hs. simpl in Hs.
    destruct (end_ w footer disk). by injection Hs as <- _. }
  rewrite Hdir.
  assert (Hcreate : (createWriteStream (path_join [logdir this; getFileName this now])
                       disk1).2 !! target w = disk1 !! target w).
  { unfold createWriteStream. repeat destruct (bool_decide _); try done.
    simpl. by rewrite lookup_set_file_ne. }
  assert (Htarget : target (createWriteStream (path_join [logdir this; getFileName this now])
                              disk1).1 = path_join [logdir this; getFileName this now]).
  { unfold createWriteStream. by repeat destruct (bool_decide _). }
  destruct (createWriteStream _ disk1) as [w1 disk2]. simpl in *.
  assert (Hwrite : forall data, (write w1 data disk2).2 !! target w = disk2 !! target w).
  { intros data. unfold write. destruct (failed w1); [done|]. destruct (ended w1); [done|].
    simpl. rewrite lookup_set_file_ne; [done|congruence]. }
  specialize (Hwrite (header
    {| logdir := logdir this; fileBaseName := fileBaseName this1;
       sourcePath := sourcePath this1; fileName := Some (getFileName this now);
       writer := Some w1 |})).
  destruct (write w1 _ disk2) as [w2 disk3]. simpl in *. congruence.
Qed.

End Facts.

End LoggerFacts.

(* ===================================================================== *)
(** * Facts about the construction of a Tcgen instance *)
(* ===================================================================== *)

Module ConstructionFacts.
Import Tcgen.

Section Facts.

Variable path_join : list string -> string.
Variable sep : string.
Variable tmpdir : string.
Variable MODULE_CODE : string.
Variable disk : string -> option node.
Variable mkdirp_error : value -> option value.

Local Abbreviation new := (Tcgen.new path_join sep tmpdir MODULE_CODE disk mkdirp_error).
Local Abbreviation walkSync := (Tcgen.walkSync path_join disk).

Lemma assert_typeof_fails v type message :
  typeof v <> type -> assert_typeof v type message = Abrupt (AssertionError message).
Proof.
  intros H. unfold assert_typeof.
  destruct (String.eqb_spec (typeof v) type); [done|reflexivity].
Qed.

Lemma assert_typeof_holds v type message :
  typeof v = type -> assert_typeof v type message = Normal ().
Proof. intros <-. unfold assert_typeof. by rewrite String.eqb_refl. Qed.

(** Claim C10 (a defect of the code).  A config that is not of type
    object, or whose [srcdir] is not of type string, makes the
    constructor throw an assertion error before any operation on the file
    system.  With both in order and no [destdir] given, the default is
    made from a segment of [srcdir], the third from the end or the first
    of two: a [srcdir] of one segment has none, [path.join] is given
    [undefined] and throws a TypeError, before any operation on the file
    system.  Where a [destdir] is given or the segment is there, the
    instance holds [srcdir], that [destdir] and the files [walkSync]
    finds, provided [mkdirpSync] and the walk do not throw; what they
    throw is not caught. *)
Theorem construction config :
  (typeof config <> "object" ->
     new config = (Abrupt (AssertionError "config MUST_BE_OBJECT"), []))
  /\ (forall v,
        typeof config = "object" -> get config "srcdir" = Normal v ->
        typeof v <> "string" ->
        new config = (Abrupt (AssertionError "srcdir MUST_BE_STRING"), []))
  /\ (forall src given,
        typeof config = "object" ->
        get config "srcdir" = Normal (VStr src) ->
        get config "destdir" = Normal given ->
        truthy given = false ->
        Str.slice (-3) (-1) (Str.split sep src) = [] ->
        new config
          = (Abrupt (TypeError "The path argument must be of type string"), []))
  /\ (forall src given dest,
        typeof config = "object" ->
        get config "srcdir" = Normal (VStr src) ->
        get config "destdir" = Normal given ->
        (truthy given = true /\ dest = given
         \/ truthy given = false
            /\ exists segment,
                 head (Str.slice (-3) (-1) (Str.split sep src)) = Some segment
                 /\ dest = VStr (path_join [tmpdir; MODULE_CODE; segment])) ->
        (forall e, mkdirp_error dest = Some e ->
           new config = (Abrupt e, [Mkdirp dest]))
        /\ (mkdirp_error dest = None ->
            forall e, walkSync src = Abrupt e ->
            new config = (Abrupt e, [Mkdirp dest; Readdir src]))
        /\ (mkdirp_error dest = None ->
            forall files, walkSync src = Normal files ->
            new config
              = (Normal {| mainModuleCodeUpper := toUpperCase MODULE_CODE;
                           srcdir := src;
                           destdir := dest;
                           filelist := files |},
                 [Mkdirp dest; Readdir src]))).
Proof.
  split; [|split; [|split]].
  - intros Hconfig. unfold Tcgen.new. by rewrite assert_typeof_fails.
  - intros v Hconfig Hsrc Hv. unfold Tcgen.new.
    rewrite assert_typeof_holds, Hsrc by done. simpl.
    by rewrite assert_typeof_fails.
  - intros src given Hconfig Hsrc Hgiven Hfalsy Hnone. unfold Tcgen.new.
    rewrite assert_typeof_holds, Hsrc by done. simpl.
    rewrite Hgiven. simpl. by rewrite Hfalsy, Hnone.
  - intros src given dest Hconfig Hsrc Hgiven Hdest.
    assert (Hd : (if truthy given then Normal given
                  else join path_join
                         [VStr tmpdir; VStr MODULE_CODE;
                          first (Str.slice (-3) (-1) (Str.split sep src))])
                 = Normal dest).
    { destruct Hdest as [[-> ->]|[-> (segment & Hseg & ->)]]; [done|].
      unfold first. by rewrite Hseg. }
    unfold Tcgen.new. rewrite assert_typeof_holds, Hsrc by done. cbn [bind].
    rewrite assert_typeof_holds by done. cbn [bind]. rewrite Hgiven. cbn [bind].
    rewrite Hd. cbn [bind]. rewrite assert_typeof_holds by done. cbn [bind].
    split; [|split].
    + by intros e ->.
    + intros -> e He. unfold walkSync in *. by rewrite He.
    + intros -> files Hfiles. unfold walkSync in *. by rewrite Hfiles.
Qed.

End Facts.

End ConstructionFacts.

(* ===================================================================== *)
(** * The sample programs, run *)
(* ===================================================================== *)

Module Scenarios.
Import Executor Tcgen Cases.

#[local] Existing Instance host.

Lemma silent_quiet h : quiet silent h.
Proof.
  intros args s. revert s; induction h as [n| |target IH|prev _|]; intros s; simpl;
    eauto.
Qed.

(** ** The executor *)

(** A callable run the way the constructor of [Executor] documents it
    gives its result to [returnValue]. *)
Example normalizer_keeps_result :
  returnValue (execute silent (fun _ => add) normalizer [VNum 2; VNum 3] (init tt)).2
    = Some (VNum 5).
Proof. reflexivity. Qed.

(** Claim C9, as it is stated, fails: on the constructor path with
    [isAsync] set, [returnValue], unassigned before, holds the promise
    after [execute]. *)
Lemma constructor_path_assigns_returnValue :
  truthy (construct constructing) = true
  /\ returnValue constructing = None
  /\ returnValue (execute silent (fun _ => Point) constructing [] (init tt)).2
     = Some (VPromise (Fulfilled (VObj []))).
Proof. repeat split. Qed.



(** Claim C5, as it is stated, fails twice: a first argument [false] is
    not null and yet settles success; and when the handler throws, the
    wrapping callback throws and the original callback is not called. *)
Lemma wrapper_settles_on_truthiness :
  (trace (cb silent normalizer (FUser 2) [VBool false; VStr "x"] (init tt)).2
     = [Fired [VNull; VStr "x"]; Forwarded [VBool false; VStr "x"]]
   /\ prm (cb silent normalizer (FUser 2) [VBool false; VStr "x"] (init tt)).2
      = Some (Fulfilled (VStr "x")))
  /\ (cb handler_throws normalizer (FUser 2) [VNull; VStr "x"] (init tt)).1
     = Abrupt failure
  /\ forwarded (cb handler_throws normalizer (FUser 2) [VNull; VStr "x"] (init tt)).2
     = [].
Proof. repeat split. Qed.

(** With [isAsync] left out and a function in last position, that
    function is replaced by the wrapping callback. *)
Lemma callback_wrapper_witness :
  outputHandler normalizer = VFun (FUser 1)
  /\ quiet silent (FUser 1)
  /\ is_false (isAsync normalizer) = false
  /\ is_one (isAsync normalizer) = false
  /\ last_elem [VNum 1; VFun (FUser 2)] = VFun (FUser 2)
  /\ returnWithCB normalizer [VNum 1; VFun (FUser 2)] = Some (FUser 2)
  /\ last_elem (wrap_payload normalizer [VNum 1; VFun (FUser 2)]) = VFun (FCb (FUser 2)).
Proof.
  do 5 (split; [try reflexivity; apply silent_quiet|]).
  pose proof (ExecutorFacts.callback_wrapper silent normalizer (FUser 1)
                [VNum 1; VFun (FUser 2)] (FUser 2) eq_refl (silent_quiet _)
                eq_refl eq_refl eq_refl) as (Hstyle & Hlast & _).
  exact (conj Hstyle Hlast).
Defined.



(** ** The interceptor *)

(** [add(2, 3)] through the wrapper: [add] returns 5, the caller gets
    [undefined]. *)
Lemma wrapper_returns_undefined_witness :
  truthy (isConstructor add_wrapper) = false
  /\ on_call (calc_impl (FUser 2)) [VNum 2; VNum 3] = Return (VNum 5)
  /\ (mainCall calc_impl replies add_wrapper [VNum 2; VNum 3] add_world).1
     = Normal VUndefined.
Proof.
  split; [reflexivity|]. split; [reflexivity|].
  exact (InterceptorFacts.wrapper_returns_undefined calc_impl replies add_wrapper
           [VNum 2; VNum 3] add_world eq_refl).
Defined.

(** [add] is not even called: a method is not a constructor, so the
    executor, constructing, fails before the body runs, and what it fails
    with, the output handler being the value of [prop], stays in the
    promise. *)
Example wrapped_add_is_not_called :
  prm (mainCall calc_impl replies add_wrapper [VNum 2; VNum 3] add_world).2
    = Some (Rejected (TypeError "this.outputHandler is not a function")).
Proof. reflexivity. Qed.

(** [add(2, 3)] twice through the wrapper: the logger is never called,
    and [applyArgs] grows by one snapshot of the arguments per call. *)
Lemma wrapper_records_nothing_witness :
  is_onDone (prop add_wrapper) = false
  /\ is_onDone (last_elem [VNum 2; VNum 3]) = false
  /\ logged (Executor.world
               (mainCall calc_impl replies add_wrapper [VNum 2; VNum 3] add_world).2) = []
  /\ exists snapshots,
       map_clonePrimitive [VNum 2; VNum 3] = Normal snapshots
       /\ applyArgs (Executor.world
                       (mainCall calc_impl replies add_wrapper [VNum 2; VNum 3] add_world).2)
          = applyArgs add_world ++ [VArr snapshots].
Proof.
  split; [reflexivity|]. split; [reflexivity|].
  exact (InterceptorFacts.wrapper_records_nothing calc_impl replies add_wrapper
           [VNum 2; VNum 3] add_world eq_refl eq_refl).
Defined.

Example second_call_accumulates :
  let first := Executor.world
                 (mainCall calc_impl replies add_wrapper [VNum 2; VNum 3] add_world).2 in
  let second := Executor.world
                  (mainCall calc_impl replies add_wrapper [VNum 4; VNum 5] first).2 in
  applyArgs second = [VBool false; VBool false; VNull;
                      VArr [VNum 2; VNum 3]; VArr [VNum 4; VNum 5]]
  /\ logged second = [].
Proof. split; reflexivity. Qed.


(** ** The instrumenter *)

Lemma calc_instrumented_eq :
  calc_instrumented = (Normal (Some (new_Calc, Calc_recorder)), calc_instrumented.2).
Proof. vm_compute. reflexivity. Qed.

(** The members of [Calc.prototype] after [instrumentClass]:
    [constructor] and [add] are wrapped, both with [isConstructor]
    false. *)
Lemma constructor_flag_witness :
  prototype Calc = Some [("constructor", VFun (FUser 1)); ("add", VFun (FUser 2));
                         ("version", VNum 3)]
  /\ Forall2 (fun before after =>
                after.1 = before.1
                /\ if String.eqb (typeof before.2) "function"
                   then exists w σ, after.2 = Intercepted w σ
                          /\ isConstructor w = VBool false
                          /\ prop w = VBool (String.eqb before.1 "constructor")
                   else after.2 = Plain before.2)
             [("constructor", VFun (FUser 1)); ("add", VFun (FUser 2)); ("version", VNum 3)]
             (new_prototype new_Calc).
Proof.
  split; [reflexivity|].
  exact (InstrumenterFacts.constructor_flag_is_never_set posix_join "/" project
           "/home/u/proj/src/calc.js" Calc _ monday home new_Calc Calc_recorder
           calc_instrumented.2 eq_refl calc_instrumented_eq).
Defined.

Example constructor_member_flag :
  flag_of "constructor" new_Calc = Some (VBool false)
  /\ flag_of "add" new_Calc = Some (VBool false).
Proof. split; vm_compute; reflexivity. Qed.

(** ** The recorder *)

Lemma calc_recorder_open :
  Logger.open_with posix_join calc_recorder.1 calc_recorder.2 "".
Proof.
  eexists. split; [vm_compute; reflexivity|]. repeat split.
Qed.

(** The recorder of [lib/calc], stopped: its file is not a JSON
    document. *)
Lemma closed_stream_witness :
  Logger.open_with posix_join calc_recorder.1 calc_recorder.2 ""
  /\ exists path,
       (Logger.target <$> Logger.writer calc_recorder.1) = Some path
       /\ (Logger.stop calc_recorder.1 calc_recorder.2).2 !! path
          = Some (Logger.header posix_join calc_recorder.1 +:+ "" +:+ Logger.footer)
       /\ ~ Json.well_formed
            (Logger.header posix_join calc_recorder.1 +:+ "" +:+ Logger.footer).
Proof.
  split; [exact calc_recorder_open|].
  destruct (LoggerFacts.closed_stream_is_not_json posix_join calc_recorder.1
              calc_recorder.2 "" calc_recorder_open) as (path & Hpath & Hstop & _ & Hjson).
  exists path. exact (conj Hpath (conj Hstop Hjson)).
Defined.

(** A record before the rollover and one after: two files, each with the
    header, its one record and the footer, and neither is a JSON
    document. *)
Example rollover_files :
  dom (Logger.files two_days) = {["out/calcNov_02_2026"; "out/calcNov_03_2026"]}
  /\ two_days !! "out/calcNov_02_2026"
     = Some (Logger.header posix_join calc_recorder.1
             +:+ Json.newline
             +:+ Json.print "" (Json.JObj
                   [("require", Json.JNull);
                    ("request", Json.JObj [("payload", Json.JArr [Json.JNum 2; Json.JNum 3]);
                                           ("construct", Json.JBool false);
                                           ("method", Json.JStr "add")]);
                    ("output", Json.JObj [("output", Json.JNum 5)])])
             +:+ Logger.footer)
  /\ two_days !! "out/calcNov_03_2026"
     = Some (Logger.header posix_join calc_recorder.1
             +:+ Json.newline
             +:+ Json.print "" (Json.JObj
                   [("require", Json.JNull);
                    ("request", Json.JObj [("payload", Json.JArr [Json.JNum 4; Json.JNum 5]);
                                           ("construct", Json.JBool false);
                                           ("method", Json.JStr "add")]);
                    ("output", Json.JObj [("output", Json.JNum 9)])])
             +:+ Logger.footer)
  /\ (Json.is_document <$> two_days !! "out/calcNov_02_2026") = Some false
  /\ (Json.is_document <$> two_days !! "out/calcNov_03_2026") = Some false.
Proof. repeat split; vm_compute; reflexivity. Qed.

(** The recogniser accepts what [JSON.stringify] prints. *)
Example record_is_a_document :
  Json.is_document
    (Json.print "" (Json.JObj
       [("require", Json.JNull);
        ("request", Json.JObj [("payload", Json.JArr [Json.JNum 2; Json.JNum 3]);
                               ("construct", Json.JBool false);
                               ("method", Json.JStr "add")]);
        ("output", Json.JObj [("output", Json.JNum 5)])]))
    = true.
Proof. vm_compute. reflexivity. Qed.

(** ** The constructor of Tcgen *)

(** A [srcdir] of one segment and no [destdir]: the config is in order,
    and the constructor throws the TypeError of [path.join]. *)
Lemma construction_witness :
  typeof (VObj [("srcdir", VStr "src")]) = "object"
  /\ Tcgen.get (VObj [("srcdir", VStr "src")]) "srcdir" = Normal (VStr "src")
  /\ Tcgen.get (VObj [("srcdir", VStr "src")]) "destdir" = Normal VUndefined
  /\ Tcgen.new posix_join "/" "/tmp" "tcgen" (disk_at "src") mkdirp_succeeds
               (VObj [("srcdir", VStr "src")])
     = (Abrupt (TypeError "The path argument must be of type string"), []).
Proof.
  do 3 (split; [reflexivity|]).
  pose proof (ConstructionFacts.construction posix_join "/" "/tmp" "tcgen"
                (disk_at "src") mkdirp_succeeds (VObj [("srcdir", VStr "src")]))
    as (_ & _ & Hslip & _).
  exact (Hslip "src" VUndefined eq_refl eq_refl eq_refl eq_refl eq_refl).
Defined.

(** What [readdirSync] throws is not caught. *)
Example construction_without_directory :
  Tcgen.new posix_join "/" "/tmp" "tcgen" (disk_at "/home/u/proj/src") mkdirp_succeeds
            (VObj [("srcdir", VStr "/home/u/other/src")])
    = (Abrupt (VErr "Error" "ENOENT: no such file or directory, scandir"),
       [Mkdirp (VStr "/tmp/tcgen/u"); Readdir "/home/u/other/src"]).
Proof. reflexivity. Qed.

Example construction_succeeds :
  Tcgen.new posix_join "/" "/tmp" "tcgen" (disk_at "/home/u/proj/src") mkdirp_succeeds
            (VObj [("srcdir", VStr "/home/u/proj/src")])
    = (Normal {| mainModuleCodeUpper := "TCGEN";
                 srcdir := "/home/u/proj/src";
                 destdir := VStr "/tmp/tcgen/u";
                 filelist := ["/home/u/proj/src/a.js"; "/home/u/proj/src/lib/b.js"] |},
       [Mkdirp (VStr "/tmp/tcgen/u"); Readdir "/home/u/proj/src"]).
Proof. reflexivity. Qed.

(** A config that is [null] is of type object; reading its [srcdir]
    throws a type error, before any operation on the file system. *)
Example construction_with_null :
  Tcgen.new posix_join "/" "/tmp" "tcgen" (disk_at "src") mkdirp_succeeds VNull
    = (Abrupt (TypeError "Cannot read properties of undefined or null"), []).
Proof. reflexivity. Qed.

End Scenarios.

(* ===================================================================== *)
(** * More about the executor *)
(* ===================================================================== *)

Module ExecutorMore.
Import Executor ExecutorFacts Further.

Section Facts.

Context {W : Type}.
Variable extern : fid -> list value -> W -> completion * W.
Variable impl : fid -> callable.

Local Abbreviation state := (st (W := W)).
Local Abbreviation apply_plain := (apply_plain extern).
Local Abbreviation call_value := (call_value extern).
Local Abbreviation fire := (fire extern).
Local Abbreviation resolving := (resolving extern).
Local Abbreviation rejecting := (rejecting extern).
Local Abbreviation cb := (cb extern).
Local Abbreviation run := (run extern).
Local Abbreviation call_last := (call_last extern).
Local Abbreviation try_block := (try_block extern impl).
Local Abbreviation executor_fn := (executor_fn extern impl).
Local Abbreviation react := (react extern).
Local Abbreviation run_later := (run_later extern impl).
Local Abbreviation execute := (execute extern impl).
Local Abbreviation quiet := (quiet extern).
Local Abbreviation throws_always := (throws_always extern).

(** ** The arguments the callable receives *)

Lemma set_last_snoc front x v : set_last (front ++ [x]) v = front ++ [v].
Proof.
  unfold set_last. destruct (front ++ [x]) eqn:E; [by destruct front|].
  rewrite <- E. by rewrite removelast_last.
Qed.

(** Extra X1.  Lines 61 to 69 change nothing but the last argument: the
    callable receives as many arguments as [execute] got, the same ones
    up to the last; and all of them unchanged when [isAsync] is [false]
    or [1], or when the last one is not a function. *)
Theorem only_the_last_argument_changes this payload :
  length (wrap_payload this payload) = length payload
  /\ removelast (wrap_payload this payload) = removelast payload
  /\ (is_false (isAsync this) || is_one (isAsync this) = true
      \/ typeof (last_elem payload) <> "function" ->
      wrap_payload this payload = payload).
Proof.
  unfold wrap_payload.
  destruct (returnWithCB this payload) as [prevCb|] eqn:Hcs.
  - assert (Hlast : last_elem payload = VFun prevCb).
    { unfold returnWithCB in Hcs. destruct (negb _ && negb _); [|done].
      destruct (last_elem payload); try done. by injection Hcs as ->. }
    destruct (last_elem_function payload prevCb Hlast) as [front ->].
    rewrite set_last_snoc, !removelast_last, !length_app.
    repeat split; try done.
    intros [Hoff|Hnot].
    + unfold returnWithCB in Hcs.
      destruct (is_false (isAsync this)), (is_one (isAsync this)); done.
    + by rewrite Hlast in Hnot.
  - done.
Qed.

(** ** The first settlement decides *)

Lemma try_block_settled this h payload (s : state) fate :
  outputHandler this = VFun h -> quiet h ->
  prm s = Some fate -> prm (try_block this payload s).1.2 = Some fate.
Proof.
  intros Hh Hq Hs. unfold Executor.try_block.
  destruct (truthy (construct this)), (method this) as [| | | | | | | | |g| |];
    simpl; try done.
  - destruct (on_new (body_of impl g)); simpl; [|done]. by apply run_settled with h.
  - pose proof (run_settled extern this h (returnWithCB this payload) (last_elem payload)
                  (on_call (body_of impl g) (wrap_payload this payload)) s fate Hh Hq Hs) as H.
    by destruct (Executor.run _ _ _ _ _ s) as [[ret|e] s1].
Qed.

(** Extra X2.  With an output handler that returns normally, a promise
    that is settled stays as it is: a further call of the wrapping
    callback still reaches the handler and the original callback, and
    neither it nor the rest of [execute] changes the settlement. *)
Theorem the_first_settlement_decides this h (s : state) fate :
  outputHandler this = VFun h -> quiet h -> prm s = Some fate ->
  (forall prevCb args,
     prm (cb this prevCb args s).2 = Some fate
     /\ length (fired (cb this prevCb args s).2) = S (length (fired s))
     /\ length (forwarded (cb this prevCb args s).2) = S (length (forwarded s)))
  /\ (forall params, prm (execute this params s).1.2 = Some fate).
Proof.
  intros Hh Hq Hs. split.
  - intros prevCb args.
    destruct (cb_quiet extern this h Hh prevCb args s Hq) as (s1 & -> & Ht & Hp).
    destruct (apply_plain_keeps extern prevCb args (emit (Forwarded args) s1)) as [Hp2 Ht2].
    unfold fired, forwarded. rewrite Hp2, Ht2. simpl.
    rewrite Hp, Ht, !omap_app, !length_app. simpl.
    repeat split; try lia.
    destruct (truthy (at_index args 0)); auto using resolve_settled, reject_settled.
  - intros params. unfold Executor.execute, Executor.executor_fn.
    pose proof (try_block_settled this h params s fate Hh Hq Hs) as Htry.
    destruct (try_block this params s) as [[[ret|er] s1] this1]; simpl in *.
    + destruct (bool_decide _); simpl; [by apply run_later_settled with h|].
      destruct (negb _ && is_promise ret).
      * destruct ret as [| | | | | | | | | | |[|v|e]]; simpl;
          try (by apply run_later_settled with h).
        -- destruct (resolving_quiet extern this h Hh [v] s1 Hq) as (s2 & -> & _ & Hp).
           apply run_later_settled with h; try done.
           rewrite Hp. by apply resolve_settled.
        -- destruct (rejecting_quiet extern this h Hh e s1 Hq) as (s2 & -> & _ & Hp).
           apply run_later_settled with h; try done. simpl.
           rewrite Hp. by apply reject_settled.
      * destruct (resolving_quiet extern this h Hh [ret] s1 Hq) as (s2 & -> & _ & Hp).
        apply run_later_settled with h; try done.
        rewrite Hp. by apply resolve_settled.
    + destruct (rejecting_quiet extern this h Hh er s1 Hq) as (s2 & -> & _ & Hp).
      apply run_later_settled with h; try done.
      rewrite Hp. by apply reject_settled.
Qed.

(** ** The settlement of the promise *)


(** ** An output handler that throws *)

Lemma fire_throws this h e args (s : state) :
  outputHandler this = VFun h -> throws_always h e ->
  exists s', fire this args s = (Abrupt e, s')
    /\ prm s' = prm s /\ trace s' = trace s ++ [Fired args].
Proof.
  intros Hh Ht. unfold Executor.fire. rewrite Hh.
  destruct (Ht args (emit (Fired args) s)) as [s' E].
  destruct (apply_plain_keeps extern h args (emit (Fired args) s)) as [Hp Htr].
  rewrite E in *. simpl in *. eauto.
Qed.

Lemma resolving_throws this h e args (s : state) :
  outputHandler this = VFun h -> throws_always h e ->
  exists s', resolving this args s = (Abrupt e, s')
    /\ prm s' = prm s /\ trace s' = trace s ++ [Fired (VNull :: args)].
Proof.
  intros Hh Ht. unfold Executor.resolving.
  destruct (fire_throws this h e (VNull :: args) s Hh Ht) as (s' & -> & H). eauto.
Qed.

Lemma rejecting_throws this h e er (s : state) :
  outputHandler this = VFun h -> throws_always h e ->
  exists s', rejecting this er s = (Abrupt e, s')
    /\ prm s' = prm s /\ trace s' = trace s ++ [Fired [er]].
Proof.
  intros Hh Ht. unfold Executor.rejecting.
  destruct (fire_throws this h e [er] s Hh Ht) as (s' & -> & H). eauto.
Qed.

(** Extra X4.  With an output handler that throws and no wrapping
    callback, the promise of [execute] is rejected with the error of the
    handler, whatever the callable returned or threw, and the handler was
    called once; only when the callable returned a promise that is
    awaited does the promise of [execute] stay unsettled for good. *)
Theorem a_throwing_handler_rejects this h e params w :
  outputHandler this = VFun h -> throws_always h e ->
  returnWithCB this params = None ->
  match (try_block this params (init w)).1.1 with
  | Normal (VPromise _ as ret) =>
      if is_false (isAsync this)
      then prm (execute this params (init w)).1.2 = Some (Rejected e)
           /\ fired (execute this params (init w)).1.2 = [[VNull; ret]]
      else prm (execute this params (init w)).1.2 = None
  | Normal ret =>
      prm (execute this params (init w)).1.2 = Some (Rejected e)
      /\ fired (execute this params (init w)).1.2 = [[VNull; ret]]
  | Abrupt er =>
      prm (execute this params (init w)).1.2 = Some (Rejected e)
      /\ fired (execute this params (init w)).1.2 = [[er]]
  end.
Proof.
  intros Hh Ht Hcs. unfold Executor.execute, Executor.executor_fn.
  destruct (try_block_plain extern impl this params (init w) Hcs) as [Hp Htr].
  destruct (try_block this params (init w)) as [[[ret|er] s1] this1]; simpl in *.
  - rewrite Hcs. simpl.
    assert (Hsync :
      let s4 := run_later this params
                  (reject e (resolving this [ret] s1).2) in
      (resolving this [ret] s1).1 = Abrupt e ->
      prm s4 = Some (Rejected e) /\ fired s4 = [[VNull; ret]]).
    { intros s4 _. subst s4.
      destruct (resolving_throws this h e [ret] s1 Hh Ht) as (s2 & -> & Hp2 & Ht2). simpl.
      destruct (run_later_plain extern impl this params (reject e s2) Hcs) as [Hp3 Ht3].
      unfold fired. rewrite Hp3, Ht3. unfold reject. rewrite Hp2, Hp. simpl.
      by rewrite Ht2, Htr. }
    assert (Hres : (resolving this [ret] s1).1 = Abrupt e).
    { by destruct (resolving_throws this h e [ret] s1 Hh Ht) as (s2 & -> & _). }
    destruct ret as [| | | | | | | | | | |fate]; simpl; rewrite ?andb_false_r;
      try (destruct (resolving this _ s1) as [c s2]; simpl in *; subst c; by apply Hsync).
    rewrite andb_true_r. destruct (is_false (isAsync this)); simpl.
    + destruct (resolving this _ s1) as [c s2]; simpl in *; subst c; by apply Hsync.
    + destruct (run_later_plain extern impl this params (react this fate s1) Hcs) as [-> _].
      destruct fate as [|v|er]; simpl; [done| |].
      * destruct (resolving_throws this h e [v] s1 Hh Ht) as (s2 & -> & Hp2 & _).
        destruct (rejecting_throws this h e e s2 Hh Ht) as (s3 & -> & Hp3 & _). simpl.
        congruence.
      * destruct (rejecting_throws this h e er s1 Hh Ht) as (s2 & -> & Hp2 & _). simpl.
        congruence.
  - destruct (rejecting_throws this h e er s1 Hh Ht) as (s2 & -> & Hp2 & Ht2). simpl.
    destruct (run_later_plain extern impl this params (reject e s2) Hcs) as [Hp3 Ht3].
    unfold fired. rewrite Hp3, Ht3. unfold reject. rewrite Hp2, Hp. simpl.
    by rewrite Ht2, Htr.
Qed.

(** ** An output handler that is not a function *)

Lemma fire_unhandled this args (s : state) :
  typeof (outputHandler this) <> "function" -> fire this args s = (Abrupt not_callable, s).
Proof. unfold Executor.fire. by destruct (outputHandler this). Qed.

Lemma cb_unhandled this prevCb args (s : state) :
  typeof (outputHandler this) <> "function" ->
  cb this prevCb args s = (Abrupt not_callable, s).
Proof.
  intros Hh. unfold Executor.cb, Executor.resolving, Executor.rejecting.
  rewrite !fire_unhandled by done. by destruct (truthy _).
Qed.

Lemma run_unhandled this wrapped original b (s : state) :
  typeof (outputHandler this) <> "function" ->
  prm (run this wrapped original b s).2 = prm s
  /\ trace (run this wrapped original b s).2 = trace s.
Proof.
  intros Hh. revert s; induction b as [v|e|args k IH]; intros s; simpl; auto.
  destruct wrapped as [prevCb|]; simpl.
  - rewrite cb_unhandled by done. apply IH.
  - destruct (call_value_keeps extern original args s) as [Hp Ht].
    destruct (call_value original args s) as [c s1]; simpl in *.
    destruct (IH c s1) as [Hp' Ht']. split; congruence.
Qed.

Lemma try_block_unhandled this payload (s : state) :
  typeof (outputHandler this) <> "function" ->
  prm (try_block this payload s).1.2 = prm s
  /\ trace (try_block this payload s).1.2 = trace s.
Proof.
  intros Hh. unfold Executor.try_block.
  destruct (truthy (construct this)), (method this) as [| | | | | | | | |g| |];
    simpl; auto.
  - destruct (on_new (body_of impl g)); simpl; auto using run_unhandled.
  - pose proof (run_unhandled this (returnWithCB this payload) (last_elem payload)
                  (on_call (body_of impl g) (wrap_payload this payload)) s Hh) as H.
    by destruct (Executor.run _ _ _ _ _ s) as [[ret|e] s1].
Qed.

Lemma run_later_unhandled this payload (s : state) :
  typeof (outputHandler this) <> "function" ->
  prm (run_later this payload s) = prm s /\ trace (run_later this payload s) = trace s.
Proof.
  intros Hh. unfold Executor.run_later.
  destruct (method this) as [| | | | | | | | |g| |]; auto.
  destruct (truthy (construct this)), (on_new (body_of impl g));
    auto using run_unhandled.
Qed.

(** Extra X5.  When the output handler is not a function ([null], or the
    boolean the interceptor passes in its place), [execute] calls neither
    a handler nor the original callback; its promise is never fulfilled:
    it is rejected with the TypeError of the call of the handler when the
    callable threw, or returned without wrapping callback a value that is
    not awaited, and stays unsettled otherwise. *)
Theorem without_a_handler_nothing_fires this params w :
  typeof (outputHandler this) <> "function" ->
  trace (execute this params (init w)).1.2 = []
  /\ prm (execute this params (init w)).1.2 =
       match (try_block this params (init w)).1.1 with
       | Abrupt _ => Some (Rejected not_callable)
       | Normal ret =>
           if bool_decide (is_Some (returnWithCB this params))
              || negb (is_false (isAsync this)) && is_promise ret
           then None
           else Some (Rejected not_callable)
       end.
Proof.
  intros Hh. unfold Executor.execute, Executor.executor_fn.
  destruct (try_block_unhandled this params (init w) Hh) as [Hp Htr].
  assert (Hlater : forall s2, prm (run_later this params s2) = prm s2
                              /\ trace (run_later this params s2) = trace s2)
    by (intros; by apply run_later_unhandled).
  destruct (try_block this params (init w)) as [[[ret|er] s1] this1]; simpl in *.
  - destruct (bool_decide _); simpl.
    { destruct (Hlater s1) as [-> ->]. done. }
    destruct (negb _ && is_promise ret) eqn:Haw.
    + destruct ret as [| | | | | | | | | | |[|v|er]]; simpl;
        try (rewrite andb_false_r in Haw; discriminate).
      * destruct (Hlater s1) as [-> ->]. done.
      * unfold Executor.resolving, Executor.rejecting.
        rewrite !fire_unhandled by done. simpl.
        destruct (Hlater s1) as [-> ->]. done.
      * unfold Executor.rejecting. rewrite !fire_unhandled by done. simpl.
        destruct (Hlater s1) as [-> ->]. done.
    + unfold Executor.resolving. rewrite fire_unhandled by done. simpl.
      destruct (Hlater (reject not_callable s1)) as [-> ->].
      unfold reject. rewrite Hp. done.
  - unfold Executor.rejecting. rewrite fire_unhandled by done. simpl.
    destruct (Hlater (reject not_callable s1)) as [-> ->].
    unfold reject. rewrite Hp. done.
Qed.

(** ** A method that is not a function *)

(** Extra X6.  When [method] is not a function (the name of a method, as
    the constructor documents it), nothing is called but the output
    handler: with a handler that returns normally it receives one
    TypeError as its only argument, the promise is rejected with that
    same error, no callback is reached, and [returnValue] stays as the
    constructor left it unless [isAsync] is truthy. *)
Theorem a_method_name_is_not_called this h params w :
  typeof (method this) <> "function" ->
  outputHandler this = VFun h -> quiet h ->
  exists msg,
    fired (execute this params (init w)).1.2 = [[TypeError msg]]
    /\ forwarded (execute this params (init w)).1.2 = []
    /\ prm (execute this params (init w)).1.2 = Some (Rejected (TypeError msg))
    /\ (truthy (isAsync this) = false -> (execute this params (init w)).2 = this).
Proof.
  intros Hm Hh Hq.
  assert (Htry : exists msg,
             try_block this params (init w) = (Abrupt (TypeError msg), init w, this)).
  { unfold Executor.try_block.
    destruct (truthy (construct this)), (method this); try done; eauto. }
  destruct Htry as [msg Htry]. exists msg.
  unfold Executor.execute, Executor.executor_fn. rewrite Htry.
  destruct (rejecting_quiet extern this h Hh (TypeError msg) (init w) Hq)
    as (s2 & E & Ht & Hp).
  rewrite E. simpl in *.
  assert (Hlater : run_later this params s2 = s2).
  { unfold Executor.run_later. by destruct (method this). }
  rewrite Hlater.
  unfold fired, forwarded. rewrite Ht, Hp. simpl. repeat split; try done.
  by intros ->.
Qed.

End Facts.

End ExecutorMore.

(* ===================================================================== *)
(** * More about the recorder *)
(* ===================================================================== *)

Module LoggerMore.
Import Json JsonFacts Logger LoggerFacts Further.

Section Facts.

Variable path_join : list string -> string.

Context {host : Host}.

Local Abbreviation header := (Logger.header path_join).
Local Abbreviation updateWriter := (Logger.updateWriter path_join).
Local Abbreviation open_with := (Logger.open_with path_join).
Local Abbreviation log := (Logger.log path_join).
Local Abbreviation new := (Logger.new path_join).
Local Abbreviation wired := (Further.wired path_join).

Implicit Types disk : fs.

(** ** The stream and the file name *)

Lemma write_stream w data disk :
  target (write w data disk).1 = target w
  /\ (ended w = true -> ended (write w data disk).1 = true).
Proof.
  unfold write. destruct (failed w); [done|]. by destruct (ended w).
Qed.

Lemma createWriteStream_stream path disk :
  target (createWriteStream path disk).1 = path
  /\ ended (createWriteStream path disk).1 = false.
Proof. unfold createWriteStream. by repeat destruct (bool_decide _). Qed.

Lemma stop_fields this disk :
  logdir (stop this disk).1 = logdir this
  /\ fileBaseName (stop this disk).1 = fileBaseName this
  /\ sourcePath (stop this disk).1 = sourcePath this
  /\ fileName (stop this disk).1 = fileName this
  /\ (target <$> writer (stop this disk).1) = (target <$> writer this).
Proof.
  unfold stop, end_. destruct (writer this) as [w|] eqn:E; [|simpl; by rewrite ?E].
  destruct (write_stream w footer disk) as [Ht _].
  destruct (write w footer disk) as [w1 disk1]. simpl in *. by rewrite ?E, Ht.
Qed.

Lemma updateWriter_fields this now disk :
  logdir (updateWriter this now disk).1 = logdir this
  /\ fileBaseName (updateWriter this now disk).1 = fileBaseName this
  /\ sourcePath (updateWriter this now disk).1 = sourcePath this
  /\ fileName (updateWriter this now disk).1 = Some (getFileName this now).
Proof.
  unfold Logger.updateWriter. destruct (bool_decide _) eqn:E.
  - apply bool_decide_eq_true_1 in E. done.
  - destruct (stop_fields this disk) as (Hd & Hb & Hs & _).
    destruct (stop this disk) as [this1 disk1].
    destruct (createWriteStream _ disk1) as [w disk2].
    destruct (write w _ disk2) as [w' disk3]. simpl in *. done.
Qed.

(** The stream [updateWriter] leaves. *)
Lemma updateWriter_target this now disk :
  wired this = true ->
  (target <$> writer (updateWriter this now disk).1)
    = Some (path_join [logdir this; getFileName this now]).
Proof.
  intros Hw. unfold Logger.updateWriter. destruct (bool_decide _) eqn:E.
  - apply bool_decide_eq_true_1 in E. unfold Further.wired in Hw. rewrite <- E in Hw.
    simpl. destruct (writer this) as [w|]; [|done]. simpl.
    by apply String.eqb_eq in Hw as ->.
  - destruct (stop_fields this disk) as (Hd & _).
    destruct (stop this disk) as [this1 disk1]. simpl in Hd.
    destruct (createWriteStream_stream (path_join [logdir this1; getFileName this now]) disk1)
      as [Ht _].
    destruct (createWriteStream _ disk1) as [w disk2].
    match goal with |- context [write w ?d disk2] =>
      destruct (write_stream w d disk2) as [Ht' _]; destruct (write w d disk2) as [w' disk3]
    end.
    simpl in *. by rewrite Ht', Ht, Hd.
Qed.

Lemma updateWriter_wired this now disk :
  wired this = true -> wired (updateWriter this now disk).1 = true.
Proof.
  intros Hw. pose proof (updateWriter_target this now disk Hw) as Ht.
  destruct (updateWriter_fields this now disk) as (Hd & _ & _ & Hn).
  unfold Further.wired. rewrite Hn, Hd.
  destruct (writer _) as [w|]; [|done]. simpl in Ht. injection Ht as ->.
  apply String.eqb_refl.
Qed.

(** What [log] leaves of the recorder: the recorder [updateWriter]
    leaves, with the stream as the write left it. *)
Lemma log_fields this method construct inInstance inputParams output now disk :
  let after := (log this method construct inInstance inputParams output now disk).1.2 in
  let before := (updateWriter this now disk).1 in
  logdir after = logdir before /\ fileBaseName after = fileBaseName before
  /\ sourcePath after = sourcePath before /\ fileName after = fileName before
  /\ (target <$> writer after) = (target <$> writer before).
Proof.
  unfold Logger.log. destruct (updateWriter this now disk) as [this1 disk1]. simpl.
  destruct (stringify_pretty _) as [text|e]; [|done].
  destruct (writer this1) as [w|] eqn:Hw; [|simpl; by rewrite ?Hw].
  match goal with |- context [write w ?d disk1] =>
    destruct (write_stream w d disk1) as [Ht _]; destruct (write w d disk1) as [w' disk2]
  end.
  simpl in *. by rewrite ?Hw, Ht.
Qed.

(** Extra X7.  The stream of a recorder is always the one of its file
    name: [new] opens the stream on [join(logdir, fileName)], and
    [updateWriter], [stop] and [log] keep that; [log] leaves the file
    name of the day it is called on, and the three fields set by the
    constructor as they were. *)
Theorem the_stream_follows_the_file_name :
  (forall dir sourcePath base now disk, wired (new dir sourcePath base now disk).1 = true)
  /\ (forall this now disk, wired this = true ->
        wired (updateWriter this now disk).1 = true)
  /\ (forall this disk, wired this = true -> wired (stop this disk).1 = true)
  /\ (forall this method construct inInstance inputParams output now disk,
        let after := (log this method construct inInstance inputParams output now disk).1.2 in
        (wired this = true -> wired after = true)
        /\ fileName after = Some (getFileName this now)
        /\ logdir after = logdir this
        /\ fileBaseName after = fileBaseName this
        /\ sourcePath after = sourcePath this).
Proof.
  split; [|split; [|split]].
  - intros. by apply updateWriter_wired.
  - intros. by apply updateWriter_wired.
  - intros this disk Hw.
    destruct (stop_fields this disk) as (Hd & _ & _ & Hn & Ht).
    unfold Further.wired in *. rewrite Hn, Hd.
    destruct (fileName this); [|done].
    destruct (writer this), (writer (stop this disk).1); simpl in Ht; try done.
    by injection Ht as ->.
  - intros this method construct inInstance inputParams output now disk after.
    destruct (log_fields this method construct inInstance inputParams output now disk)
      as (Hd & Hb & Hs & Hn & Ht).
    destruct (updateWriter_fields this now disk) as (Hd' & Hb' & Hs' & Hn').
    subst after. rewrite Hd, Hb, Hs, Hn. repeat split; try done.
    intros Hw. apply (updateWriter_wired this now disk) in Hw.
    unfold Further.wired in *. rewrite Hd, Hn.
    destruct (fileName (updateWriter this now disk).1); [|done].
    destruct (writer (updateWriter this now disk).1), (writer _); simpl in Ht; try done.
    by injection Ht as ->.
Qed.

(** ** What happens to the files *)

Lemma appended_refl disk : appended disk disk.
Proof. intros path old Hold. exists "". by rewrite string_app_nil_r. Qed.

Lemma appended_trans disk1 disk2 disk3 :
  appended disk1 disk2 -> appended disk2 disk3 -> appended disk1 disk3.
Proof.
  intros H12 H23 path old Hold.
  destruct (H12 path old Hold) as [e1 H1]. destruct (H23 path _ H1) as [e2 H2].
  exists (e1 +:+ e2). by rewrite <- string_app_assoc.
Qed.

Lemma set_file_appended path data disk :
  appended disk (set_file path (default "" (disk !! path) +:+ data) disk).
Proof.
  intros p old Hold. destruct (decide (path = p)) as [->|Hne].
  - rewrite lookup_set_file_eq, Hold. simpl. eauto.
  - rewrite lookup_set_file_ne by done. exists "". by rewrite string_app_nil_r.
Qed.

Lemma write_appended w data disk : appended disk (write w data disk).2.
Proof.
  unfold write. destruct (failed w); [apply appended_refl|].
  destruct (ended w); [apply appended_refl|]. apply set_file_appended.
Qed.

Lemma createWriteStream_appended path disk :
  appended disk (createWriteStream path disk).2.
Proof.
  unfold createWriteStream. repeat destruct (bool_decide _); try apply appended_refl.
  simpl. rewrite <- (string_app_nil_r (default "" (disk !! path))).
  apply set_file_appended.
Qed.

Lemma stop_appended this disk : appended disk (stop this disk).2.
Proof.
  unfold stop, end_. destruct (writer this) as [w|]; [|apply appended_refl].
  pose proof (write_appended w footer disk). by destruct (write w footer disk).
Qed.

Lemma try_mkdirSync_files dir disk : files (try_mkdirSync dir disk) = files disk.
Proof.
  unfold try_mkdirSync, mkdirSync. destruct (_ || _); [done|].
  by destruct (bool_decide _).
Qed.

Lemma updateWriter_appended this now disk :
  appended disk (updateWriter this now disk).2.
Proof.
  unfold Logger.updateWriter. destruct (bool_decide _); [apply appended_refl|].
  pose proof (stop_appended this disk) as H1.
  destruct (stop this disk) as [this1 disk1]. simpl in *.
  eapply appended_trans; [exact H1|].
  pose proof (createWriteStream_appended (path_join [logdir this1; getFileName this now])
                disk1) as H2.
  destruct (createWriteStream _ disk1) as [w disk2]. simpl in *.
  eapply appended_trans; [exact H2|].
  match goal with |- context [write w ?d disk2] =>
    pose proof (write_appended w d disk2); destruct (write w d disk2) as [w' disk3]
  end.
  done.
Qed.

Lemma write_frame w data disk path :
  path <> target w -> (write w data disk).2 !! path = disk !! path.
Proof.
  intros Hne. unfold write. destruct (failed w); [done|]. destruct (ended w); [done|].
  simpl. by rewrite lookup_set_file_ne.
Qed.

Lemma createWriteStream_frame path' disk path :
  path <> path' -> (createWriteStream path' disk).2 !! path = disk !! path.
Proof.
  intros Hne. unfold createWriteStream. repeat destruct (bool_decide _); try done.
  simpl. by rewrite lookup_set_file_ne.
Qed.

Lemma stop_frame this disk path :
  (target <$> writer this) <> Some path -> (stop this disk).2 !! path = disk !! path.
Proof.
  unfold stop, end_. destruct (writer this) as [w|]; [|done]. simpl.
  intros Hne. pose proof (write_frame w footer disk path) as Hf.
  destruct (write w footer disk). simpl in *. apply Hf. congruence.
Qed.

Lemma updateWriter_frame this now disk path :
  (target <$> writer this) <> Some path ->
  path <> path_join [logdir this; getFileName this now] ->
  (updateWriter this now disk).2 !! path = disk !! path.
Proof.
  intros Hold Hnew. unfold Logger.updateWriter. destruct (bool_decide _); [done|].
  pose proof (stop_frame this disk path Hold) as H1.
  destruct (stop_fields this disk) as (Hd & _).
  destruct (stop this disk) as [this1 disk1]. simpl in *. rewrite Hd.
  pose proof (createWriteStream_frame (path_join [logdir this; getFileName this now])
                disk1 path Hnew) as H2.
  destruct (createWriteStream_stream (path_join [logdir this; getFileName this now]) disk1)
    as [Ht _].
  destruct (createWriteStream _ disk1) as [w disk2]. simpl in *.
  match goal with |- context [write w ?d disk2] =>
    pose proof (write_frame w d disk2 path) as H3; destruct (write w d disk2) as [w' disk3]
  end.
  simpl in *. rewrite H3 by congruence. congruence.
Qed.

(** Extra X8.  [log] only ever appends: every file keeps the text it had
    as the beginning of the text it has afterwards, whatever the state of
    the recorder; and on a recorder whose stream is the one of its file
    name, the files other than the one of that stream and the one of the
    day are left as they were. *)
Theorem log_only_appends this method construct inInstance inputParams output now disk :
  appended disk (log this method construct inInstance inputParams output now disk).2
  /\ (wired this = true ->
      forall path,
        (target <$> writer this) <> Some path ->
        path <> path_join [logdir this; getFileName this now] ->
        (log this method construct inInstance inputParams output now disk).2 !! path
          = disk !! path).
Proof.
  split.
  - unfold Logger.log.
    pose proof (updateWriter_appended this now disk) as H1.
    destruct (updateWriter this now disk) as [this1 disk1]. simpl in *.
    destruct (stringify_pretty _); [|done].
    destruct (writer this1) as [w|]; [|done].
    match goal with |- context [write w ?d disk1] =>
      pose proof (write_appended w d disk1); destruct (write w d disk1) as [w' disk2]
    end.
    simpl in *. by eapply appended_trans.
  - intros Hw path Hold Hnew. unfold Logger.log.
    pose proof (updateWriter_frame this now disk path Hold Hnew) as H1.
    pose proof (updateWriter_target this now disk Hw) as H2.
    destruct (updateWriter this now disk) as [this1 disk1]. simpl in *.
    destruct (stringify_pretty _); [|done].
    destruct (writer this1) as [w|]; [|done]. simpl in *.
    match goal with |- context [write w ?d disk1] =>
      pose proof (write_frame w d disk1 path) as H3; destruct (write w d disk1) as [w' disk2]
    end.
    simpl in *. rewrite H3; [done|]. congruence.
Qed.

(** ** Opening, closing and the directory *)

Lemma write_dirs w data disk : dirs (write w data disk).2 = dirs disk.
Proof. unfold write. destruct (failed w); [done|]. by destruct (ended w). Qed.

Lemma stop_dirs this disk : dirs (stop this disk).2 = dirs disk.
Proof.
  unfold stop, end_. destruct (writer this) as [w|]; [|done].
  pose proof (write_dirs w footer disk). by destruct (write w footer disk).
Qed.

(** What [createWriteStream] followed by the write of a header gives. *)
Lemma open_and_write path data disk :
  let opened := createWriteStream path disk in
  let written := write opened.1 data opened.2 in
  target written.1 = path /\ ended written.1 = false
  /\ (failed written.1 = None
      <-> (path ∉ dirs disk) /\ (dirname path ∈ dirs disk))
  /\ (failed written.1 = None ->
      written.1 = {| target := path; ended := false; failed := None |}
      /\ written.2 = set_file path (default "" (disk !! path) +:+ data) disk)
  /\ (failed written.1 <> None -> written.2 = disk).
Proof.
  unfold createWriteStream, write.
  destruct (bool_decide (path ∈ dirs disk)) eqn:Hdir.
  { apply bool_decide_eq_true_1 in Hdir. simpl. repeat split; try done. by intros [? _]. }
  apply bool_decide_eq_false_1 in Hdir.
  destruct (bool_decide (dirname path ∈ dirs disk)) eqn:Hparent.
  - apply bool_decide_eq_true_1 in Hparent. simpl. repeat split; try done.
    rewrite lookup_set_file_eq. unfold set_file. simpl.
    by rewrite insert_insert_eq.
  - apply bool_decide_eq_false_1 in Hparent. simpl. repeat split; try done.
    by intros [_ ?].
Qed.

(** What [updateWriter] does on a day that is not the one of the file
    name. *)
Lemma updateWriter_opens this now disk :
  fileName this <> Some (getFileName this now) ->
  let closed := stop this disk in
  let path := path_join [logdir this; getFileName this now] in
  let after := updateWriter this now disk in
  exists w,
    writer after.1 = Some w /\ target w = path /\ ended w = false
    /\ (failed w = None <-> (path ∉ dirs closed.2) /\ (dirname path ∈ dirs closed.2))
    /\ (failed w = None ->
        w = {| target := path; ended := false; failed := None |}
        /\ after.2 = set_file path (default "" (closed.2 !! path) +:+ header this) closed.2)
    /\ (failed w <> None -> after.2 = closed.2).
Proof.
  intros Hday closed path after. subst closed path after.
  unfold Logger.updateWriter. rewrite bool_decide_eq_false_2 by congruence.
  destruct (stop_fields this disk) as (Hd & Hb & Hs & _).
  destruct (stop this disk) as [this1 disk1]. cbn [fst snd] in *. rewrite Hd.
  assert (Hheader : forall name wr,
            Logger.header path_join
              {| logdir := logdir this; fileBaseName := fileBaseName this1;
                 sourcePath := sourcePath this1; fileName := name; writer := wr |}
            = header this).
  { intros name wr. unfold Logger.header. simpl. by rewrite Hb, Hs. }
  pose proof (open_and_write (path_join [logdir this; getFileName this now])
                (header this) disk1) as Hopen.
  cbn zeta in Hopen.
  destruct (createWriteStream _ disk1) as [w disk2]. rewrite Hheader.
  cbn [fst snd] in Hopen.
  destruct (write w (header this) disk2) as [w' disk3]. cbn [fst snd] in *.
  exists w'. split; [done|]. exact Hopen.
Qed.

(** Extra X9.  Making a recorder: its stream is the one of the file of
    the day under [logdir], and it is not ended.  The stream is open
    exactly when, once [mkdirSync] has been tried, the directory of that
    file exists and the file is no directory; then the header is added
    at the end of what the file held, so that a recorder made again on
    the same day writes a second header behind the footer of the first,
    and no other file changes.  Otherwise the stream has raised the
    error of the failed [open] and no file has changed: so it is when
    [logdir] lies in a directory that does not exist, [mkdirSync] making
    one directory only and its error being dropped. *)
Theorem a_new_recorder_appends_a_header dir sourcePath base now disk :
  let made := new dir sourcePath base now disk in
  let path := path_join [dir; getFileName made.1 now] in
  let tried := try_mkdirSync dir disk in
  files tried = files disk
  /\ exists w,
       writer made.1 = Some w /\ target w = path /\ ended w = false
       /\ (failed w = None <-> (path ∉ dirs tried) /\ (dirname path ∈ dirs tried))
       /\ (failed w = None ->
           files made.2
             = <[path := default "" (disk !! path) +:+ header made.1]> (files disk))
       /\ (failed w <> None -> files made.2 = files disk)
       /\ (dirname path = dir -> dir ∉ dirs disk -> dirname dir ∉ dirs disk ->
           failed w <> None).
Proof.
  intros made path tried.
  assert (Hfiles : files tried = files disk) by apply try_mkdirSync_files.
  split; [exact Hfiles|].
  subst made path. unfold Logger.new.
  set (this0 := {| logdir := dir; fileBaseName := default "" base;
                   sourcePath := default "" sourcePath;
                   fileName := None; writer := None |}).
  fold tried.
  destruct (updateWriter_fields this0 now tried) as (_ & Hb & Hs & _).
  assert (Hname : getFileName (updateWriter this0 now tried).1 now = getFileName this0 now)
    by (unfold getFileName; by rewrite Hb).
  assert (Hheader : header (updateWriter this0 now tried).1 = header this0)
    by (unfold Logger.header; by rewrite Hb, Hs).
  rewrite Hname, Hheader.
  destruct (updateWriter_opens this0 now tried) as (w & Hw & Ht & He & Hopen & Hyes & Hno);
    [done|].
  change (stop this0 tried) with (this0, tried) in *. cbn [fst snd logdir this0] in *.
  exists w. split; [done|]. split; [done|]. split; [done|]. split; [done|].
  split; [|split].
  - intros Hok. destruct (Hyes Hok) as [_ ->]. unfold set_file. cbn [files].
    unfold lookup at 1, fs_lookup. by rewrite Hfiles.
  - intros Hbad. by rewrite (Hno Hbad).
  - intros Hpath Hdir Hparent Hok. apply Hopen in Hok as [_ Hin].
    rewrite Hpath in Hin. subst tried. unfold try_mkdirSync, mkdirSync in Hin.
    rewrite (bool_decide_eq_false_2 (dir ∈ dirs disk)) in Hin by done.
    rewrite (bool_decide_eq_false_2 (dirname dir ∈ dirs disk)) in Hin by done.
    by destruct (_ || _).
Qed.

Lemma write_ended w data disk :
  failed w = None -> ended w = true ->
  write w data disk
    = ({| target := target w; ended := true;
          failed := Some (VErr "Error" "write after end") |}, disk).
Proof. intros Hok He. unfold write. by rewrite Hok, He. Qed.

(** A stream that is closed again, or written to once closed: it has
    raised the error of a write after the end, and no file has gained
    text. *)
Lemma end_then_write w data data' disk :
  failed w = None ->
  let closed := end_ w data disk in
  let written := write closed.1 data' closed.2 in
  written.1 = {| target := target w; ended := true;
                 failed := Some (VErr "Error" "write after end") |}
  /\ written.2 = closed.2.
Proof.
  intros Hok. unfold end_, write. rewrite Hok.
  destruct (ended w); simpl; rewrite ?Hok; done.
Qed.

(** Extra X10.  A recorder that was stopped stays stopped for the rest of
    the day: the file name has not changed, so [log] opens no new
    stream; it returns normally all the same, the write on the ended
    stream makes the stream raise its error, which the caller does not
    see, and no file gains the record.  A second [stop] does the same. *)
Theorem a_stopped_recorder_drops_records this disk now
    method construct inInstance inputParams output w text :
  writer this = Some w -> failed w = None ->
  fileName this = Some (getFileName this now) ->
  stringify_pretty (record method construct inInstance inputParams output)
    = Normal (Some text) ->
  let stopped := stop this disk in
  let logged :=
    log stopped.1 method construct inInstance inputParams output now stopped.2 in
  let again := stop stopped.1 stopped.2 in
  logged.1.1 = Normal ()
  /\ fileName logged.1.2 = fileName this
  /\ writer logged.1.2
     = Some {| target := target w; ended := true;
               failed := Some (VErr "Error" "write after end") |}
  /\ appended logged.2 stopped.2
  /\ writer again.1 = writer logged.1.2
  /\ appended again.2 stopped.2.
Proof.
  intros Hw Hok Hname Htext stopped logged again.
  assert (Hstopped : stop this disk
                     = (with_writer this (end_ w footer disk).1, (end_ w footer disk).2)).
  { unfold stop. rewrite Hw. by destruct (end_ w footer disk). }
  destruct (end_then_write w footer (newline +:+ text) disk Hok) as [Hlog1 Hlog2].
  destruct (end_then_write w footer footer disk Hok) as [Hstop1 Hstop2].
  subst stopped logged again. rewrite Hstopped. cbn [fst snd].
  set (w1 := (end_ w footer disk).1) in *. set (disk1 := (end_ w footer disk).2) in *.
  assert (Hupdate : updateWriter (with_writer this w1) now disk1
                    = (with_writer this w1, disk1)).
  { unfold Logger.updateWriter.
    change (getFileName (with_writer this w1) now) with (getFileName this now).
    cbn [fileName with_writer]. by rewrite Hname, bool_decide_eq_true_2. }
  assert (Hlogged : log (with_writer this w1) method construct inInstance inputParams
                        output now disk1
                    = (Normal (),
                       with_writer (with_writer this w1) (write w1 (newline +:+ text) disk1).1,
                       (write w1 (newline +:+ text) disk1).2)).
  { unfold Logger.log. rewrite Hupdate, Htext. cbn [writer with_writer default].
    by destruct (write w1 _ disk1). }
  assert (Hagain : stop (with_writer this w1) disk1
                   = (with_writer (with_writer this w1)
                        {| target := target (write w1 footer disk1).1; ended := true;
                           failed := failed (write w1 footer disk1).1 |},
                      (write w1 footer disk1).2)).
  { unfold stop, end_. cbn [writer with_writer]. by destruct (write w1 footer disk1). }
  rewrite Hlogged, Hagain, Hlog1, Hlog2, Hstop1, Hstop2.
  cbn [fst snd fileName writer with_writer target failed].
  repeat split; try done; apply appended_refl.
Qed.

(** Extra X11.  The first record of a day: when the file name of the day
    is not the one the recorder has, [log] closes the old stream, which
    ends it and, when it was open, puts the footer at the end of its
    file; then it opens the file of the day and returns normally.  When
    the directory of that file exists and the file is no directory, the
    file then holds what it held once the old stream was closed, the
    header, and the record on a new line.  When the directory does not
    exist, the stream has raised the error of the failed [open], the
    file is not made and the record is written nowhere; [log] returns
    normally all the same. *)
Theorem the_first_record_of_a_day this disk now
    method construct inInstance inputParams output text :
  fileName this <> Some (getFileName this now) ->
  stringify_pretty (record method construct inInstance inputParams output)
    = Normal (Some text) ->
  let path := path_join [logdir this; getFileName this now] in
  let closed := stop this disk in
  let logged := log this method construct inInstance inputParams output now disk in
  logged.1.1 = Normal ()
  /\ fileName logged.1.2 = Some (getFileName this now)
  /\ (forall old, writer this = Some old ->
        exists old', writer closed.1 = Some old' /\ target old' = target old
          /\ ended old' = true
          /\ (failed old = None -> ended old = false ->
              failed old' = None
              /\ closed.2 !! target old
                 = Some (default "" (disk !! target old) +:+ footer)))
  /\ dirs closed.2 = dirs disk
  /\ (path ∉ dirs disk -> dirname path ∈ dirs disk ->
      writer logged.1.2 = Some {| target := path; ended := false; failed := None |}
      /\ logged.2 !! path
         = Some (default "" (closed.2 !! path) +:+ header this +:+ newline +:+ text))
  /\ (dirname path ∉ dirs disk ->
      (exists w, writer logged.1.2 = Some w /\ target w = path /\ failed w <> None)
      /\ logged.2 = closed.2
      /\ (disk !! path = None -> target <$> writer this <> Some path ->
          logged.2 !! path = None)).
Proof.
  intros Hday Htext path closed logged.
  pose proof (stop_dirs this disk) as Hdirs.
  destruct (updateWriter_opens this now disk Hday) as (w & Hw & Ht & He & Hopen & Hyes & Hno).
  destruct (updateWriter_fields this now disk) as (_ & _ & _ & Hn).
  fold closed path in Hopen, Hyes, Hno, Ht, Hdirs.
  assert (Hlogged : logged
            = (Normal (), with_writer (updateWriter this now disk).1
                            (write w (newline +:+ text) (updateWriter this now disk).2).1,
               (write w (newline +:+ text) (updateWriter this now disk).2).2)).
  { subst logged. unfold Logger.log.
    destruct (updateWriter this now disk) as [this1 disk1]. cbn [fst snd] in *.
    rewrite Htext, Hw. cbn [default]. by destruct (write w _ disk1). }
  rewrite Hlogged. cbn [fst snd with_writer fileName writer].
  split; [done|]. split; [done|]. split; [|split; [done|split]].
  - intros old Hold. subst closed. unfold stop, end_. rewrite Hold.
    destruct (write_stream old footer disk) as [Htarget _].
    destruct (write old footer disk) as [old1 disk1] eqn:Hwrite. cbn [fst snd] in *.
    eexists. split; [reflexivity|]. cbn [target ended failed].
    split; [done|]. split; [done|].
    intros Hok Hopened. unfold write in Hwrite. rewrite Hok, Hopened in Hwrite.
    injection Hwrite as <- <-. split; [done|]. by rewrite lookup_set_file_eq.
  - intros Hfile Hparent. rewrite <- Hdirs in Hfile, Hparent.
    destruct (Hyes (proj2 Hopen (conj Hfile Hparent))) as [-> ->].
    unfold write. cbn [failed ended target fst snd].
    split; [done|]. rewrite !lookup_set_file_eq. cbn [default].
    by rewrite <- !string_app_assoc.
  - intros Hparent. rewrite <- Hdirs in Hparent.
    assert (Hbad : failed w <> None) by (intros Hok; apply Hopen in Hok as [_ ?]; done).
    rewrite (Hno Hbad). unfold write. destruct (failed w) as [e|] eqn:Hf; [|done].
    cbn [fst snd]. split; [exists w; by rewrite Hf|]. split; [done|].
    intros Hnone Hother. subst closed. rewrite stop_frame by done. done.
Qed.

(** ** The name of the file *)

Lemma split_from_word a cur rest :
  word a = true ->
  Str.split_from " " 0 cur (a +:+ " " +:+ rest)
    = string_of_list_ascii (rev cur ++ list_ascii_of_string a)
        :: Str.split_from " " 0 [] rest.
Proof.
  revert cur. induction a as [|c a IH]; intros cur Hw.
  - change ("" +:+ " " +:+ rest) with (String " " rest). simpl.
    replace (String.prefix "" rest) with true by (by destruct rest).
    by rewrite app_nil_r.
  - unfold word in Hw. simpl in Hw. apply andb_true_iff in Hw as [Hc Hw].
    change (String c a +:+ " " +:+ rest) with (String c (a +:+ " " +:+ rest)).
    assert (Hp : String.prefix " " (String c (a +:+ " " +:+ rest)) = false).
    { cbn [String.prefix]. by destruct (ascii_dec " " c) as [<-|]. }
    cbn [Str.split_from]. rewrite Hp, IH by done.
    cbn [rev]. by rewrite <- app_assoc.
Qed.

Lemma split_word a rest :
  word a = true -> Str.split " " (a +:+ " " +:+ rest) = a :: Str.split " " rest.
Proof.
  intros Hw. unfold Str.split. rewrite split_from_word by done.
  simpl. by rewrite string_of_list_ascii_of_string.
Qed.

(** Extra X12.  The name of the file is the base name followed by the
    second, third and fourth word of the date as [String] prints it
    (month, day of the month, year) joined by underscores: the day of
    the week, the time of day and the time zone play no part, so all the
    records of one calendar day go to one file. *)
Theorem the_file_name_is_the_date this weekday month day year rest :
  word weekday = true -> word month = true -> word day = true -> word year = true ->
  getFileName this
    (weekday +:+ " " +:+ month +:+ " " +:+ day +:+ " " +:+ year +:+ " " +:+ rest)
    = fileBaseName this +:+ month +:+ "_" +:+ day +:+ "_" +:+ year.
Proof.
  intros Hw Hm Hd Hy. unfold getFileName.
  rewrite !split_word by done.
  assert (Hslice : forall tail : list string,
            Str.slice 1 4 (weekday :: month :: day :: year :: tail) = [month; day; year]).
  { intros tail. unfold Str.slice, Str.clamp_index. simpl length.
    replace (Z.to_nat (if (1 <? 0)%Z then _ else Z.min 1 _)) with 1 by (simpl; lia).
    replace (Z.to_nat (if (4 <? 0)%Z then _ else Z.min 4 _)) with 4 by (simpl; lia).
    done. }
  rewrite Hslice. reflexivity.
Qed.

(** ** The values [log] prints *)

(** Extra X18.  On a recorder whose stream is the one of its file name,
    [log] throws exactly when [JSON.stringify] throws on one of its five
    arguments, each printed under its key in the record: a BigInt in it,
    or a [toJSON] method that throws or returns such a value.
    [undefined], functions and the other values that have no JSON text
    are printed as nothing or as [null] and do not make it throw.  When
    it throws, the stream of the day has been opened all the same, and
    nothing more is written. *)
Theorem log_throws_on_unprintable_values_only
    this method construct inInstance inputParams output now disk :
  wired this = true ->
  let logged := log this method construct inInstance inputParams output now disk in
  (logged.1.1 = Normal ()
   <-> printable_as "require" inInstance && printable_as "payload" inputParams
       && printable_as "construct" construct && printable_as "method" method
       && printable_as "output" output = true)
  /\ (logged.1.1 <> Normal () -> (logged.1.2, logged.2) = updateWriter this now disk).
Proof.
  intros Hw logged. subst logged.
  pose proof (updateWriter_target this now disk Hw) as Ht.
  unfold Logger.log. destruct (updateWriter this now disk) as [this1 disk1].
  simpl in Ht. destruct (writer this1) as [w|]; [|done].
  unfold printable_as, stringify_pretty, stringify, record. simpl.
  destruct (serialize "require" inInstance), (serialize "payload" inputParams),
    (serialize "construct" construct), (serialize "method" method),
    (serialize "output" output); simpl;
    try (destruct (write w _ disk1)); simpl; split; done.
Qed.

End Facts.

End LoggerMore.

(* ===================================================================== *)
(** * More about the instrumenter *)
(* ===================================================================== *)

Module TcgenMore.
Import Json Tcgen SnapshotFacts InstrumenterFacts Further.

(** ** walkSync *)

Section Walk.

Variable path_join : list string -> string.

Local Abbreviation walk := (Tcgen.walk path_join).
Local Abbreviation below := (Further.below path_join).
Local Abbreviation step := (Further.step path_join).

(** Induction on a tree, with the hypothesis for every entry of a
    directory. *)
Lemma node_ind' (P : node -> Prop) :
  P File -> (forall entries, Forall (fun e => P e.2) entries -> P (Dir entries)) ->
  (forall e, P (Unreadable e)) -> (forall e, P (Dangling e)) ->
  forall tree, P tree.
Proof.
  intros Hfile Hdir Hunreadable Hdangling. fix IH 1. intros [|entries|e|e].
  - exact Hfile.
  - apply Hdir. induction entries as [|[file child] entries IHentries]; constructor.
    + apply IH.
    + exact IHentries.
  - apply Hunreadable.
  - apply Hdangling.
Qed.

Lemma walk_cons dir file child rest ext fls :
  walk dir (Dir ((file, child) :: rest)) ext fls
    = bind (step dir ext file child fls) (walk dir (Dir rest) ext).
Proof. reflexivity. Qed.

Lemma walk_accumulates tree : forall dir ext fls,
  walk dir tree ext fls
    = bind (walk dir tree ext []) (fun found => Normal (fls ++ found)).
Proof.
  induction tree as [|entries IH|e|e] using node_ind'; intros dir ext fls; try done.
  revert fls. induction IH as [|[file child] rest Hchild _ IHrest]; intros fls.
  - simpl. by rewrite app_nil_r.
  - rewrite !walk_cons.
    assert (Hstep : step dir ext file child fls
                    = bind (step dir ext file child [])
                           (fun found => Normal (fls ++ found))).
    { unfold Further.step. destruct (String.eqb file "."); [simpl; by rewrite app_nil_r|].
      destruct child as [|sub|e|e]; try apply Hchild; simpl; try done.
      destruct (Str.endsWith file ext); [done|by rewrite app_nil_r]. }
    rewrite Hstep. destruct (step dir ext file child []) as [found|e]; [|done].
    cbn [bind]. rewrite IHrest, (IHrest found).
    destruct (walk dir (Dir rest) ext []) as [more|e]; [|done].
    cbn [bind]. by rewrite app_assoc.
Qed.

(** Extra X13.  [walkSync] appends: the list it is given comes back as
    the beginning of the result, unchanged and in order, followed by what
    the walk finds starting from an empty list; and it throws what the
    walk from an empty list throws. *)
Theorem walk_appends_to_the_list dir tree ext fls :
  walk dir tree ext fls
    = bind (walk dir tree ext []) (fun found => Normal (fls ++ found)).
Proof. apply walk_accumulates. Qed.

Lemma walk_Dir_cons dir file child rest ext :
  walk dir (Dir ((file, child) :: rest)) ext []
    = bind (step dir ext file child [])
           (fun found => bind (walk dir (Dir rest) ext [])
                              (fun more => Normal (found ++ more))).
Proof.
  rewrite walk_cons. destruct (step dir ext file child []) as [found|e]; [|done].
  cbn [bind]. apply walk_accumulates.
Qed.

Lemma below_more ext dir entries entries' p :
  below ext dir (Dir entries) p -> entries ⊆ entries' ->
  below ext dir (Dir entries') p.
Proof.
  intros Hbelow Hsub. inversion Hbelow; subst.
  - apply below_file; auto.
  - eapply below_dir; eauto.
Qed.

Lemma walk_sound tree : forall dir ext found p,
  walk dir tree ext [] = Normal found -> p ∈ found -> below ext dir tree p.
Proof.
  induction tree as [|entries IH|e|e] using node_ind'; intros dir ext found p;
    try done.
  revert found. induction IH as [|[file child] rest Hchild _ IHrest]; intros found.
  - simpl. intros [= <-]. by intros ?%elem_of_nil.
  - rewrite walk_Dir_cons.
    destruct (step dir ext file child []) as [here|e] eqn:Hstep; [|done]. cbn [bind].
    destruct (walk dir (Dir rest) ext []) as [more|e]; [|done]. cbn [bind].
    intros [= <-] [Hin|Hin]%elem_of_app.
    + unfold Further.step in Hstep.
      destruct (String.eqb_spec file ".").
      { injection Hstep as <-. by apply elem_of_nil in Hin. }
      destruct child as [|sub|e|e]; try done.
      * injection Hstep as <-.
        destruct (Str.endsWith file ext) eqn:He; [|by apply elem_of_nil in Hin].
        apply list_elem_of_singleton in Hin as ->.
        apply below_file; [left|done|done].
      * eapply below_dir; [left|done|]. by eapply Hchild.
    + eapply below_more; [by eapply IHrest|]. set_solver.
Qed.

Lemma walk_complete ext dir tree p :
  below ext dir tree p ->
  forall found, walk dir tree ext [] = Normal found -> p ∈ found.
Proof.
  induction 1 as [dir entries file Hin Hdot Hext|dir entries file sub p Hin Hdot _ IH];
    intros found.
  - revert found.
    induction entries as [|[file' child'] rest IHrest]; intros found;
      [by apply elem_of_nil in Hin|].
    rewrite walk_Dir_cons.
    destruct (step dir ext file' child' []) as [here|e] eqn:Hstep; [|done]. cbn [bind].
    destruct (walk dir (Dir rest) ext []) as [more|e]; [|done]. cbn [bind].
    intros [= <-]. apply elem_of_app.
    apply elem_of_cons in Hin as [[= <- <-]|Hin]; [left|right; auto].
    unfold Further.step in Hstep. destruct (String.eqb_spec file "."); [done|].
    rewrite Hext in Hstep. injection Hstep as <-. set_solver.
  - revert found.
    induction entries as [|[file' child'] rest IHrest]; intros found;
      [by apply elem_of_nil in Hin|].
    rewrite walk_Dir_cons.
    destruct (step dir ext file' child' []) as [here|e] eqn:Hstep; [|done]. cbn [bind].
    destruct (walk dir (Dir rest) ext []) as [more|e]; [|done]. cbn [bind].
    intros [= <-]. apply elem_of_app.
    apply elem_of_cons in Hin as [[= <- <-]|Hin]; [left|right; auto].
    unfold Further.step in Hstep. destruct (String.eqb_spec file "."); [done|].
    by apply IH.
Qed.

Lemma walk_readable tree : forall dir ext,
  (exists found, walk dir tree ext [] = Normal found) <-> readable tree = true.
Proof.
  induction tree as [|entries IH|e|e] using node_ind'; intros dir ext;
    try (split; [by intros [found ?]|done]).
  induction IH as [|[file child] rest Hchild _ IHrest].
  - split; [done|]. by exists [].
  - rewrite walk_Dir_cons.
    change (readable (Dir ((file, child) :: rest)))
      with ((String.eqb file "."
             || match child with
                | File => true
                | Dangling _ => false
                | _ => readable child
                end) && readable (Dir rest)).
    rewrite andb_true_iff, <- IHrest.
    assert (Hstep : (exists here, step dir ext file child [] = Normal here)
                    <-> String.eqb file "."
                        || match child with
                           | File => true
                           | Dangling _ => false
                           | _ => readable child
                           end = true).
    { unfold Further.step. destruct (String.eqb file "."); [split; eauto|].
      destruct child as [|sub|e|e]; simpl.
      - split; eauto.
      - apply Hchild.
      - split; [by intros [here ?]|done].
      - split; [by intros [here ?]|done]. }
    rewrite <- Hstep. split.
    + intros [found Hfound].
      destruct (step dir ext file child []) as [here|e]; [|done]. cbn [bind] in Hfound.
      destruct (walk dir (Dir rest) ext []) as [more|e]; [|done]. eauto.
    + intros [[here ->] [more ->]]. cbn [bind]. eauto.
Qed.

(** Extra X14.  What [walkSync] finds, starting from an empty list, are
    the files below the directory whose name ends with the extension,
    and nothing else: no directory, no file with another ending, nothing
    reached through an entry named [.], and each path is [join]ed from
    the directory down.  It finds them when every directory on the way
    can be read and every name can be looked at, and throws otherwise. *)
Theorem walk_finds_the_files dir tree ext :
  (forall found, walk dir tree ext [] = Normal found ->
     forall p, p ∈ found <-> below ext dir tree p)
  /\ ((exists found, walk dir tree ext [] = Normal found) <-> readable tree = true).
Proof.
  split; [|apply walk_readable].
  intros found Hfound p. split.
  - by apply walk_sound.
  - intros Hbelow. by eapply walk_complete.
Qed.

End Walk.

(** Extra X23.  What a constructed instance holds: [srcdir] is a
    directory, and [filelist] is made of the files below it whose name
    ends with [.js] and of nothing else; the operations on the file
    system were the [mkdirpSync] of [destdir] and then the walk of
    [srcdir]. *)
Theorem the_filelist_of_an_instance path_join sep tmpdir MODULE_CODE disk mkdirp_error
    config this ops :
  Tcgen.new path_join sep tmpdir MODULE_CODE disk mkdirp_error config = (Normal this, ops) ->
  ops = [Mkdirp (destdir this); Readdir (srcdir this)]
  /\ exists entries,
       disk (srcdir this) = Some (Dir entries)
       /\ Tcgen.walk path_join (srcdir this) (Dir entries) ".js" [] = Normal (filelist this)
       /\ readable (Dir entries) = true
       /\ forall p, p ∈ filelist this
                    <-> below path_join ".js" (srcdir this) (Dir entries) p.
Proof.
  unfold Tcgen.new.
  destruct (bind (assert_typeof config "object" "config MUST_BE_OBJECT") _)
    as [[src dest]|e]; [|done].
  destruct (mkdirp_error dest); [done|].
  unfold walkSync. destruct (disk src) as [[|entries|e|e]|] eqn:Hdisk; try done.
  destruct (Tcgen.walk path_join src (Dir entries) ".js" []) as [files|e] eqn:Hwalk;
    [|done].
  cbn [bind]. intros [= <- <-]. cbn [filelist srcdir destdir]. split; [done|].
  exists entries. split; [done|]. split; [done|]. split.
  - apply (walk_readable path_join (Dir entries) src ".js"). eauto.
  - intros p. split.
    + exact (walk_sound path_join (Dir entries) src ".js" files p Hwalk).
    + intros Hbelow.
      exact (walk_complete path_join ".js" src (Dir entries) p Hbelow files Hwalk).
Qed.

(** ** instrumentClass *)

Lemma splice_removes_nothing {A : Type} start deleteCount (arr : list A) :
  (deleteCount <= 0)%Z -> Str.splice_removed start deleteCount arr = [].
Proof.
  intros H. unfold Str.splice_removed.
  replace (Z.max deleteCount 0) with 0%Z by lia.
  assert (Hfrom : (Z.of_nat (Str.clamp_index (Z.of_nat (length arr)) start)
                   <= Z.of_nat (length arr))%Z).
  { unfold Str.clamp_index. destruct (Z.ltb_spec start 0); lia. }
  replace (Z.to_nat (Z.min 0 _)) with 0 by lia. done.
Qed.

Lemma for_each_returns {A B : Type} (f : A -> result B) (ok : A -> bool) l :
  (forall x, (exists y, f x = Normal y) <-> ok x = true) ->
  (exists l', for_each f l = Normal l') <-> forallb ok l = true.
Proof.
  intros Hf. induction l as [|x l IH]; [split; [done|by exists []]|].
  simpl. rewrite andb_true_iff, <- IH, <- Hf. split.
  - intros [l' Hl']. destruct (f x) as [y|e]; [|done]. simpl in Hl'.
    destruct (for_each f l) as [ys|e]; [|done]. eauto.
  - intros [[y ->] [ys ->]]. simpl. eauto.
Qed.

Section Instrument.

Context {host : Json.Host}.

Lemma instrument_static_spec sLogger read_only name v m :
  instrument_static sLogger read_only (name, v) = Normal m ->
  if String.eqb (typeof v) "function" && negb (bool_decide (name ∈ ignoredStaticMethods))
  then exists w σ, m = (name, Intercepted w σ)
         /\ Tcgen.sLogger w = sLogger /\ ent w = bound v
         /\ prop w = VUndefined /\ isConstructor w = VBool false
         /\ firstn 2 (applyArgs σ) = [VUndefined; VBool false]
  else m = (name, Plain v).
Proof.
  unfold instrument_static. destruct (_ && _).
  - unfold handleFunctionUnderTest. rewrite clonePrimitive_spec. simpl.
    destruct (assign read_only name); [|done]. simpl. intros [= <-]. eauto 10.
  - by intros [= <-].
Qed.

Lemma instrument_static_returns sLogger read_only m :
  (exists m', instrument_static sLogger read_only m = Normal m')
  <-> negb (replaced_static m && bool_decide (m.1 ∈ read_only)) = true.
Proof.
  destruct m as [name v]. unfold instrument_static, replaced_static, assign. simpl.
  destruct (_ && _); [|split; eauto].
  unfold handleFunctionUnderTest. rewrite clonePrimitive_spec. simpl.
  destruct (bool_decide (name ∈ read_only)); simpl.
  - split; [by intros [m' ?]|done].
  - split; eauto.
Qed.

Lemma instrument_method_returns sLogger read_only m :
  (exists m', instrument_method sLogger read_only m = Normal m')
  <-> negb (replaced_method m && bool_decide (m.1 ∈ read_only)) = true.
Proof.
  destruct m as [name v]. unfold instrument_method, replaced_method, assign. simpl.
  destruct (String.eqb _ _); [|split; eauto].
  unfold handleFunctionUnderTest. rewrite clonePrimitive_spec. simpl.
  destruct (bool_decide (name ∈ read_only)); simpl.
  - split; [by intros [m' ?]|done].
  - split; eauto.
Qed.

Lemma strings_of_strings l : strings_of (map VStr l) = Some l.
Proof. induction l as [|x l IH]; [done|]. simpl. by rewrite IH. Qed.

End Instrument.

(** Extra X15.  The static members after [instrumentClass]: the names
    and their order are kept; a member that is not a function, or that is
    named [length], [prototype] or [name], is left as it is; every other
    one is replaced by a wrapper of the function bound to the class, made
    with the recorder, with no member name ([prop] is [undefined]) and
    with [isConstructor] false. *)
Theorem static_members_are_wrapped {host : Json.Host}
    path_join sep this filePath f now files result logger files' :
  instrumentClass path_join sep this filePath (Function f) now files
    = (Normal (Some (result, logger)), files') ->
  Forall2 (fun before after =>
             after.1 = before.1
             /\ if String.eqb (typeof before.2) "function"
                   && negb (bool_decide (before.1 ∈ ignoredStaticMethods))
                then exists w σ, after.2 = Intercepted w σ
                       /\ sLogger w = Logger.as_value logger
                       /\ ent w = bound before.2
                       /\ prop w = VUndefined
                       /\ isConstructor w = VBool false
                else after.2 = Plain before.2)
          (statics f) (new_statics result).
Proof.
  intros Hcls.
  destruct (instrumentClass_returns _ _ _ _ _ _ _ _ _ _ Hcls)
    as (proto & dir & _ & _ & _ & _ & _ & Hss & _).
  apply for_each_Forall2 in Hss.
  eapply Forall2_impl; [exact Hss|].
  intros [name v] m Hm. apply instrument_static_spec in Hm. simpl.
  destruct (_ && _).
  - destruct Hm as (w & σ & -> & ? & ? & ? & ? & _). eauto 10.
  - by subst m.
Qed.

(** Extra X16.  The recorder [instrumentClass] makes has an empty base
    name, whatever the path of the file: [splice(-2, -1)] removes
    nothing, so the third argument of [new Logger] is [undefined] and the
    default applies.  The name of its file is the date alone, and it lies
    in the directory joined from [destdir] and the pieces of the path. *)
Theorem the_base_name_is_empty {host : Json.Host}
    path_join sep this filePath f now files result logger files' :
  instrumentClass path_join sep this filePath (Function f) now files
    = (Normal (Some (result, logger)), files') ->
  Logger.fileBaseName logger = ""
  /\ Logger.fileName logger = Some (Str.join "_" (Str.slice 1 4 (Str.split " " now)))
  /\ join path_join
       (destdir this
          :: map VStr (Str.split sep (List.last (Str.split (srcdir this) filePath) "")))
     = Normal (VStr (Logger.logdir logger)).
Proof.
  intros Hcls.
  destruct (instrumentClass_returns _ _ _ _ _ _ _ _ _ _ Hcls)
    as (proto & dir & _ & Hdir & Hnew & _).
  rewrite splice_removes_nothing in Hnew by lia. cbn [first head from_option] in Hnew.
  unfold Logger.new in Hnew.
  match type of Hnew with
  | Logger.updateWriter _ ?this0 _ ?disk0 = _ =>
      destruct (LoggerMore.updateWriter_fields path_join this0 now disk0)
        as (Hd & Hb & _ & Hn)
  end.
  rewrite Hnew in Hd, Hb, Hn. simpl in Hd, Hb, Hn.
  rewrite Hd. repeat split; assumption.
Qed.

(** Extra X17.  The recorder is an object and no function: every wrapper
    [instrumentClass] makes holds the recorder itself as [sLogger], so
    the completion closure of such a wrapper, whenever it is called,
    throws the TypeError of [sLogger.apply] once it has pushed the
    outcome, and no record reaches a logger. *)
Theorem the_recorder_is_no_function {host : Json.Host}
    path_join sep this filePath cls now files result logger files' name w σ :
  instrumentClass path_join sep this filePath cls now files
    = (Normal (Some (result, logger)), files') ->
  (name, Intercepted w σ) ∈ new_statics result ++ new_prototype result ->
  sLogger w = Logger.as_value logger
  /\ typeof (sLogger w) = "object"
  /\ forall reply args σ',
       (onDone reply w args σ').1 = Abrupt (TypeError "sLogger.apply is not a function")
       /\ logged (onDone reply w args σ').2 = logged σ'
       /\ length (applyArgs (onDone reply w args σ').2) = S (length (applyArgs σ')).
Proof.
  intros Hcls Hin.
  assert (Hlogger : sLogger w = Logger.as_value logger).
  { destruct cls as [v|f]; [done|].
    destruct (instrumentClass_returns _ _ _ _ _ _ _ _ _ _ Hcls)
      as (proto & dir & _ & _ & _ & _ & _ & Hss & Hms).
    apply for_each_Forall2 in Hss, Hms.
    apply elem_of_app in Hin as [Hin|Hin].
    - destruct (proj1 (list_elem_of_lookup _ _) Hin) as [i Hi].
      destruct (Forall2_lookup_r _ _ _ _ _ Hss Hi) as ([n v] & _ & Hm).
      unfold instrument_static in Hm. destruct (_ && _); [|done].
      unfold handleFunctionUnderTest in Hm. rewrite clonePrimitive_spec in Hm.
      simpl in Hm. destruct (assign _ n); [|done]. simpl in Hm.
      by injection Hm as _ <- _.
    - destruct (proj1 (list_elem_of_lookup _ _) Hin) as [i Hi].
      destruct (Forall2_lookup_r _ _ _ _ _ Hms Hi) as ([n v] & _ & Hm).
      unfold instrument_method in Hm. destruct (String.eqb _ _); [|done].
      unfold handleFunctionUnderTest in Hm. rewrite clonePrimitive_spec in Hm.
      simpl in Hm. destruct (assign _ n); [|done]. simpl in Hm.
      by injection Hm as _ <- _. }
  split; [done|]. split; [by rewrite Hlogger|].
  intros reply args σ'. unfold onDone. rewrite Hlogger.
  destruct (truthy (at_index args 0)); rewrite clonePrimitive_spec; simpl;
    rewrite length_app; simpl; repeat split; lia.
Qed.

(** Extra X22.  When [instrumentClass] throws.  A function without a
    [prototype] object is left alone.  Past that test, [join] throws its
    TypeError when [destdir] is not a string, which the constructor lets
    through, before a recorder is made and before a file is touched.
    With a string as [destdir], a function whose [prototype] is [null]
    passes the test, [null] being of type object, and the call throws;
    and on a function with a prototype object the call returns, with
    every member looked at, exactly when no getter among the own
    properties throws and no member it assigns to is read-only: what a
    getter throws, and the TypeError of an assignment in strict code,
    are not caught. *)
Theorem instrumentClass_needs_a_string {host : Json.Host}
    path_join sep this filePath f now files :
  let outcome := instrumentClass path_join sep this filePath (Function f) now files in
  (prototype f = None -> null_prototype f = false -> outcome = (Normal None, files))
  /\ (bool_decide (is_Some (prototype f)) || null_prototype f = true ->
      typeof (destdir this) <> "string" ->
      outcome = (Abrupt (TypeError "The path argument must be of type string"), files))
  /\ (typeof (destdir this) = "string" ->
      (prototype f = None -> null_prototype f = true -> exists e, outcome.1 = Abrupt e)
      /\ forall proto, prototype f = Some proto ->
           (instrumentable f proto = true ->
              exists result logger,
                outcome.1 = Normal (Some (result, logger))
                /\ length (new_statics result) = length (statics f)
                /\ length (new_prototype result) = length proto)
           /\ (instrumentable f proto = false -> exists e, outcome.1 = Abrupt e)
           /\ (forall e, statics_getter f = Some e -> outcome.1 = Abrupt e)).
Proof.
  intros outcome. subst outcome. unfold instrumentClass. split; [|split].
  - by intros -> ->.
  - intros -> Hd. simpl. unfold join.
    destruct (destdir this) as [| | | | | |d| | | | |]; done.
  - intros Hd. destruct (destdir this) as [| | | | | |d| | | | |]; try done.
    unfold join. cbn [strings_of]. rewrite strings_of_strings.
    cbn [fmap option_fmap option_map].
    destruct (Logger.new _ _ _ _ _ _) as [lg files1].
    pose proof (for_each_returns
                  (instrument_static (Logger.as_value lg) (statics_read_only f))
                  (fun m => negb (replaced_static m
                                  && bool_decide (m.1 ∈ statics_read_only f)))
                  (statics f) (instrument_static_returns _ _)) as Hstatics.
    split.
    + intros -> ->. simpl. destruct (statics_getter f) as [e|]; [by exists e|].
      cbn [read_all bind]. destruct (for_each _ _) as [ss|e]; simpl; eauto.
    + intros proto ->.
      pose proof (for_each_returns
                    (instrument_method (Logger.as_value lg) (prototype_read_only f))
                    (fun m => negb (replaced_method m
                                    && bool_decide (m.1 ∈ prototype_read_only f)))
                    proto (instrument_method_returns _ _)) as Hmethods.
      simpl. unfold instrumentable, writable.
      destruct (statics_getter f) as [e|].
      { split; [done|]. split; [by exists e|]. by intros e' [= <-]. }
      cbn [read_all bind].
      destruct (for_each _ (statics f)) as [ss|e] eqn:Hss.
      * assert (Hok : forallb (fun m => negb (replaced_static m
                         && bool_decide (m.1 ∈ statics_read_only f))) (statics f) = true)
          by (apply Hstatics; eauto).
        rewrite Hok. cbn [bind andb].
        destruct (prototype_getter f) as [e|].
        { split; [done|]. split; [by exists e|done]. }
        cbn [read_all bind].
        destruct (for_each _ proto) as [ms|e] eqn:Hms.
        -- assert (Hok' : forallb (fun m => negb (replaced_method m
                             && bool_decide (m.1 ∈ prototype_read_only f))) proto = true)
             by (apply Hmethods; eauto).
           rewrite Hok'. split; [|done]. intros _. simpl. do 2 eexists.
           split; [reflexivity|]. simpl.
           apply for_each_Forall2 in Hss, Hms.
           split; symmetry; eapply Forall2_length; eauto.
        -- split; [|split; [by exists e|done]].
           intros Hok'. apply Hmethods in Hok' as [ms' ?]. congruence.
      * assert (Hbad : forallb (fun m => negb (replaced_static m
                          && bool_decide (m.1 ∈ statics_read_only f))) (statics f) = false).
        { destruct (forallb _ (statics f)) eqn:Hok; [|done].
          by destruct (proj2 Hstatics eq_refl) as [ss' ?]. }
        rewrite Hbad. split; [by destruct (prototype_getter f)|].
        split; [by exists e|done].
Qed.


(** ** The closures of handleFunctionUnderTest *)

(** Extra X19.  The completion closure, given a logger that is a
    function, never throws by itself: it pushes one object on
    [applyArgs], with the member [error] when its first argument is
    truthy and the member [output] otherwise, holding a snapshot that
    [JSON.stringify] can print; then it calls the logger with all of
    [applyArgs], which is never emptied, so the logger receives one
    argument more than [applyArgs] held. *)
Theorem the_outcome_is_pushed {host : Json.Host} reply w g args σ :
  sLogger w = VFun g ->
  exists snapshot,
    clonePrimitive
      (if truthy (at_index args 0) then at_index args 0
       else if Nat.ltb 1 (length (slice1 args)) then VArr (slice1 args)
            else at_index (slice1 args) 0) = Normal snapshot
    /\ printable snapshot = true
    /\ let outcome :=
         VObj [(if truthy (at_index args 0) then "error" else "output", snapshot)] in
       onDone reply w args σ
       = (bind (reply g (applyArgs σ ++ [outcome])) (fun _ => Normal VUndefined),
          {| applyArgs := applyArgs σ ++ [outcome];
             logged := logged σ ++ [applyArgs σ ++ [outcome]] |}).
Proof.
  intros Hg.
  assert (Hprintable : forall v, printable match serialize "" v with
                                           | Text j => of_json j
                                           | _ => VNull
                                           end = true).
  { intros v. unfold printable, printable_as.
    destruct (serialize "" v) as [j| |e]; try done.
    by rewrite serialize_of_json. }
  unfold onDone. rewrite Hg.
  destruct (truthy (at_index args 0)); rewrite clonePrimitive_spec; simpl;
    eexists; (split; [reflexivity|]); (split; [apply Hprintable|]); reflexivity.
Qed.

Section Constructed.

Context {host : Json.Host}.

Variable reply : fid -> list value -> completion.
Variable w : wrapper.

Local Abbreviation extern := (Tcgen.extern reply w).

Lemma body_of_agrees impl1 impl2 g :
  (forall f, Executor.on_new (impl1 f) = Executor.on_new (impl2 f)
             /\ Executor.later (impl1 f) = Executor.later (impl2 f)) ->
  Executor.on_new (Executor.body_of impl1 g) = Executor.on_new (Executor.body_of impl2 g)
  /\ Executor.later (Executor.body_of impl1 g) = Executor.later (Executor.body_of impl2 g).
Proof. intros H. induction g; simpl; auto; apply H. Qed.

Lemma execute_constructs impl1 impl2 this params (s : Executor.st (W := world)) :
  (forall f, Executor.on_new (impl1 f) = Executor.on_new (impl2 f)
             /\ Executor.later (impl1 f) = Executor.later (impl2 f)) ->
  truthy (Executor.construct this) = true ->
  Executor.execute extern impl1 this params s = Executor.execute extern impl2 this params s.
Proof.
  intros H Hc.
  assert (Htry : Executor.try_block extern impl1 this params s
                 = Executor.try_block extern impl2 this params s).
  { unfold Executor.try_block. rewrite Hc.
    destruct (Executor.method this) as [| | | | | | | | |g| |]; try done.
    by destruct (body_of_agrees impl1 impl2 g H) as [-> _]. }
  assert (Hlater : forall s', Executor.run_later extern impl1 this params s'
                              = Executor.run_later extern impl2 this params s').
  { intros s'. unfold Executor.run_later. rewrite Hc.
    destruct (Executor.method this) as [| | | | | | | | |g| |]; try done.
    by destruct (body_of_agrees impl1 impl2 g H) as [-> ->]. }
  unfold Executor.execute, Executor.executor_fn. rewrite Htry.
  destruct (Executor.try_block extern impl2 this params s) as [[c s1] this1].
  destruct c as [ret|er].
  - destruct (bool_decide _); [by rewrite Hlater|].
    destruct (_ && _); [|destruct (Executor.resolving _ _ _ _); by rewrite Hlater].
    destruct ret; by rewrite Hlater.
  - destruct (Executor.rejecting _ _ _ _). by rewrite Hlater.
Qed.

(** Extra X20.  A wrapper never calls the function it wraps: it hands it
    to the executor with the completion closure in the place of
    [construct], so the executor runs it with [new].  What the function
    does when it is called plainly therefore has no bearing on the
    wrapper: two programs whose functions agree in what they do under
    [new] and later give the same result, the same promise and the same
    calls. *)
Theorem the_function_is_constructed impl1 impl2 args σ :
  (forall f, Executor.on_new (impl1 f) = Executor.on_new (impl2 f)
             /\ Executor.later (impl1 f) = Executor.later (impl2 f)) ->
  mainCall impl1 reply w args σ = mainCall impl2 reply w args σ.
Proof.
  intros H. unfold mainCall.
  destruct (map_clonePrimitive args) as [snapshots|e]; [|done].
  by rewrite (execute_constructs impl1 impl2) by done.
Qed.

End Constructed.

(** ** getConfigFromPkg *)

(** Extra X21.  [getConfigFromPkg] throws its assertion error on a value
    that is neither of type object nor of type string; [null] passes the
    assertion, being of type object, and then the read of [config]
    throws a TypeError; and whenever the function returns, it returns a
    truthy value, the empty object when the package has no truthy
    [config] or no truthy entry under the name of this package. *)
Theorem the_config_of_the_package MODULE_CODE require_package pkgVal :
  (typeof pkgVal <> "object" -> typeof pkgVal <> "string" ->
     getConfigFromPkg MODULE_CODE require_package pkgVal
       = Abrupt (AssertionError "name MUST_BE_OBJECT_OR_STRING"))
  /\ getConfigFromPkg MODULE_CODE require_package VNull
     = Abrupt (TypeError "Cannot read properties of undefined or null")
  /\ (forall v, getConfigFromPkg MODULE_CODE require_package pkgVal = Normal v ->
        truthy v = true)
  /\ (forall props config,
        pkgVal = VObj props -> get pkgVal "config" = Normal config ->
        truthy config = false ->
        getConfigFromPkg MODULE_CODE require_package pkgVal = Normal (VObj [])).
Proof.
  split; [|split; [|split]].
  - intros Ho Hs. unfold getConfigFromPkg.
    rewrite bool_decide_eq_false_2; [done|].
    rewrite !elem_of_cons, elem_of_nil. tauto.
  - reflexivity.
  - intros v. unfold getConfigFromPkg. destruct (bool_decide _); [|done].
    destruct (match pkgVal with VStr dir => require_package dir | _ => Normal pkgVal end)
      as [pkg|e]; [|done]. simpl.
    destruct (get pkg "config") as [config|e]; [|done]. simpl.
    destruct (get _ MODULE_CODE) as [entry|e]; [|done]. simpl.
    intros [= <-]. by destruct (truthy entry) eqn:E.
  - intros props config -> Hconfig Hfalsy. unfold getConfigFromPkg.
    rewrite bool_decide_eq_true_2 by (simpl; left).
    cbn [bind]. rewrite Hconfig. cbn [bind]. by rewrite Hfalsy.
Qed.

End TcgenMore.

(* ===================================================================== *)
(** * The further facts on the sample programs *)
(* ===================================================================== *)

Module MoreScenarios.
Import Executor Tcgen Cases Further.

#[local] Existing Instance host.

(** ** The executor *)

Lemma handler_throws_always : throws_always handler_throws (FUser 1) failure.
Proof. intros args s. eexists. reflexivity. Qed.

(** [each] calls the wrapping callback twice on a promise that is
    settled: the settlement stays. *)
Lemma the_first_settlement_decides_witness :
  outputHandler normalizer = VFun (FUser 1)
  /\ quiet silent (FUser 1)
  /\ prm settled = Some (Fulfilled (VNum 1))
  /\ prm (execute silent (fun _ => each) normalizer [VFun (FUser 2)] settled).1.2
     = Some (Fulfilled (VNum 1)).
Proof.
  split; [reflexivity|]. split; [apply Scenarios.silent_quiet|]. split; [reflexivity|].
  exact (proj2 (ExecutorMore.the_first_settlement_decides silent (fun _ => each)
                  normalizer (FUser 1) settled (Fulfilled (VNum 1))
                  eq_refl (Scenarios.silent_quiet _) eq_refl) [VFun (FUser 2)]).
Defined.


(** [add(2, 3)] with a handler that throws: the promise is rejected with
    the error of the handler, and the result 5 is lost. *)
Lemma a_throwing_handler_rejects_witness :
  returnWithCB normalizer [VNum 2; VNum 3] = None
  /\ prm (execute handler_throws (fun _ => add) normalizer [VNum 2; VNum 3] (init tt)).1.2
     = Some (Rejected failure)
  /\ fired (execute handler_throws (fun _ => add) normalizer [VNum 2; VNum 3] (init tt)).1.2
     = [[VNull; VNum 5]].
Proof.
  split; [reflexivity|].
  exact (ExecutorMore.a_throwing_handler_rejects handler_throws (fun _ => add) normalizer
           (FUser 1) failure [VNum 2; VNum 3] tt
           eq_refl handler_throws_always eq_refl).
Defined.

(** [add(2, 3)] with [null] as output handler. *)
Lemma without_a_handler_nothing_fires_witness :
  typeof (outputHandler unhandled) = "object"
  /\ trace (execute silent (fun _ => add) unhandled [VNum 2; VNum 3] (init tt)).1.2 = []
  /\ prm (execute silent (fun _ => add) unhandled [VNum 2; VNum 3] (init tt)).1.2
     = Some (Rejected not_callable).
Proof.
  split; [reflexivity|].
  refine (ExecutorMore.without_a_handler_nothing_fires silent (fun _ => add) unhandled
            [VNum 2; VNum 3] tt _).
  discriminate.
Defined.

(** The name of a method in the place of the method. *)
Lemma a_method_name_is_not_called_witness :
  typeof (method by_name) = "string"
  /\ exists msg,
       fired (execute silent (fun _ => add) by_name [VNum 2; VNum 3] (init tt)).1.2
         = [[TypeError msg]]
       /\ prm (execute silent (fun _ => add) by_name [VNum 2; VNum 3] (init tt)).1.2
          = Some (Rejected (TypeError msg)).
Proof.
  split; [reflexivity|].
  destruct (ExecutorMore.a_method_name_is_not_called silent (fun _ => add) by_name (FUser 1)
              [VNum 2; VNum 3] tt ltac:(discriminate) eq_refl (Scenarios.silent_quiet _))
    as (msg & Hfired & _ & Hprm & _).
  exists msg. exact (conj Hfired Hprm).
Defined.

(** ** The recorder *)

(** A recorder for a directory two levels below one that exists:
    [mkdirSync] makes no directory, the stream fails and no file is
    made. *)
Lemma a_new_recorder_appends_a_header_witness :
  (exists w,
     Logger.writer (Logger.new posix_join "/tmp/tcgen/u/src/lib" (Some "src/lib") None
                      monday home).1 = Some w
     /\ Logger.failed w <> None)
  /\ Logger.files (Logger.new posix_join "/tmp/tcgen/u/src/lib" (Some "src/lib") None
                     monday home).2 = Logger.files home.
Proof.
  pose proof (LoggerMore.a_new_recorder_appends_a_header posix_join
                "/tmp/tcgen/u/src/lib" (Some "src/lib") None monday home) as H.
  cbv zeta in H. destruct H as (_ & w & Hw & _ & _ & _ & _ & Hno & Hmissing).
  assert (Hbad : Logger.failed w <> None).
  { apply Hmissing; [reflexivity| |];
      intros [H|H]%elem_of_union; apply elem_of_singleton in H; discriminate H. }
  split; [exists w; exact (conj Hw Hbad)|exact (Hno Hbad)].
Defined.

(** The recorder of [lib/calc], stopped and used again on the same
    Monday. *)
Lemma a_stopped_recorder_drops_records_witness :
  Logger.fileName calc_recorder.1 = Some (Logger.getFileName calc_recorder.1 monday)
  /\ (Logger.log posix_join (Logger.stop calc_recorder.1 calc_recorder.2).1
        (VStr "add") (VBool false) VNull (VArr []) VNull monday
        (Logger.stop calc_recorder.1 calc_recorder.2).2).1.1 = Normal ()
  /\ Logger.writer
       (Logger.log posix_join (Logger.stop calc_recorder.1 calc_recorder.2).1
          (VStr "add") (VBool false) VNull (VArr []) VNull monday
          (Logger.stop calc_recorder.1 calc_recorder.2).2).1.2
     = Some {| Logger.target := "out/calcNov_02_2026"; Logger.ended := true;
               Logger.failed := Some (VErr "Error" "write after end") |}.
Proof.
  split; [reflexivity|].
  pose proof (LoggerMore.a_stopped_recorder_drops_records posix_join
                calc_recorder.1 calc_recorder.2 monday
                (VStr "add") (VBool false) VNull (VArr []) VNull _ _
                eq_refl eq_refl eq_refl eq_refl) as H.
  cbv zeta in H. destruct H as (Hc & _ & Hw & _).
  exact (conj Hc Hw).
Defined.

(** The first record of the Tuesday. *)
Lemma the_first_record_of_a_day_witness :
  Logger.getFileName calc_recorder.1 tuesday = "calcNov_03_2026"
  /\ (Logger.log posix_join calc_recorder.1
        (VStr "add") (VBool false) VNull (VArr []) VNull tuesday calc_recorder.2).1.1
     = Normal ()
  /\ Logger.writer
       (Logger.log posix_join calc_recorder.1
          (VStr "add") (VBool false) VNull (VArr []) VNull tuesday calc_recorder.2).1.2
     = Some {| Logger.target := "out/calcNov_03_2026"; Logger.ended := false;
               Logger.failed := None |}.
Proof.
  split; [reflexivity|].
  pose proof (LoggerMore.the_first_record_of_a_day posix_join
                calc_recorder.1 calc_recorder.2 tuesday
                (VStr "add") (VBool false) VNull (VArr []) VNull _
                ltac:(discriminate) eq_refl) as H.
  cbv zeta in H. destruct H as (Hc & _ & _ & _ & Hopen & _).
  split; [exact Hc|]. apply Hopen.
  - apply (bool_decide_unpack _). vm_compute. exact I.
  - apply (bool_decide_unpack _). vm_compute. exact I.
Defined.

Lemma the_file_name_is_the_date_witness :
  Logger.getFileName calc_recorder.1 monday = "calcNov_02_2026".
Proof.
  exact (LoggerMore.the_file_name_is_the_date calc_recorder.1
           "Mon" "Nov" "02" "2026" "12:10:00 GMT+0000 (Coordinated Universal Time)"
           eq_refl eq_refl eq_refl eq_refl).
Defined.

(** A record with a function and [undefined] in it is printed; one with
    a BigInt is not, nor one whose [toJSON] throws. *)
Lemma log_throws_on_unprintable_values_only_witness :
  wired posix_join calc_recorder.1 = true
  /\ (Logger.log posix_join calc_recorder.1 (VStr "add") VUndefined (VFun (FUser 2))
        (VArr [VNum 2]) (VObj [("output", VNum 5)]) monday calc_recorder.2).1.1 = Normal ()
  /\ (Logger.log posix_join calc_recorder.1 (VStr "add") VUndefined VNull
        (VArr [VBigInt 2]) VNull monday calc_recorder.2).1.1 <> Normal ().
Proof.
  split; [reflexivity|]. split.
  - pose proof (LoggerMore.log_throws_on_unprintable_values_only posix_join
                  calc_recorder.1 (VStr "add") VUndefined (VFun (FUser 2))
                  (VArr [VNum 2]) (VObj [("output", VNum 5)]) monday
                  calc_recorder.2 eq_refl) as H.
    cbv zeta in H. exact (proj2 (proj1 H) eq_refl).
  - intros Hlog.
    pose proof (LoggerMore.log_throws_on_unprintable_values_only posix_join
                  calc_recorder.1 (VStr "add") VUndefined VNull
                  (VArr [VBigInt 2]) VNull monday
                  calc_recorder.2 eq_refl) as H.
    cbv zeta in H. pose proof (proj1 (proj1 H) Hlog) as Hp.
    discriminate Hp.
Defined.

(** The two values with a [toJSON] method: one whose method throws makes
    [log] throw what the method throws; a date with a BigInt beside its
    method is printed as the method says. *)
Example log_follows_toJSON :
  (Logger.log posix_join calc_recorder.1 (VStr "add") VUndefined
     (VObj [("toJSON", VFun (FUser 8))]) (VArr []) VNull monday calc_recorder.2).1.1
    = Abrupt (VErr "Error" "no text")
  /\ (Logger.log posix_join calc_recorder.1 (VStr "add") VUndefined
        (VObj [("toJSON", VFun (FUser 7)); ("n", VBigInt 1)]) (VArr []) VNull
        monday calc_recorder.2).1.1
     = Normal ().
Proof. split; reflexivity. Qed.

(** ** The instrumenter *)

(** A link to nothing below the root stops the walk, where [statSync]
    throws; the file after it is not reached. *)
Example walk_stops_at_a_dangling_link :
  Tcgen.walk posix_join "src" broken_tree ".js" []
    = Abrupt (VErr "Error" "ENOENT: no such file or directory, stat")
  /\ readable broken_tree = false.
Proof. split; reflexivity. Qed.

(** A getter that throws, a frozen prototype and a [null] prototype: each
    makes [instrumentClass] throw, with a string as [destdir]. *)
Example instrumentClass_throws :
  (instrumentClass posix_join "/" project "/home/u/proj/src/shape.js"
                   (Function Shape) monday home).1
    = Abrupt (TypeError "Cannot read properties of undefined (reading 'length')")
  /\ (instrumentClass posix_join "/" project "/home/u/proj/src/calc.js"
                      (Function Frozen) monday home).1
     = Abrupt (TypeError "Cannot assign to read only property")
  /\ (instrumentClass posix_join "/" project "/home/u/proj/src/bare.js"
                      (Function Bare) monday home).1
     = Abrupt (TypeError "Cannot convert undefined or null to object").
Proof. repeat split. Qed.

(** The static members of [Calc]: [make] is wrapped, [length], [name] and
    [prototype] are not. *)
Lemma static_members_are_wrapped_witness :
  Forall2 (fun before after =>
             after.1 = before.1
             /\ if String.eqb (typeof before.2) "function"
                   && negb (bool_decide (before.1 ∈ ignoredStaticMethods))
                then exists w σ, after.2 = Intercepted w σ
                       /\ sLogger w = Logger.as_value Calc_recorder
                       /\ ent w = bound before.2
                       /\ prop w = VUndefined
                       /\ isConstructor w = VBool false
                else after.2 = Plain before.2)
          (statics Calc) (new_statics new_Calc).
Proof.
  exact (TcgenMore.static_members_are_wrapped posix_join "/" project
           "/home/u/proj/src/calc.js" Calc monday home new_Calc Calc_recorder
           calc_instrumented.2 Scenarios.calc_instrumented_eq).
Defined.

Lemma the_base_name_is_empty_witness :
  Logger.fileBaseName Calc_recorder = ""
  /\ Logger.fileName Calc_recorder = Some "Nov_02_2026".
Proof.
  destruct (TcgenMore.the_base_name_is_empty posix_join "/" project
              "/home/u/proj/src/calc.js" Calc monday home new_Calc Calc_recorder
              calc_instrumented.2 Scenarios.calc_instrumented_eq)
    as (Hbase & Hname & _).
  exact (conj Hbase Hname).
Defined.

(** The instance made for [/home/u/proj/src]. *)
Lemma the_filelist_of_an_instance_witness :
  exists entries,
    disk_at "/home/u/proj/src" "/home/u/proj/src" = Some (Dir entries)
    /\ forall p,
         p ∈ ["/home/u/proj/src/a.js"; "/home/u/proj/src/lib/b.js"]
         <-> below posix_join ".js" "/home/u/proj/src" (Dir entries) p.
Proof.
  destruct (TcgenMore.the_filelist_of_an_instance posix_join "/" "/tmp" "tcgen"
              (disk_at "/home/u/proj/src") mkdirp_succeeds
              (VObj [("srcdir", VStr "/home/u/proj/src")])
              {| mainModuleCodeUpper := "TCGEN";
                 srcdir := "/home/u/proj/src";
                 destdir := VStr "/tmp/tcgen/u";
                 filelist := ["/home/u/proj/src/a.js"; "/home/u/proj/src/lib/b.js"] |}
              _ eq_refl)
    as (_ & entries & Hdisk & _ & _ & Hiff).
  exists entries. exact (conj Hdisk Hiff).
Defined.

Lemma Calc_add_wrapped :
  ("add", Intercepted Calc_add.1 Calc_add.2)
    ∈ new_statics new_Calc ++ new_prototype new_Calc.
Proof. vm_compute. do 5 right. left. Qed.

(** The completion closure of the wrapper of [Calc.prototype.add],
    called with the result 5. *)
Lemma the_recorder_is_no_function_witness :
  typeof (sLogger Calc_add.1) = "object"
  /\ (onDone replies Calc_add.1 [VNull; VNum 5] Calc_add.2).1
     = Abrupt (TypeError "sLogger.apply is not a function").
Proof.
  destruct (TcgenMore.the_recorder_is_no_function posix_join "/" project
              "/home/u/proj/src/calc.js" (Function Calc) monday home new_Calc Calc_recorder
              calc_instrumented.2 "add" Calc_add.1 Calc_add.2
              Scenarios.calc_instrumented_eq Calc_add_wrapped)
    as (_ & Htype & Hdone).
  split; [exact Htype|].
  exact (proj1 (Hdone replies [VNull; VNum 5] Calc_add.2)).
Defined.

(** [Calc] is instrumented without a throw. *)
Lemma instrumentClass_needs_a_string_witness :
  typeof (destdir project) = "string"
  /\ instrumentable Calc
       [("constructor", VFun (FUser 1)); ("add", VFun (FUser 2)); ("version", VNum 3)]
     = true
  /\ exists result logger,
       (instrumentClass posix_join "/" project "/home/u/proj/src/calc.js"
                        (Function Calc) monday home).1
         = Normal (Some (result, logger))
       /\ length (new_statics result) = 4
       /\ length (new_prototype result) = 3.
Proof.
  split; [reflexivity|]. split; [reflexivity|].
  pose proof (TcgenMore.instrumentClass_needs_a_string posix_join "/" project
                "/home/u/proj/src/calc.js" Calc monday home) as H.
  cbv zeta in H. destruct H as (_ & _ & Hstring).
  destruct (Hstring eq_refl) as [_ Hproto].
  exact (proj1 (Hproto _ eq_refl) eq_refl).
Defined.

(** The completion closure of a wrapper whose logger is a function,
    called with the result 5: the logger receives the four arguments
    pushed so far. *)
Lemma the_outcome_is_pushed_witness :
  sLogger add_wrapper = VFun (FUser 9)
  /\ exists snapshot,
       printable snapshot = true
       /\ logged (onDone replies add_wrapper [VNull; VNum 5] add_world).2
          = [[VBool false; VBool false; VNull; VObj [("output", snapshot)]]].
Proof.
  split; [reflexivity|].
  destruct (TcgenMore.the_outcome_is_pushed replies add_wrapper (FUser 9)
              [VNull; VNum 5] add_world eq_refl)
    as (snapshot & _ & Hprintable & Hdone).
  exists snapshot. split; [exact Hprintable|].
  simpl in Hdone. by rewrite Hdone.
Defined.

Lemma calc_impls_agree f :
  on_new (calc_impl f) = on_new (calc_impl' f)
  /\ later (calc_impl f) = later (calc_impl' f).
Proof. destruct f as [[|[|[|n]]]| | | |]; split; reflexivity. Qed.

(** The wrapper of [add] gives the same with a body that subtracts. *)
Lemma the_function_is_constructed_witness :
  on_call (calc_impl (FUser 2)) [VNum 2; VNum 3] = Return (VNum 5)
  /\ on_call (calc_impl' (FUser 2)) [VNum 2; VNum 3] = Return (VNum (-1))
  /\ mainCall calc_impl replies add_wrapper [VNum 2; VNum 3] add_world
     = mainCall calc_impl' replies add_wrapper [VNum 2; VNum 3] add_world.
Proof.
  split; [reflexivity|]. split; [reflexivity|].
  exact (TcgenMore.the_function_is_constructed replies add_wrapper calc_impl calc_impl'
           [VNum 2; VNum 3] add_world calc_impls_agree).
Defined.

End MoreScenarios.
